(** * AGNI session export scripts: pagination, deduplication, enrichment, export

    A shallow embedding of the window loops, the deduplication, the
    enrichment and the column ordering of

      - [get-agni-sessions.py]            (module [Sessions])
      - [get-agni-clients-by-segment.py]  (module [Segment])
      - [test-client.py]                  (module [TestClient])

    ([get-agni-stats.py] has none of these and is left out), and of the
    Python values they manipulate.  Times are integers (one unit is one
    tick of the clock; a [timedelta] is a difference of ticks), JSON
    bodies are [pyval]s, Python dictionaries are insertion-ordered
    association lists, exceptions are an explicit result type, and the
    upstream service is an oracle handing out one [response] per
    request. *)

From Stdlib Require Import ZArith String List Lia.
From stdpp Require Import base list strings gmap sorting.

#[local] Set Warnings "-register-all".
Local Open Scope string_scope.
Local Open Scope list_scope.
Local Open Scope Z_scope.

(* ===================================================================== *)
(** ** Python values *)
(* ===================================================================== *)

(** What [resp.json()] can produce.  JSON numbers are integers here;
    fractional numbers never occur in the fields the scripts inspect.
    The list under [PDict] is a Python dictionary in insertion order: it
    holds each key once ([dict_wf] below). *)
Inductive pyval : Type :=
| PNone
| PBool (b : bool)
| PInt (n : Z)
| PStr (s : string)
| PList (l : list pyval)
| PDict (d : list (string * pyval)).

(** A record is the content of a JSON object. *)
Abbreviation record := (list (string * pyval)).

(** Python truthiness: [if v:] / [if not v:]. *)
Definition truthy (v : pyval) : bool :=
  match v with
  | PNone => false
  | PBool b => b
  | PInt n => negb (n =? 0)
  | PStr s => match s with EmptyString => false | _ => true end
  | PList l => match l with [] => false | _ => true end
  | PDict d => match d with [] => false | _ => true end
  end.

(** [isinstance(v, dict)]. *)
Definition is_dict (v : pyval) : bool :=
  match v with PDict _ => true | _ => false end.

(** Exceptions the scripts can meet.  [RequestException] stands for
    [requests.exceptions.RequestException] and its subclasses
    (connection errors, timeouts, [HTTPError] from [raise_for_status],
    the JSON decode error of [resp.json()]). *)
Inductive exn : Type := RequestException | AttributeError | TypeError | KeyError.

Inductive result (A : Type) : Type :=
| Ok (a : A)
| Raise (e : exn).
Arguments Ok {A} a.
Arguments Raise {A} e.

(** Sequencing: the first exception raised aborts what follows.  With
    these instances [x ← m; k] reads as two consecutive statements. *)
Global Instance result_ret : MRet result := fun A a => Ok a.
Global Instance result_bind : MBind result := fun A B f m =>
  match m with Ok a => f a | Raise e => Raise e end.
Global Instance result_fmap : FMap result := fun A B f m =>
  match m with Ok a => Ok (f a) | Raise e => Raise e end.

(** [try: m  except Exception: handler]. *)
Definition try_except {A} (m : result A) (handler : A) : A :=
  match m with Ok a => a | Raise _ => handler end.

(** Hashable values as dictionary keys.  Python hashes [True] and [1]
    (and [False] and [0]) to the same key. *)
Inductive pykey : Type := KNone | KInt (n : Z) | KStr (s : string).

Global Instance pykey_eq_dec : EqDecision pykey.
Proof. solve_decision. Defined.

Global Instance pykey_countable : Countable pykey.
Proof.
  refine (inj_countable'
    (fun k => match k with
              | KNone => inl tt
              | KInt n => inr (inl n)
              | KStr s => inr (inr s)
              end)
    (fun x => match x with
              | inl _ => KNone
              | inr (inl n) => KInt n
              | inr (inr s) => KStr s
              end) _).
  intros []; reflexivity.
Defined.

(** The key under which a value is stored, [TypeError: unhashable type]
    for lists and dictionaries. *)
Definition to_key (v : pyval) : result pykey :=
  match v with
  | PNone => Ok KNone
  | PBool b => Ok (KInt (if b then 1 else 0))
  | PInt n => Ok (KInt n)
  | PStr s => Ok (KStr s)
  | PList _ | PDict _ => Raise TypeError
  end.

(* ===================================================================== *)
(** ** Insertion-ordered dictionaries *)
(* ===================================================================== *)

Section odict.
Context {K V : Type} `{EqDecision K}.

(** [d.get(k)] as an option; [k in d] is [is_Some]. *)
Fixpoint dict_get (k : K) (d : list (K * V)) : option V :=
  match d with
  | [] => None
  | (k', v) :: d' => if decide (k = k') then Some v else dict_get k d'
  end.

Definition dict_mem (k : K) (d : list (K * V)) : bool :=
  match dict_get k d with Some _ => true | None => false end.

(** [d[k] = v]: an existing key keeps its position, a new key goes
    last. *)
Fixpoint dict_set (k : K) (v : V) (d : list (K * V)) : list (K * V) :=
  match d with
  | [] => [(k, v)]
  | (k', v') :: d' =>
      if decide (k = k') then (k', v) :: d' else (k', v') :: dict_set k v d'
  end.

(** [del d[k]] when present. *)
Fixpoint dict_del (k : K) (d : list (K * V)) : list (K * V) :=
  match d with
  | [] => []
  | (k', v') :: d' =>
      if decide (k = k') then d' else (k', v') :: dict_del k d'
  end.

(** [d.pop(k, default)]: the value (or the default) and the dictionary
    left behind. *)
Definition dict_pop (k : K) (dflt : V) (d : list (K * V)) : V * list (K * V) :=
  match dict_get k d with
  | Some v => (v, dict_del k d)
  | None => (dflt, d)
  end.

Definition dict_keys (d : list (K * V)) : list K := d.*1.
Definition dict_values (d : list (K * V)) : list V := d.*2.

(** Python dictionaries hold each key once. *)
Definition dict_wf (d : list (K * V)) : Prop := NoDup (dict_keys d).
End odict.

(** [v.get(k, default)] on an arbitrary value: only mappings have [get]. *)
Definition py_get (v : pyval) (k : string) (dflt : pyval) : result pyval :=
  match v with
  | PDict d => Ok (default dflt (dict_get k d))
  | _ => Raise AttributeError
  end.

(** [k in v] for a string [k]: key membership on mappings, element
    membership on lists, substring test on strings, [TypeError] on the
    rest. *)
Definition py_contains (k : string) (v : pyval) : result bool :=
  match v with
  | PDict d => Ok (dict_mem k d)
  | PList l =>
      Ok (existsb (fun x => match x with
                            | PStr s => bool_decide (s = k)
                            | _ => false
                            end) l)
  | PStr s => Ok (match String.index 0 k s with Some _ => true | None => false end)
  | PNone | PBool _ | PInt _ => Raise TypeError
  end.

(** [v[k]] for a string [k]. *)
Definition py_getitem (v : pyval) (k : string) : result pyval :=
  match v with
  | PDict d => match dict_get k d with Some x => Ok x | None => Raise KeyError end
  | _ => Raise TypeError
  end.

(** The elements [list.extend(v)] appends: the items of a list, the
    one-character strings of a string, the keys of a mapping. *)
Definition py_iter (v : pyval) : result (list pyval) :=
  match v with
  | PList l => Ok l
  | PStr s => Ok ((fun c => PStr (String c EmptyString)) <$> list_ascii_of_string s)
  | PDict d => Ok (PStr <$> dict_keys d)
  | PNone | PBool _ | PInt _ => Raise TypeError
  end.

Definition extend (l : list pyval) (v : pyval) : result (list pyval) :=
  items ← py_iter v; Ok (l ++ items).

(** [v == s] for a string [s]: only the string [s] itself is equal to
    it. *)
Definition py_eq_str (v : pyval) (s : string) : bool :=
  match v with PStr t => bool_decide (t = s) | _ => false end.

(** [v.keys()]. *)
Definition py_keys (v : pyval) : result (list string) :=
  match v with PDict d => Ok (dict_keys d) | _ => Raise AttributeError end.

(** [v.items()]. *)
Definition py_items (v : pyval) : result (list (string * pyval)) :=
  match v with PDict d => Ok d | _ => Raise AttributeError end.

(** The order [sorted] and [list.sort] put strings in. *)
Definition str_le (a b : string) : Prop := String.leb a b = true.

Global Instance str_le_dec : RelDecision str_le.
Proof. intros a b. unfold str_le. apply _. Defined.

(** [sorted(keys)] and [keys.sort()] on a list of strings. *)
Definition py_sorted (keys : list string) : list string :=
  merge_sort str_le keys.

(* ===================================================================== *)
(** ** The upstream service and the clock *)
(* ===================================================================== *)

(** What one request yields: [session.post] raises (connection error,
    timeout), or a reply arrives with a status code and a body that
    [resp.json()] can decode ([Some]) or not ([None]). *)
Inductive response : Type :=
| NetworkError
| Reply (status_code : Z) (body : option pyval).

(** [resp.raise_for_status()]: [HTTPError] on 4xx and 5xx. *)
Definition raise_for_status (status_code : Z) : result unit :=
  if (400 <=? status_code) && (status_code <? 600)
  then Raise RequestException else Ok tt.

(** [resp.json()]. *)
Definition json (body : option pyval) : result pyval :=
  match body with Some b => Ok b | None => Raise RequestException end.

(** Clock ticks are microseconds, the resolution of [datetime]. *)
Definition minutes (m : Z) : Z := m * 60000000.

(** A query window, the [fromTimestamp] and [toTimestamp] of a payload. *)
Record window : Type := Window { fromTimestamp : Z; toTimestamp : Z }.

Global Instance window_eq_dec : EqDecision window.
Proof. solve_decision. Defined.

(** How one pass through a loop body ends. *)
Inductive flow (A : Type) : Type :=
| Next (a : A)      (* falls through to the end of the body *)
| Break (a : A)     (* [break] *)
| Abort (e : exn).  (* an exception leaves the loop *)
Arguments Next {A} a.
Arguments Break {A} a.
Arguments Abort {A} e.

(** What a pagination pass leaves behind: the accumulated list, or the
    exception that ended it, and the windows queried, in order. *)
Record run : Type := Run { outcome : result (list pyval); queried : list window }.

Definition log (w : window) (r : run) : run :=
  Run (outcome r) (w :: queried r).

(** The window loop the three scripts share:

      while current_from >= total_start_time:
          <body: one query for [current_from, current_to]>
          current_to = current_from
          current_from = current_to - width
          time.sleep(...)

    [fuel] bounds the number of tests of the loop condition; [None]
    means the loop is still running when the fuel is spent.

    Instants are integers.  Python's [datetime] stops at the years 1 and
    9999 and [current_to - width] raises [OverflowError] beyond them;
    the loop below follows the script as long as the instants it
    computes stay inside that range. *)
Fixpoint window_loop (body : response -> list pyval -> flow (list pyval))
    (upstream : window -> response) (width total_start_time : Z)
    (fuel : nat) (all_sessions : list pyval) (current_to current_from : Z)
    : option run :=
  match fuel with
  | O => None
  | S fuel' =>
      if total_start_time <=? current_from then
        let w := Window current_from current_to in
        match body (upstream w) all_sessions with
        | Next all_sessions' =>
            log w <$> window_loop body upstream width total_start_time fuel'
                        all_sessions' current_from (current_from - width)
        | Break all_sessions' => Some (Run (Ok all_sessions') [w])
        | Abort e => Some (Run (Raise e) [w])
        end
      else Some (Run (Ok all_sessions) [])
  end.

(* ===================================================================== *)
(** ** get-agni-sessions.py *)
(* ===================================================================== *)

Module Sessions.

(** Lines 69-71: ["error" in body and body["error"]]. *)
Definition error_in_body (body : pyval) : result bool :=
  present ← py_contains "error" body;
  if (present : bool) then e ← py_getitem body "error"; Ok (truthy e)
  else Ok false.

(** Lines 73-80. *)
Definition collect (body : pyval) (all_records : list pyval) : result (list pyval) :=
  data ← py_get body "data" (PDict []);
  records ← py_get data "records" (PList []);
  if negb (truthy records) then Ok all_records
  else extend all_records records.

(** Lines 61-67, the guarded request. *)
Definition request (resp : response) : result pyval :=
  match resp with
  | NetworkError => Raise RequestException
  | Reply status_code body => _ ← raise_for_status status_code; json body
  end.

(** The body of the window loop, lines 52-80. *)
Definition loop_body (resp : response) (all_records : list pyval)
    : flow (list pyval) :=
  match request resp with
  | Raise RequestException => Break all_records
  | Raise e => Abort e
  | Ok body =>
      match error_in_body body with
      | Raise e => Abort e
      | Ok true => Break all_records
      | Ok false =>
          match collect body all_records with
          | Ok all_records' => Next all_records'
          | Raise e => Abort e
          end
      end
  end.

(** Lines 43-86, with the clock reading [now] of line 46. *)
Definition window_pass (WINDOW_MINUTES : Z) (upstream : window -> response)
    (fuel : nat) (now START_DATE : Z) : option run :=
  window_loop loop_body upstream (minutes WINDOW_MINUTES) START_DATE fuel
    [] now (now - minutes WINDOW_MINUTES).

(** Line 99, the set comprehension
    [{k for rec in all_records for k in rec.keys()}]. *)
Fixpoint key_set (all_records : list pyval) : result (gset string) :=
  match all_records with
  | [] => Ok ∅
  | rec :: rest =>
      ks ← py_keys rec;
      s ← key_set rest;
      Ok (list_to_set ks ∪ s)
  end.

(** Line 99, [sorted(...)] applied to the set, which Python hands over
    in some order [keys]. *)
Definition all_keys (keys : list string) : list string := py_sorted keys.

End Sessions.

(* ===================================================================== *)
(** ** Code shared verbatim by get-agni-clients-by-segment.py and
       test-client.py *)
(* ===================================================================== *)

(** One turn of the deduplication loop (segment script lines 161-166,
    test client lines 208-210):

      mac = sess.get("mac")
      if not mac: continue
      unique_devices[mac] = sess                                        *)
Definition dedup_step (unique_devices : list (pykey * record)) (sess : pyval)
    : result (list (pykey * record)) :=
  match sess with
  | PDict r =>
      let mac := default PNone (dict_get "mac" r) in
      if negb (truthy mac) then Ok unique_devices
      else k ← to_key mac; Ok (dict_set k r unique_devices)
  | _ => Raise AttributeError
  end.

(** The dictionary [unique_devices] once the loop over [raw_sessions]
    is over. *)
Fixpoint dedup_from (unique_devices : list (pykey * record))
    (raw_sessions : list pyval) : result (list (pykey * record)) :=
  match raw_sessions with
  | [] => Ok unique_devices
  | sess :: rest =>
      unique_devices' ← dedup_step unique_devices sess;
      dedup_from unique_devices' rest
  end.

Definition unique_devices (raw_sessions : list pyval)
    : result (list (pykey * record)) :=
  dedup_from [] raw_sessions.

(** Flattening of the [attributes] sub-object:
      for k, v in client_attrs.items(): combined_rec[f"client_attr_{k}"] = v *)
Definition flatten_attributes (client_attrs : pyval) (combined_rec : record)
    : result record :=
  match client_attrs with
  | PDict attrs =>
      Ok (foldl (fun rec '(k, v) => dict_set ("client_attr_" +:+ k) v rec)
                combined_rec attrs)
  | _ => Raise AttributeError
  end.

(** The collision rule:
      for k, v in client_data.items():
          if k not in combined_rec: combined_rec[k] = v
          else: combined_rec[f"client_{k}"] = v                          *)
Definition merge_field (combined_rec : record) (kv : string * pyval) : record :=
  let '(k, v) := kv in
  if negb (dict_mem k combined_rec) then dict_set k v combined_rec
  else dict_set ("client_" +:+ k) v combined_rec.

Definition merge_remaining (client_data : record) (combined_rec : record) : record :=
  foldl merge_field combined_rec client_data.

(** The block under [if client_data:] (segment script lines 188-206,
    test client lines 171-189).  The two scripts differ in one place: the
    certificate field read and the name it is stored under, [issuer] as
    [cert_issuer] in the former, [subject] as [cert_subject] in the
    latter. *)
Definition merge_client_data (cert_key cert_col : string)
    (client_data : pyval) (combined_rec : record) : result record :=
  if truthy client_data then
    match client_data with
    | PDict client_data =>
        let '(client_attrs, client_data) :=
          dict_pop "attributes" (PDict []) client_data in
        combined_rec ←
          (if truthy client_attrs
           then flatten_attributes client_attrs combined_rec
           else Ok combined_rec);
        let '(cert_info, client_data) :=
          dict_pop "certificate" PNone client_data in
        combined_rec ←
          (if truthy cert_info && is_dict cert_info then
             c1 ← py_get cert_info cert_key PNone;
             c2 ← py_get cert_info "expiryDate" PNone;
             Ok (dict_set "cert_expiry" c2 (dict_set cert_col c1 combined_rec))
           else Ok combined_rec);
        Ok (merge_remaining client_data combined_rec)
    | PList _ => Raise TypeError       (* list.pop takes one argument *)
    | _ => Raise AttributeError        (* no [pop] on str, int, bool *)
    end
  else Ok combined_rec.

(** The identity lookup ([get_client_details] in the segment script,
    lines 130-143; [get_client_info] in the test client, lines 138-147):

      try:
          resp = session.post(...)
          if resp.status_code == 200:
              return resp.json().get("data", {})
      except Exception:
          pass
      return {}                                                         *)
Definition client_request (resp : response) : result pyval :=
  match resp with
  | NetworkError => Raise RequestException
  | Reply status_code body =>
      if status_code =? 200 then b ← json body; py_get b "data" (PDict [])
      else Ok (PDict [])
  end.

Definition get_client_details (resp : response) (mac : pykey) : pyval :=
  try_except (client_request resp) (PDict []).

(** Column ordering of the export (segment script lines 230-233, test
    client lines 243-246):

      for col in reversed(priority):
          if col in sorted_keys:
              sorted_keys.remove(col)
              sorted_keys.insert(0, col)                                 *)
Fixpoint list_remove (col : string) (l : list string) : list string :=
  match l with
  | [] => []
  | x :: l' => if decide (col = x) then l' else x :: list_remove col l'
  end.

Definition promote (sorted_keys : list string) (col : string) : list string :=
  if bool_decide (col ∈ sorted_keys) then col :: list_remove col sorted_keys
  else sorted_keys.

Definition sorted_keys (priority : list string) (all_keys : list string)
    : list string :=
  foldl promote all_keys (reverse priority).

(** [all_keys]: the union of the key sets of the records. *)
Definition all_keys (final_records : list record) : gset string :=
  ⋃ ((fun r => list_to_set (dict_keys r)) <$> final_records).

(** [list(all_keys)] enumerates the set once, in an order Python does not
    fix. *)
Definition enumerates (keys : list string) (s : gset string) : Prop :=
  keys ≡ₚ elements s.

(** The loop of [get_segment_id] (segment script lines 57-64, test
    client lines 58-62):

      for rec in records:
          if rec.get("name") == segment_name:
              return rec.get("id")
      return None                                                       *)
Fixpoint find_segment (segment_name : string) (records : list pyval)
    : result pyval :=
  match records with
  | [] => Ok PNone
  | rec :: rest =>
      name ← py_get rec "name" PNone;
      if py_eq_str name segment_name then py_get rec "id" PNone
      else find_segment segment_name rest
  end.

(** The statements under [try] (segment script lines 52-64, test client
    lines 55-62). *)
Definition segment_request (resp : response) (segment_name : string)
    : result pyval :=
  match resp with
  | NetworkError => Raise RequestException
  | Reply status_code body =>
      _ ← raise_for_status status_code;
      b ← json body;
      data ← py_get b "data" (PDict []);
      records ← py_get data "Records" (PList []);
      items ← py_iter records;
      find_segment segment_name items
  end.

(** [get_segment_id] (segment script lines 45-67, test client lines
    52-65): [except Exception] returns [None]. *)
Definition get_segment_id (resp : response) (segment_name : string) : pyval :=
  try_except (segment_request resp segment_name) PNone.

(* ===================================================================== *)
(** ** get-agni-clients-by-segment.py *)
(* ===================================================================== *)

Module Segment.

(** Lines 105-114, the statements under [try]. *)
Definition fetch_window (resp : response) (all_sessions : list pyval)
    : result (list pyval) :=
  match resp with
  | NetworkError => Raise RequestException
  | Reply status_code body =>
      _ ← raise_for_status status_code;
      body ← json body;
      data ← py_get body "data" (PDict []);
      records ← py_get data "records" (PList []);
      if truthy records then extend all_sessions records
      else Ok all_sessions
  end.

(** Lines 104-118: [except requests.exceptions.RequestException] prints
    and goes on; any other exception leaves the function. *)
Definition loop_body (resp : response) (all_sessions : list pyval)
    : flow (list pyval) :=
  match fetch_window resp all_sessions with
  | Ok all_sessions' => Next all_sessions'
  | Raise RequestException => Next all_sessions
  | Raise e => Abort e
  end.

(** Lines 69-128, with the clock reading [now] of line 79. *)
Definition get_sessions_time_sliced (WINDOW_MINUTES : Z)
    (upstream : window -> response) (fuel : nat)
    (now total_start_time : Z) : option run :=
  window_loop loop_body upstream (minutes WINDOW_MINUTES) total_start_time
    fuel [] now (now - minutes WINDOW_MINUTES).

Definition priority_cols : list string :=
  ["mac"; "username"; "userID"; "deviceType"; "description";
   "ip"; "nadName"; "segmentName"; "location"; "lastAuthAt";
   "cert_expiry"].

(** One turn of the enrichment loop, lines 183-208. *)
Definition enrich (client_api : pykey -> response) (item : pykey * record)
    : result record :=
  let '(mac, sess_data) := item in
  let combined_rec := sess_data in
  let client_data := get_client_details (client_api mac) mac in
  merge_client_data "issuer" "cert_issuer" client_data combined_rec.

(** Lines 171-212. *)
Definition final_records (ENABLE_ENRICHMENT : bool)
    (client_api : pykey -> response) (unique_devices : list (pykey * record))
    : result (list record) :=
  if (match unique_devices with [] => false | _ => true end) && ENABLE_ENRICHMENT
  then mapM (enrich client_api) unique_devices
  else Ok (dict_values unique_devices).

End Segment.

(* ===================================================================== *)
(** ** test-client.py *)
(* ===================================================================== *)

Module TestClient.

(** Lines 85-88, the statements under [try]. *)
Definition fetch_window (resp : response) (all_sessions : list pyval)
    : result (list pyval) :=
  match resp with
  | NetworkError => Raise RequestException
  | Reply status_code body =>
      if status_code =? 200 then
        body ← json body;
        data ← py_get body "data" (PDict []);
        recs ← py_get data "records" (PList []);
        if truthy recs then extend all_sessions recs else Ok all_sessions
      else Ok all_sessions
  end.

(** Lines 84-90: [except Exception: pass]. *)
Definition loop_body (resp : response) (all_sessions : list pyval)
    : flow (list pyval) :=
  Next (try_except (fetch_window resp all_sessions) all_sessions).

(** Lines 67-97; the width is the literal [timedelta(minutes=30)]. *)
Definition get_sessions_time_sliced (upstream : window -> response)
    (fuel : nat) (now total_start_time : Z) : option run :=
  window_loop loop_body upstream (minutes 30) total_start_time
    fuel [] now (now - minutes 30).

(** *** The switch-name lookup and its cache *)

(** Lines 113-115: the request of [get_nad_name]; [Some name] when line
    115 is completed, [None] on a status other than 200. *)
Definition nad_request (resp : response) : result (option pyval) :=
  match resp with
  | NetworkError => Raise RequestException
  | Reply status_code body =>
      if status_code =? 200 then
        b ← json body;
        data ← py_get b "data" (PDict []);
        name ← py_get data "name" (PStr "Unknown");
        Ok (Some name)
      else Ok None
  end.

(** The only statement of the program that changes [nad_cache] is the
    store of line 117, [nad_cache[nad_id] = name].  [stores ws nad_cache]
    is the cache after the stores [ws], made in that order. *)
Definition stores (ws : list (pykey * pyval)) (nad_cache : gmap pykey pyval)
    : gmap pykey pyval :=
  foldl (fun c kv => <[kv.1 := kv.2]> c) nad_cache ws.

(** What a call of [get_nad_name] leaves: the value returned, the
    shared cache as it is right after the last access of the call to it,
    and whether a request went out. *)
Record nad_call : Type :=
  NadCall { returned : pyval; nad_cache : gmap pykey pyval; fetched : bool }.

(** Lines 101-121.  [resp] is what the service answers if asked.  The
    lock is held for the test of lines 106-108, released, and taken
    again for the store of lines 116-117: [nad_cache] is the cache at
    the test, [stored_meanwhile] are the stores the other workers make
    between the test and the store, and the store is made whether or
    not the key has come into the cache in between. *)
Definition get_nad_name (resp : response)
    (stored_meanwhile : list (pykey * pyval)) (nad_id : pyval)
    (nad_cache : gmap pykey pyval) : result nad_call :=
  if negb (truthy nad_id) then Ok (NadCall (PStr "Unknown") nad_cache false)
  else
    k ← to_key nad_id;
    match nad_cache !! k with
    | Some name => Ok (NadCall name nad_cache false)
    | None =>
        match nad_request resp with
        | Ok (Some name) =>
            Ok (NadCall name (<[k:=name]> (stores stored_meanwhile nad_cache)) true)
        | Ok None | Raise _ => Ok (NadCall (PStr "Unknown") nad_cache true)
        end
    end.

(** *** The port lookup *)

(** Lines 128-133. *)
Definition details_request (resp : response) : result pyval :=
  match resp with
  | NetworkError => Raise RequestException
  | Reply status_code body =>
      if status_code =? 200 then
        b ← json body;
        data ← py_get b "data" (PDict []);
        input_attrs ← py_get data "inputAttrs" (PDict []);
        py_get input_attrs "Radius:IETF:NAS-Port-Id" (PStr "")
      else Ok (PStr "")
  end.

(** Lines 123-136. *)
Definition get_session_details (resp : response) (auth_req_id : pyval) : pyval :=
  if negb (truthy auth_req_id) then PStr ""
  else try_except (details_request resp) (PStr "").

(** Lines 138-147. *)
Definition get_client_info (resp : response) (mac : pykey) : pyval :=
  get_client_details resp mac.

(** *** The worker *)

(** What the worker of one device meets: the answers the service has
    ready for it, and the entries the other workers store in the shared
    cache between its test of the cache and its own store. *)
Record lookups : Type :=
  Lookups { nad_reply : response; details_reply : response;
            client_reply : response;
            stored_meanwhile : list (pykey * pyval) }.

(** Lines 149-191.  The worker is handed the cache it finds and hands
    back the cache as it is right after its last access to it. *)
Definition enrich_device_worker (env : lookups)
    (nad_cache : gmap pykey pyval) (args : pykey * record)
    : result (record * gmap pykey pyval) :=
  let '(mac, sess_data) := args in
  let combined_rec := sess_data in
  let nad_id := default PNone (dict_get "nadID" sess_data) in
  '(combined_rec, nad_cache) ←
    (if truthy nad_id then
       c ← get_nad_name (nad_reply env) (stored_meanwhile env) nad_id nad_cache;
       Ok (dict_set "switch_name" (returned c) combined_rec,
           TestClient.nad_cache c)
     else Ok (combined_rec, nad_cache));
  let auth_req_id := default PNone (dict_get "authReqID" sess_data) in
  let combined_rec :=
    if truthy auth_req_id then
      dict_set "switch_interface"
        (get_session_details (details_reply env) auth_req_id) combined_rec
    else combined_rec in
  let client_data := get_client_info (client_reply env) mac in
  combined_rec ← merge_client_data "subject" "cert_subject" client_data combined_rec;
  Ok (combined_rec, nad_cache).

(** [list(executor.map(f, work_items))]: the results come back in the
    order of the items whatever the scheduling, and the first task (in
    that order) that raised re-raises.  [f i] is the i-th task. *)
Fixpoint executor_map {A B : Type} (f : nat -> A -> result B) (i : nat)
    (work_items : list A) : result (list B) :=
  match work_items with
  | [] => Ok []
  | x :: rest => y ← f i x; ys ← executor_map f (S i) rest; Ok (y :: ys)
  end.

(** What the i-th task observes while it runs among the others: the
    answers of the service, what the others store in the cache while it
    waits for the switch name, and the state of the shared cache when it
    reads it. *)
Definition schedule : Type := nat -> lookups * gmap pykey pyval.

Definition priority : list string :=
  ["mac"; "username"; "userID"; "switch_name"; "switch_interface";
   "ip"; "deviceType"; "segmentName"; "location"; "cert_expiry"].

(** Lines 215-230. *)
Definition final_records (ENABLE_ENRICHMENT : bool) (sched : schedule)
    (unique_devices : list (pykey * record)) : result (list record) :=
  if ENABLE_ENRICHMENT && (match unique_devices with [] => false | _ => true end)
  then
    let work_items := unique_devices in
    executor_map
      (fun i args => fst <$> enrich_device_worker (sched i).1 (sched i).2 args)
      O work_items
  else Ok (dict_values unique_devices).

End TestClient.

(* ===================================================================== *)
(** ** get-agni-stats.py *)
(* ===================================================================== *)

Module Stats.
Section flatten.

(** [json.dumps] of the standard library, which turns a nested value
    into text. *)
Variable json_dumps : pyval → string.

(** [isinstance(v, (dict, list))]. *)
Definition is_nested (v : pyval) : bool :=
  match v with PDict _ | PList _ => true | _ => false end.

(** What the loop over a record carries: the row being built and the
    set of column names met so far. *)
Definition row_state : Type := record * gset string.

(** Lines 102-108, one turn of the loop over [stats_data.items()]. *)
Definition add_stat (st : row_state) (kv : string * pyval) : row_state :=
  let '(flat_rec, all_keys) := st in
  let '(k, v) := kv in
  (dict_set k (if is_nested v then PStr (json_dumps v) else v) flat_rec,
   {[k]} ∪ all_keys).

(** Lines 111-114, one turn of the loop over [rec.items()]. *)
Definition add_root (st : row_state) (kv : string * pyval) : row_state :=
  let '(flat_rec, all_keys) := st in
  let '(k, v) := kv in
  if bool_decide (k ∉ ["stats"; "dateTime"])
  then (dict_set k v flat_rec, {[k]} ∪ all_keys)
  else (flat_rec, all_keys).

(** Lines 93-116, the body of the loop over the records: the flattened
    row and the grown set of column names. *)
Definition flatten_record (rec : pyval) (all_keys : gset string)
    : result row_state :=
  has_date ← py_contains "dateTime" rec;
  st ← (if (has_date : bool) then
          d ← py_getitem rec "dateTime";
          Ok (dict_set "dateTime" d [], {["dateTime"]} ∪ all_keys)
        else Ok ([], all_keys));
  stats_data ← py_get rec "stats" (PDict []);
  st ← (if truthy stats_data then
          items ← py_items stats_data; Ok (foldl add_stat st items)
        else Ok st);
  items ← py_items rec;
  Ok (foldl add_root st items).

(** Lines 89-116: [flattened_records] and [all_keys] after the loop. *)
Fixpoint flatten_from (flattened_records : list record)
    (all_keys : gset string) (records : list pyval)
    : result (list record * gset string) :=
  match records with
  | [] => Ok (flattened_records, all_keys)
  | rec :: rest =>
      '(flat_rec, all_keys') ← flatten_record rec all_keys;
      flatten_from (flattened_records ++ [flat_rec]) all_keys' rest
  end.

Definition flatten (records : list pyval) : result (list record * gset string) :=
  flatten_from [] ∅ records.

End flatten.

(** Lines 125-130: the header, from the order [keys] in which Python
    hands over the set.

      sorted_keys = list(all_keys)
      if "dateTime" in sorted_keys:
          sorted_keys.remove("dateTime")
          sorted_keys.insert(0, "dateTime")
      else:
          sorted_keys.sort()                                            *)
Definition sorted_keys (keys : list string) : list string :=
  if bool_decide ("dateTime" ∈ keys)
  then "dateTime" :: list_remove "dateTime" keys
  else py_sorted keys.

End Stats.

(* ===================================================================== *)
(** ** Vocabulary of the statements *)
(* ===================================================================== *)

(** The natural key a raw record carries: the key its truthy, hashable
    [mac] is stored under. *)
Definition natural_key (sess : pyval) : option pykey :=
  match sess with
  | PDict r =>
      let mac := default PNone (dict_get "mac" r) in
      if truthy mac then
        match to_key mac with Ok k => Some k | Raise _ => None end
      else None
  | _ => None
  end.

Definition content (sess : pyval) : record :=
  match sess with PDict r => r | _ => [] end.

(** The last record of a sequence that carries key [k]. *)
Fixpoint last_with_key (k : pykey) (raw : list pyval) : option record :=
  match raw with
  | [] => None
  | sess :: rest =>
      match last_with_key k rest with
      | Some r => Some r
      | None =>
          if decide (natural_key sess = Some k) then Some (content sess)
          else None
      end
  end.

(** The first record of a sequence that carries key [k]. *)
Fixpoint first_with_key (k : pykey) (raw : list pyval) : option record :=
  match raw with
  | [] => None
  | sess :: rest =>
      if decide (natural_key sess = Some k) then Some (content sess)
      else first_with_key k rest
  end.

(** A record the deduplication loop gets through: a mapping whose [mac]
    is falsy or hashable. *)
Definition digestible (sess : pyval) : bool :=
  match sess with
  | PDict r =>
      let mac := default PNone (dict_get "mac" r) in
      negb (truthy mac) ||
      match to_key mac with Ok _ => true | Raise _ => false end
  | _ => false
  end.

(** Truthiness of the values stored under a key. *)
Definition key_truthy (k : pykey) : bool :=
  match k with
  | KNone => false
  | KInt n => negb (n =? 0)
  | KStr s => match s with EmptyString => false | _ => true end
  end.

(** The record has no usable key: [mac] is missing or falsy. *)
Definition mac_falsy (r : record) : bool :=
  negb (truthy (default PNone (dict_get "mac" r))).

(** The [n] consecutive windows of width [width] that end at
    [current_to], most recent first. *)
Fixpoint windows_back (n : nat) (width current_to : Z) : list window :=
  match n with
  | O => []
  | S n' =>
      Window (current_to - width) current_to
      :: windows_back n' width (current_to - width)
  end.

(** How many whole windows fit between [total_start_time] and
    [current_to]. *)
Definition window_count (width total_start_time current_to : Z) : nat :=
  Z.to_nat ((current_to - total_start_time) / width).




(** The records a window contributes in the test client: what the
    guarded block appends, nothing when it fails. *)
Definition tc_contribution (resp : response) : list pyval :=
  try_except (TestClient.fetch_window resp []) [].

(** A failed query: the request raised, the status is an error status,
    or the body cannot be decoded. *)
Definition query_failed (resp : response) : bool :=
  match resp with
  | NetworkError => true
  | Reply status_code body =>
      negb ((200 <=? status_code) && (status_code <? 300))
      || match body with None => true | Some _ => false end
  end.

(** Names the merge writes without asking: the aliases and flattened
    attributes ([client_...]) and the two certificate columns. *)
Definition reserved (cert_col x : string) : bool :=
  String.prefix "client_" x || bool_decide (x = cert_col)
  || bool_decide (x = "cert_expiry").

(** The same for the worker of the test client, which also writes the
    two switch columns. *)
Definition worker_reserved (x : string) : bool :=
  reserved "cert_subject" x || bool_decide (x = "switch_name")
  || bool_decide (x = "switch_interface").

(** A failed lookup: the request raised, the status is not 200, or the
    body cannot be decoded. *)
Definition lookup_failed (resp : response) : bool :=
  match resp with
  | NetworkError => true
  | Reply status_code body =>
      negb (status_code =? 200)
      || match body with None => true | Some _ => false end
  end.

(** The record the worker has built when it reaches the identity
    lookup: the base record with the two switch columns. *)
Definition with_switch_columns (name port : pyval) (sess_data : record) : record :=
  let nad_id := default PNone (dict_get "nadID" sess_data) in
  let auth_req_id := default PNone (dict_get "authReqID" sess_data) in
  let rec1 := if truthy nad_id then dict_set "switch_name" name sess_data
              else sess_data in
  if truthy auth_req_id then dict_set "switch_interface" port rec1 else rec1.

(** The records a window contributes in the segment script: what the
    guarded block appends, nothing when the request raises. *)
Definition seg_contribution (resp : response) : list pyval :=
  match Segment.fetch_window resp [] with Ok l => l | Raise _ => [] end.

(** The records a window contributes in get-agni-sessions.py. *)
Definition gs_contribution (resp : response) : list pyval :=
  match Sessions.loop_body resp [] with Next l => l | _ => [] end.

(** The guarded request raises a [RequestException]: no connection, an
    error status for [raise_for_status], a body [resp.json()] cannot
    decode. *)
Definition request_raises (resp : response) : bool :=
  match resp with
  | NetworkError => true
  | Reply status_code body =>
      (400 <=? status_code) && (status_code <? 600)
      || match body with None => true | Some _ => false end
  end.

(** The loop body falls through to the next window. *)
Definition goes_on {A} (f : flow A) : bool :=
  match f with Next _ => true | _ => false end.

(** What a pass returns when its last loop body ended as [f]. *)
Definition ending (f : flow (list pyval)) : result (list pyval) :=
  match f with Next a | Break a => Ok a | Abort e => Raise e end.

(** A reply of config.segment.list that decodes, passes
    [raise_for_status] and lists [records] under [data.Records]. *)
Definition lists_segments (resp : response) (records : list pyval) : Prop :=
  ∃ status_code b data,
    resp = Reply status_code (Some (PDict b)) ∧
    request_raises resp = false ∧
    dict_get "data" b = Some (PDict data) ∧
    dict_get "Records" data = Some (PList records).

(** A listed entry that is a mapping and whose [name] is not the one
    looked for. *)
Definition other_segment (segment_name : string) (rec : pyval) : Prop :=
  ∃ r, rec = PDict r ∧ dict_get "name" r ≠ Some (PStr segment_name).

(** A reply of session.list that passes [raise_for_status] and decodes
    to a mapping whose [data] is a mapping holding the list [records]. *)
Definition lists_records (resp : response) (records : list pyval) : Prop :=
  ∃ status_code b data,
    resp = Reply status_code (Some (PDict b)) ∧
    request_raises resp = false ∧
    dict_get "data" b = Some (PDict data) ∧
    dict_get "records" data = Some (PList records).

(** The decoded body reports no error: it has no [error] entry, or a
    falsy one. *)
Definition no_error (resp : response) : Prop :=
  ∀ status_code b e,
    resp = Reply status_code (Some (PDict b)) →
    dict_get "error" b = Some e → truthy e = false.

(** What a reply of config.nad.get says about the switch.  It names the
    switch: status 200 and a body that is a mapping whose [data] is a
    mapping with a [name]. *)
Definition nad_named (resp : response) (name : pyval) : Prop :=
  ∃ b data,
    resp = Reply 200 (Some (PDict b)) ∧
    dict_get "data" b = Some (PDict data) ∧
    dict_get "name" data = Some name.

(** It carries no name: status 200 and a body that is a mapping with no
    [data], or with a [data] that is a mapping without a [name] -- an
    error body, for instance. *)
Definition nad_nameless (resp : response) : Prop :=
  ∃ b,
    resp = Reply 200 (Some (PDict b)) ∧
    (dict_get "data" b = None ∨
     ∃ data, dict_get "data" b = Some (PDict data) ∧ dict_get "name" data = None).

(** The fetch fails: no connection, a status other than 200, a body that
    cannot be decoded or is not a mapping, a [data] that is not a
    mapping. *)
Definition nad_failed (resp : response) : Prop :=
  lookup_failed resp = true ∨
  ∃ b,
    resp = Reply 200 (Some b) ∧
    (is_dict b = false ∨
     ∃ d v, b = PDict d ∧ dict_get "data" d = Some v ∧ is_dict v = false).

(** The identity data a reply of identity.client.get brings can be
    merged: the lookup fails or brings nothing, or the data is a mapping
    whose [attributes], if any, is falsy or a mapping. *)
Definition identity_mergeable (resp : response) : bool :=
  match resp with
  | Reply status_code (Some (PDict b)) =>
      negb (status_code =? 200) ||
      match default (PDict []) (dict_get "data" b) with
      | PDict cd =>
          match dict_get "attributes" cd with
          | Some a => negb (truthy a) || is_dict a
          | None => true
          end
      | v => negb (truthy v)
      end
  | _ => true
  end.

(* ===================================================================== *)
(** ** Sample data *)
(* ===================================================================== *)

(** A session record for device [mac] seen with address [ip]. *)
Definition session_of (mac ip : string) : record :=
  [("mac", PStr mac); ("ip", PStr ip)].

Definition records_body (records : list pyval) : option pyval :=
  Some (PDict [("data", PDict [("records", PList records)])]).

(** One hour of history in two windows: the device is seen at 10.0.0.2
    in the most recent half hour and at 10.0.0.1 in the half hour
    before. *)
Definition moved_device (w : window) : response :=
  if decide (w = Window (minutes 30) (minutes 60)) then
    Reply 200 (records_body [PDict (session_of "AA:BB:CC:DD:EE:FF" "10.0.0.2")])
  else if decide (w = Window 0 (minutes 30)) then
    Reply 200 (records_body [PDict (session_of "AA:BB:CC:DD:EE:FF" "10.0.0.1")])
  else Reply 200 (records_body []).

(** A service with nothing to report. *)
Definition quiet (w : window) : response := Reply 200 (records_body []).

(** The most recent half hour cannot be fetched, the half hour before
    holds one session. *)
Definition flaky (w : window) : response :=
  if decide (w = Window 0 (minutes 30)) then
    Reply 200 (records_body [PDict (session_of "AA:BB:CC:DD:EE:FF" "10.0.0.1")])
  else NetworkError.

(** The service answers 200 with a body whose [data] is null. *)
Definition null_data (w : window) : response :=
  Reply 200 (Some (PDict [("data", PNone)])).

(** The example of the specification: priority [A, B, C], data holding
    only B and D. *)
Definition b_and_d : list record :=
  [[("B", PInt 1)]; [("D", PInt 2); ("B", PInt 3)]].

(** A switch that answers with its name. *)
Definition switch_named (name : string) : response :=
  Reply 200 (Some (PDict [("data", PDict [("name", PStr name)])])).

(** A device whose session record already has a [switch_name]. *)
Definition named_session : record :=
  [("mac", PStr "AA:BB:CC:DD:EE:FF"); ("nadID", PStr "n1");
   ("switch_name", PStr "sw-old")].

(** A device on switch [n1] with an authentication request. *)
Definition wired_session : record :=
  [("mac", PStr "AA:BB:CC:DD:EE:FF"); ("ip", PStr "10.0.0.1");
   ("nadID", PStr "n1"); ("authReqID", PStr "req-123")].

(** An identity record with an address of its own. *)
Definition identity_reply : response :=
  Reply 200 (Some (PDict [("data",
    PDict [("ip", PStr "10.0.0.2"); ("owner", PStr "alice")])])).

(** The session record has both [ip] and [client_ip]. *)
Definition aliased_session : record :=
  [("mac", PStr "AA:BB:CC:DD:EE:FF"); ("ip", PStr "10.0.0.1");
   ("client_ip", PStr "10.0.0.9")].

Definition all_down : TestClient.lookups :=
  TestClient.Lookups NetworkError NetworkError NetworkError [].

(** The sessions of two devices, as the paginator hands them over. *)
Definition two_devices : list pyval :=
  [PDict wired_session; PDict (session_of "11:22:33:44:55:66" "10.0.0.5")].

(** A reply of the identity service with attributes and a certificate. *)
Definition rich_identity : record :=
  [("attributes", PDict [("vlan", PInt 30)]);
   ("certificate", PDict [("subject", PStr "CN=laptop")]);
   ("switch_name", PStr "from-identity")].

Definition rich_reply : response :=
  Reply 200 (Some (PDict [("data", PDict rich_identity)])).

Definition rich_env : TestClient.lookups :=
  TestClient.Lookups (switch_named "sw-1") NetworkError rich_reply [].

(** The answer to a lookup the service cannot serve: status 200 and an
    error body. *)
Definition error_reply : response :=
  Reply 200 (Some (PDict [("error", PStr "not found")])).

(** A reply of config.segment.list with the given entries. *)
Definition segment_list (records : list pyval) : response :=
  Reply 200 (Some (PDict [("data", PDict [("Records", PList records)])])).

Definition segment_named (name : string) (id : Z) : pyval :=
  PDict [("name", PStr name); ("id", PInt id)].

(** A statistics record whose [stats] object repeats a root-level name
    and holds a nested value. *)
Definition stats_record : record :=
  [("dateTime", PStr "2024-01-01T00:00:00Z");
   ("stats", PDict [("clients", PInt 7);
                    ("top", PList [PStr "a"]);
                    ("site", PStr "inner")]);
   ("site", PStr "outer");
   ("tags", PList [PStr "x"])].

(** A stand-in for [json.dumps] in the examples. *)
Definition sample_dumps (v : pyval) : string := "<json>".

(* ===================================================================== *)
(** ** Dictionaries: basic facts *)
(* ===================================================================== *)

Section odict_facts.
Context {K V : Type} `{EqDecision K}.
Implicit Types (d : list (K * V)) (k : K) (v : V).

Lemma dict_get_set d k k' v :
  dict_get k (dict_set k' v d) = if decide (k = k') then Some v else dict_get k d.
Proof.
  induction d as [|[k0 v0] d IH]; simpl.
  - destruct (decide (k = k')); reflexivity.
  - destruct (decide (k' = k0)) as [->|Hne]; simpl.
    + destruct (decide (k = k0)); reflexivity.
    + destruct (decide (k = k0)) as [->|Hne'].
      * destruct (decide (k0 = k')); congruence.
      * exact IH.
Qed.

Lemma dict_get_set_eq d k v : dict_get k (dict_set k v d) = Some v.
Proof. rewrite dict_get_set. destruct (decide (k = k)); congruence. Qed.

Lemma dict_get_set_ne d k k' v :
  k ≠ k' → dict_get k (dict_set k' v d) = dict_get k d.
Proof. intros. rewrite dict_get_set. destruct (decide (k = k')); congruence. Qed.

Lemma dict_mem_set d k k' v :
  dict_mem k d = true → dict_mem k (dict_set k' v d) = true.
Proof.
  unfold dict_mem. rewrite dict_get_set.
  destruct (decide (k = k')); [reflexivity | trivial].
Qed.

Lemma dict_get_Some_elem d k v : dict_get k d = Some v → (k, v) ∈ d.
Proof.
  induction d as [|[k0 v0] d IH]; simpl; [discriminate|].
  destruct (decide (k = k0)) as [->|_].
  - intros [= ->]. left.
  - intros. right. auto.
Qed.

Lemma dict_get_None d k : dict_get k d = None ↔ k ∉ d.*1.
Proof.
  induction d as [|[k0 v0] d IH]; simpl.
  - split; [intros _; apply not_elem_of_nil | reflexivity].
  - destruct (decide (k = k0)) as [->|Hne].
    + split; [discriminate | intros Hn; exfalso; apply Hn; left].
    + rewrite IH, not_elem_of_cons. tauto.
Qed.

Lemma dict_mem_true d k : dict_mem k d = true ↔ k ∈ d.*1.
Proof.
  unfold dict_mem. destruct (dict_get k d) eqn:E.
  - split; [intros _|reflexivity].
    apply dict_get_Some_elem in E.
    apply list_elem_of_fmap. exists (k, v). split; [reflexivity|assumption].
  - apply dict_get_None in E. split; [discriminate | contradiction].
Qed.

Lemma dict_keys_set d k v :
  dict_keys (dict_set k v d) =
  if dict_mem k d then dict_keys d else dict_keys d ++ [k].
Proof.
  unfold dict_keys, dict_mem. induction d as [|[k0 v0] d IH]; [reflexivity|].
  cbn [dict_set dict_get].
  destruct (decide (k = k0)) as [->|Hne]; [reflexivity|].
  rewrite !fmap_cons, IH. destruct (dict_get k d); reflexivity.
Qed.

Lemma dict_wf_set d k v : dict_wf d → dict_wf (dict_set k v d).
Proof.
  unfold dict_wf. intros Hwf. rewrite dict_keys_set.
  destruct (dict_mem k d) eqn:M; [assumption|].
  apply NoDup_app. split; [assumption|]. split.
  - intros x Hx Hx'. apply list_elem_of_singleton in Hx'. subst x.
    apply dict_mem_true in Hx. congruence.
  - apply NoDup_singleton.
Qed.
End odict_facts.

(* ===================================================================== *)
(** ** The Deduplicator *)
(* ===================================================================== *)

Section dedup.
Implicit Types (d : list (pykey * record)) (raw : list pyval) (k : pykey).

(** What one turn does to the dictionary. *)
Lemma dedup_step_digestible d sess :
  digestible sess = true →
  dedup_step d sess =
  Ok (match natural_key sess with
      | Some k => dict_set k (content sess) d
      | None => d
      end).
Proof.
  destruct sess as [| | | | |r]; simpl; try discriminate.
  destruct (truthy (default PNone (dict_get "mac" r))); simpl; [|reflexivity].
  destruct (to_key _); [reflexivity | discriminate].
Qed.

Lemma dedup_step_indigestible d sess :
  digestible sess = false → ∃ e, dedup_step d sess = Raise e.
Proof.
  destruct sess as [| | | | |r]; simpl; eauto.
  destruct (truthy (default PNone (dict_get "mac" r))); simpl; [|discriminate].
  destruct (to_key _); [discriminate | eauto].
Qed.

Lemma natural_key_digestible sess k :
  natural_key sess = Some k → digestible sess = true.
Proof.
  destruct sess as [| | | | |r]; simpl; try discriminate.
  destruct (truthy _); simpl; [|discriminate].
  destruct (to_key _); [reflexivity | discriminate].
Qed.

Lemma dedup_from_cons d sess raw :
  dedup_from d (sess :: raw) = d' ← dedup_step d sess; dedup_from d' raw.
Proof. reflexivity. Qed.

Lemma dedup_from_app d raw1 raw2 :
  dedup_from d (raw1 ++ raw2) = d' ← dedup_from d raw1; dedup_from d' raw2.
Proof.
  revert d. induction raw1 as [|sess raw1 IH]; intros d; simpl; [reflexivity|].
  destruct (dedup_step d sess) as [d'|e]; simpl; [apply IH | reflexivity].
Qed.

(** The loop succeeds exactly on sequences of digestible records. *)
Lemma dedup_from_total d raw :
  forallb digestible raw = true → ∃ d', dedup_from d raw = Ok d'.
Proof.
  revert d. induction raw as [|sess raw IH]; intros d; simpl; [eauto|].
  intros [Hs Hr]%andb_prop. rewrite dedup_step_digestible by assumption.
  simpl. apply IH, Hr.
Qed.

Lemma dedup_from_raises d raw :
  forallb digestible raw = false → ∃ e, dedup_from d raw = Raise e.
Proof.
  revert d. induction raw as [|sess raw IH]; intros d; simpl; [discriminate|].
  destruct (digestible sess) eqn:Hs; simpl.
  - intros Hr. rewrite dedup_step_digestible by assumption. simpl. apply IH, Hr.
  - intros _. destruct (dedup_step_indigestible d sess Hs) as [e ->]. simpl. eauto.
Qed.

(** The dictionary the loop builds: each key reads as the last record
    carrying it, or as before the loop when no record carries it. *)
Lemma dedup_from_lookup raw : ∀ d d' k,
  dedup_from d raw = Ok d' →
  dict_get k d' =
  match last_with_key k raw with Some r => Some r | None => dict_get k d end.
Proof.
  induction raw as [|sess raw IH]; intros d d' k; simpl.
  - intros [= ->]. reflexivity.
  - destruct (digestible sess) eqn:Hs.
    + rewrite dedup_step_digestible by assumption. simpl. intros Hd'.
      rewrite (IH _ _ k Hd').
      destruct (last_with_key k raw); [reflexivity|].
      destruct (natural_key sess) as [k0|] eqn:Hk.
      * rewrite dict_get_set.
        destruct (decide (k = k0)) as [->|Hne].
        -- destruct (decide (Some k0 = Some k0)); congruence.
        -- destruct (decide (Some k0 = Some k)); congruence.
      * destruct (decide (None = Some k)); congruence.
    + destruct (dedup_step_indigestible d sess Hs) as [e ->]. discriminate.
Qed.

Lemma last_with_key_app k raw1 raw2 :
  last_with_key k (raw1 ++ raw2) =
  match last_with_key k raw2 with
  | Some r => Some r
  | None => last_with_key k raw1
  end.
Proof.
  induction raw1 as [|sess raw1 IH]; simpl.
  - destruct (last_with_key k raw2); reflexivity.
  - rewrite IH. destruct (last_with_key k raw2); reflexivity.
Qed.

(** A record without a usable key leaves the dictionary alone. *)
Lemma dedup_step_falsy d r :
  mac_falsy r = true → dedup_step d (PDict r) = Ok d.
Proof. unfold mac_falsy. simpl. intros ->. reflexivity. Qed.

Lemma dedup_from_skip d raw1 raw2 r :
  mac_falsy r = true →
  dedup_from d (raw1 ++ PDict r :: raw2) = dedup_from d (raw1 ++ raw2).
Proof.
  intros Hr. rewrite !dedup_from_app.
  destruct (dedup_from d raw1) as [d'|e]; [|reflexivity].
  cbn [mbind result_bind]. rewrite dedup_from_cons.
  rewrite dedup_step_falsy by assumption. reflexivity.
Qed.
End dedup.

(* ===================================================================== *)
(** ** The Window Paginator *)
(* ===================================================================== *)

Section windows_facts.
Context (width : Z) (Hwidth : 0 < width).

Lemma windows_back_length n current_to :
  length (windows_back n width current_to) = n.
Proof.
  revert current_to. induction n as [|n IH]; intros; simpl; [reflexivity|].
  now rewrite IH.
Qed.

Lemma windows_back_elem n current_to w :
  w ∈ windows_back n width current_to ↔
  ∃ i : nat, (i < n)%nat ∧
    w = Window (current_to - (Z.of_nat i + 1) * width)
               (current_to - Z.of_nat i * width).
Proof.
  revert current_to. induction n as [|n IH]; intros current_to; simpl.
  - split; [intros H; inversion H | intros (i & Hi & _); lia].
  - rewrite elem_of_cons, IH. split.
    + intros [-> | (i & Hi & ->)].
      * exists O. split; [lia|]. f_equal; lia.
      * exists (S i). split; [lia|]. f_equal; lia.
    + intros (i & Hi & ->). destruct i as [|i].
      * left. f_equal; lia.
      * right. exists i. split; [lia|]. f_equal; lia.
Qed.




Context (total_start_time : Z).

Lemma window_count_stop current_to :
  current_to - width < total_start_time →
  window_count width total_start_time current_to = O.
Proof.
  intros Hlt. unfold window_count.
  assert ((current_to - total_start_time) / width < 1)
    by (apply Z.div_lt_upper_bound; lia).
  lia.
Qed.

Lemma window_count_step current_to :
  total_start_time ≤ current_to - width →
  window_count width total_start_time current_to =
  S (window_count width total_start_time (current_to - width)).
Proof.
  intros Hle. unfold window_count.
  replace (current_to - total_start_time)
    with (current_to - width - total_start_time + 1 * width) by lia.
  rewrite Z.div_add by lia.
  assert (0 ≤ (current_to - width - total_start_time) / width)
    by (apply Z.div_pos; lia).
  lia.
Qed.

(** The whole windows stop less than one width short of the start. *)
Lemma window_count_bounds current_to :
  total_start_time ≤ current_to →
  let n := Z.of_nat (window_count width total_start_time current_to) in
  total_start_time ≤ current_to - n * width < total_start_time + width.
Proof.
  intros Hle. unfold window_count. cbv zeta.
  assert (0 ≤ (current_to - total_start_time) / width)
    by (apply Z.div_pos; lia).
  rewrite Z2Nat.id by assumption.
  pose proof (Z.div_mod (current_to - total_start_time) width ltac:(lia)).
  pose proof (Z.mod_pos_bound (current_to - total_start_time) width Hwidth).
  nia.
Qed.

Lemma window_count_exact current_to :
  total_start_time ≤ current_to →
  let n := Z.of_nat (window_count width total_start_time current_to) in
  current_to - n * width = total_start_time ↔
  (current_to - total_start_time) mod width = 0.
Proof.
  intros Hle. unfold window_count. cbv zeta.
  assert (0 ≤ (current_to - total_start_time) / width)
    by (apply Z.div_pos; lia).
  rewrite Z2Nat.id by assumption.
  pose proof (Z.div_mod (current_to - total_start_time) width ltac:(lia)).
  nia.
Qed.
End windows_facts.

Section loop_facts.
Context (body : response → list pyval → flow (list pyval)).
Context (upstream : window → response).
Context (width : Z) (Hwidth : 0 < width) (total_start_time : Z).

Local Abbreviation count := (window_count width total_start_time).
Local Abbreviation loop := (window_loop body upstream width total_start_time).


(** A body that only ever appends a contribution: the pass queries
    every window and returns the contributions in the order of the
    queries. *)
Lemma window_loop_appends (contribution : response → list pyval) fuel :
  (∀ resp acc, body resp acc = Next (acc ++ contribution resp)) →
  ∀ all_sessions current_to,
  (count current_to < fuel)%nat →
  loop fuel all_sessions current_to (current_to - width) =
  Some (Run (Ok (all_sessions ++
                 concat ((contribution ∘ upstream) <$>
                         windows_back (count current_to) width current_to)))
            (windows_back (count current_to) width current_to)).
Proof.
  intros Hbody.
  induction fuel as [|fuel IH]; intros acc current_to Hfuel; [lia|].
  simpl. destruct (total_start_time <=? current_to - width) eqn:Hcond.
  - apply Z.leb_le in Hcond.
    rewrite (window_count_step width Hwidth total_start_time current_to Hcond)
      in Hfuel |- *.
    rewrite Hbody, IH by lia. simpl. rewrite <- app_assoc. reflexivity.
  - apply Z.leb_gt in Hcond.
    rewrite (window_count_stop width Hwidth total_start_time current_to Hcond).
    simpl. rewrite app_nil_r. reflexivity.
Qed.

End loop_facts.

Section paginator_facts.

Lemma extend_nil v : ∀ acc,
  extend acc v = (items ← extend [] v; Ok (acc ++ items)).
Proof. intros acc. unfold extend. destruct (py_iter v); reflexivity. Qed.

Lemma tc_fetch_window_acc resp acc :
  TestClient.fetch_window resp acc =
  (items ← TestClient.fetch_window resp []; Ok (acc ++ items)).
Proof.
  destruct resp as [|status body]; simpl; [reflexivity|].
  destruct (status =? 200); simpl; [|now rewrite app_nil_r].
  destruct body as [b|]; simpl; [|reflexivity].
  destruct (py_get b "data" (PDict [])) as [data|]; simpl; [|reflexivity].
  destruct (py_get data "records" (PList [])) as [recs|]; simpl; [|reflexivity].
  destruct (truthy recs); simpl; [|now rewrite app_nil_r].
  apply extend_nil.
Qed.

Lemma tc_loop_body resp acc :
  TestClient.loop_body resp acc = Next (acc ++ tc_contribution resp).
Proof.
  unfold TestClient.loop_body, tc_contribution. rewrite tc_fetch_window_acc.
  destruct (TestClient.fetch_window resp []); simpl; [reflexivity|].
  now rewrite app_nil_r.
Qed.

Lemma seg_fetch_window_acc resp acc :
  Segment.fetch_window resp acc =
  (items ← Segment.fetch_window resp []; Ok (acc ++ items)).
Proof.
  destruct resp as [|status body]; simpl; [reflexivity|].
  destruct (raise_for_status status); simpl; [|reflexivity].
  destruct body as [b|]; simpl; [|reflexivity].
  destruct (py_get b "data" (PDict [])) as [data|]; simpl; [|reflexivity].
  destruct (py_get data "records" (PList [])) as [recs|]; simpl; [|reflexivity].
  destruct (truthy recs); simpl; [|now rewrite app_nil_r].
  apply extend_nil.
Qed.

Lemma seg_loop_body_no_break resp acc acc' :
  Segment.loop_body resp acc ≠ Break acc'.
Proof.
  unfold Segment.loop_body.
  destruct (Segment.fetch_window resp acc) as [?|[]]; discriminate.
Qed.

Lemma tc_failed_contribution resp :
  query_failed resp = true → tc_contribution resp = [].
Proof.
  destruct resp as [|status body]; [reflexivity|].
  unfold tc_contribution. simpl.
  destruct (status =? 200) eqn:E; [|reflexivity].
  apply Z.eqb_eq in E. subst status. simpl.
  destruct body; [discriminate | reflexivity].
Qed.

(** The test client's paginator: every whole window is queried once,
    most recent first, and the result is the concatenation of the
    contributions in that order. *)
Lemma tc_get_sessions_time_sliced upstream fuel now total_start_time :
  let n := window_count (minutes 30) total_start_time now in
  (n < fuel)%nat →
  TestClient.get_sessions_time_sliced upstream fuel now total_start_time =
  Some (Run (Ok (concat ((tc_contribution ∘ upstream) <$>
                         windows_back n (minutes 30) now)))
            (windows_back n (minutes 30) now)).
Proof.
  intros n Hfuel. unfold TestClient.get_sessions_time_sliced.
  rewrite (window_loop_appends TestClient.loop_body upstream (minutes 30)
             ltac:(reflexivity) total_start_time tc_contribution fuel
             tc_loop_body [] now Hfuel).
  reflexivity.
Qed.
End paginator_facts.

(* ===================================================================== *)
(** ** Deduplication: results *)
(* ===================================================================== *)

Lemma last_with_key_concat k (cs1 cs2 : list (list pyval)) c r :
  last_with_key k c = Some r →
  (∀ c', c' ∈ cs2 → last_with_key k c' = None) →
  last_with_key k (concat (cs1 ++ c :: cs2)) = Some r.
Proof.
  intros Hc Hcs2. rewrite concat_app, concat_cons, !last_with_key_app.
  assert (last_with_key k (concat cs2) = None) as ->.
  { induction cs2 as [|c2 cs2 IH]; [reflexivity|].
    rewrite concat_cons, last_with_key_app, IH.
    - apply Hcs2. left.
    - intros c' Hc'. apply Hcs2. now right. }
  now rewrite Hc.
Qed.

Lemma windows_back_upper width n current_to w :
  0 < width → w ∈ windows_back n width current_to → toTimestamp w ≤ current_to.
Proof.
  intros Hw (i & _ & ->)%windows_back_elem. simpl. nia.
Qed.

(** In the descent, a window queried earlier lies later in time. *)
Lemma windows_back_order width n : ∀ current_to newer w older,
  0 < width →
  windows_back n width current_to = newer ++ w :: older →
  ∀ w', w' ∈ newer → toTimestamp w ≤ fromTimestamp w'.
Proof.
  induction n as [|n IH]; intros current_to newer w older Hw Heq w' Hin.
  - destruct newer; discriminate.
  - destruct newer as [|w0 newer]; [inversion Hin|].
    simpl in Heq. injection Heq as <- Hrest.
    apply elem_of_cons in Hin as [-> | Hin].
    + simpl. apply (windows_back_upper width n); [assumption|].
      rewrite Hrest. apply elem_of_app. right. left.
    + eapply IH; eassumption.
Qed.

(** C1, at the input where it fails.  A device is seen at 10.0.0.2 in
    the most recent window and at 10.0.0.1 in the window before.  The
    paginator returns the recent record first; the first-seen record for
    the key is therefore the most recent observation, yet the dictionary
    ends up holding the older one: the second occurrence has overwritten
    the first. *)
Lemma dedup_overwrites_first_seen :
  let k := KStr "AA:BB:CC:DD:EE:FF" in
  let recent := session_of "AA:BB:CC:DD:EE:FF" "10.0.0.2" in
  let old := session_of "AA:BB:CC:DD:EE:FF" "10.0.0.1" in
  TestClient.get_sessions_time_sliced moved_device 3 (minutes 60) 0 =
    Some (Run (Ok [PDict recent; PDict old])
              [Window (minutes 30) (minutes 60); Window 0 (minutes 30)]) ∧
  first_with_key k [PDict recent; PDict old] = Some recent ∧
  unique_devices [PDict recent] = Ok [(k, recent)] ∧
  unique_devices [PDict recent; PDict old] = Ok [(k, old)] ∧
  recent ≠ old.
Proof.
  repeat split; try (vm_compute; reflexivity). discriminate.
Qed.

(** C2.  For every sequence of raw records the dictionary built by the
    deduplication loop maps each key to the last record of the sequence
    that carries it (the loop raises only on a record that is no mapping
    or whose [mac] is unhashable).  Put behind the paginator, which
    queries the windows from the most recent to the oldest and appends
    their records in that order, the representative of a key is the one
    found in the oldest window that has a record for it. *)
Theorem dedup_keeps_last_occurrence
    (raw : list pyval) (upstream : window → response) (fuel : nat)
    (now total_start_time : Z) :
  (window_count (minutes 30) total_start_time now < fuel)%nat →
  match unique_devices raw with
  | Ok d => ∀ k, dict_get k d = last_with_key k raw
  | Raise _ => forallb digestible raw = false
  end ∧
  ∃ fetched ws,
    TestClient.get_sessions_time_sliced upstream fuel now total_start_time =
      Some (Run (Ok fetched) ws) ∧
    ∀ d, unique_devices fetched = Ok d →
    ∀ newer w older k r,
      ws = newer ++ w :: older →
      last_with_key k (tc_contribution (upstream w)) = Some r →
      (∀ w', w' ∈ older → last_with_key k (tc_contribution (upstream w')) = None) →
      dict_get k d = Some r ∧
      ∀ w', w' ∈ newer → toTimestamp w ≤ fromTimestamp w'.
Proof.
  intros Hfuel. split.
  - destruct (unique_devices raw) as [d|e] eqn:Hd.
    + intros k. unfold unique_devices in Hd.
      rewrite (dedup_from_lookup raw [] d k Hd).
      destruct (last_with_key k raw); reflexivity.
    + destruct (forallb digestible raw) eqn:Hall; [|reflexivity].
      destruct (dedup_from_total [] raw Hall) as [d' Hd'].
      unfold unique_devices in Hd. congruence.
  - eexists _, _. split.
    + apply tc_get_sessions_time_sliced. exact Hfuel.
    + intros d Hd newer w older k r Hws Hw Holder. split.
      * unfold unique_devices in Hd.
        rewrite (dedup_from_lookup _ [] d k Hd).
        rewrite Hws, fmap_app, fmap_cons.
        rewrite (last_with_key_concat k _ _ _ r); [reflexivity | exact Hw |].
        intros c' (w' & -> & Hw')%list_elem_of_fmap. apply Holder, Hw'.
      * eapply windows_back_order; [|exact Hws]. reflexivity.
Qed.

Lemma dedup_keeps_last_occurrence_witness :
  (window_count (minutes 30) 0 (minutes 60) < 3)%nat ∧
  ∃ d, unique_devices
         [PDict (session_of "AA:BB:CC:DD:EE:FF" "10.0.0.2");
          PDict (session_of "AA:BB:CC:DD:EE:FF" "10.0.0.1")] = Ok d ∧
       dict_get (KStr "AA:BB:CC:DD:EE:FF") d =
         Some (session_of "AA:BB:CC:DD:EE:FF" "10.0.0.1").
Proof.
  assert (window_count (minutes 30) 0 (minutes 60) < 3)%nat as Hfuel
    by (vm_compute; lia).
  split; [exact Hfuel|].
  destruct (dedup_keeps_last_occurrence
              [PDict (session_of "AA:BB:CC:DD:EE:FF" "10.0.0.2");
               PDict (session_of "AA:BB:CC:DD:EE:FF" "10.0.0.1")]
              moved_device 3 (minutes 60) 0 Hfuel) as [Hlast _].
  destruct (unique_devices _) as [d|e] eqn:Hd in Hlast |- *.
  - exists d. split; [reflexivity|]. rewrite Hlast. reflexivity.
  - discriminate.
Defined.

(** C9.  A record whose [mac] is present but falsy (empty string, null,
    zero, false, empty list or mapping) is left out of the dictionary
    exactly as a record without [mac] is: the loop gives the same result
    as if either record were not in the sequence at all; a record whose
    [mac] is truthy is stored. *)
Theorem falsy_mac_is_excluded
    (raw1 raw2 : list pyval) (r r' r'' : record) (v v'' : pyval) (k : pykey)
    (d : list (pykey * record)) :
  dict_get "mac" r = Some v → truthy v = false →
  dict_get "mac" r' = None →
  dict_get "mac" r'' = Some v'' → truthy v'' = true → to_key v'' = Ok k →
  unique_devices (raw1 ++ PDict r :: raw2) = unique_devices (raw1 ++ raw2) ∧
  unique_devices (raw1 ++ PDict r' :: raw2) = unique_devices (raw1 ++ raw2) ∧
  dedup_step d (PDict r) = Ok d ∧
  dedup_step d (PDict r') = Ok d ∧
  dedup_step d (PDict r'') = Ok (dict_set k r'' d).
Proof.
  intros Hr Hv Hr' Hr'' Hv'' Hk.
  assert (mac_falsy r = true) as Hf by (unfold mac_falsy; rewrite Hr; simpl; now rewrite Hv).
  assert (mac_falsy r' = true) as Hf' by (unfold mac_falsy; now rewrite Hr').
  repeat split.
  - apply dedup_from_skip, Hf.
  - apply dedup_from_skip, Hf'.
  - apply dedup_step_falsy, Hf.
  - apply dedup_step_falsy, Hf'.
  - simpl. rewrite Hr''. simpl. rewrite Hv''. simpl. rewrite Hk. reflexivity.
Qed.

Lemma falsy_mac_is_excluded_witness :
  unique_devices [PDict (session_of "AA" "10.0.0.2");
                  PDict [("mac", PStr ""); ("ip", PStr "10.0.0.7")];
                  PDict (session_of "BB" "10.0.0.3")] =
  unique_devices [PDict (session_of "AA" "10.0.0.2");
                  PDict (session_of "BB" "10.0.0.3")] ∧
  unique_devices [PDict (session_of "AA" "10.0.0.2");
                  PDict [("ip", PStr "10.0.0.7")];
                  PDict (session_of "BB" "10.0.0.3")] =
  unique_devices [PDict (session_of "AA" "10.0.0.2");
                  PDict (session_of "BB" "10.0.0.3")].
Proof.
  destruct (falsy_mac_is_excluded
              [PDict (session_of "AA" "10.0.0.2")]
              [PDict (session_of "BB" "10.0.0.3")]
              [("mac", PStr ""); ("ip", PStr "10.0.0.7")]
              [("ip", PStr "10.0.0.7")]
              (session_of "CC" "10.0.0.4")
              (PStr "") (PStr "CC") (KStr "CC") [])
    as (H1 & H2 & _); try reflexivity.
  split; [exact H1 | exact H2].
Defined.

(* ===================================================================== *)
(** ** Pagination: results *)
(* ===================================================================== *)



(** The guard of the segment script lets the three kinds of failed query
    pass: the loop body falls through with the list unchanged. *)
Lemma seg_failed_query_skipped resp all_sessions :
  (resp = NetworkError ∨
   (∃ status_code body, resp = Reply status_code body ∧ 400 ≤ status_code < 600) ∨
   (∃ status_code, resp = Reply status_code None)) →
  Segment.loop_body resp all_sessions = Next all_sessions.
Proof.
  intros [-> | [(status & body & -> & Hs) | (status & ->)]].
  - reflexivity.
  - unfold Segment.loop_body, Segment.fetch_window, raise_for_status.
    destruct (400 <=? status) eqn:E1; [|lia].
    destruct (status <? 600) eqn:E2; [|lia]. reflexivity.
  - unfold Segment.loop_body, Segment.fetch_window.
    destruct (raise_for_status status) as [[]|[]] eqn:E; try reflexivity;
      unfold raise_for_status in E;
      destruct ((400 <=? status) && (status <? 600)); discriminate.
Qed.

(** X5.  The test client's pass goes through every whole window
    whatever the service answers, never raises, and returns the
    contributions of the windows most recent first; a failed query (no
    connection, a status that is not 2xx, an undecodable body) adds
    nothing. *)
Lemma tc_failed_query_skipped upstream fuel now total_start_time :
  let ws := windows_back (window_count (minutes 30) total_start_time now)
              (minutes 30) now in
  (length ws < fuel)%nat →
  TestClient.get_sessions_time_sliced upstream fuel now total_start_time =
    Some (Run (Ok (concat ((tc_contribution ∘ upstream) <$> ws))) ws) ∧
  ∀ w, query_failed (upstream w) = true → tc_contribution (upstream w) = [].
Proof.
  intros ws Hfuel. split.
  - apply tc_get_sessions_time_sliced.
    unfold ws in Hfuel. now rewrite windows_back_length in Hfuel.
  - intros w. apply tc_failed_contribution.
Qed.

(** C5, at the input where it fails.  The lookback holds two windows and
    the query for the first one fails with a network error.  The loop of
    get-agni-sessions.py breaks: the second window is never queried and
    its session is lost, where the loops of the two other scripts go on
    to the second window and collect it. *)
Lemma sessions_pass_breaks_on_failed_window :
  windows_back (window_count (minutes 30) 0 (minutes 60)) (minutes 30) (minutes 60) =
    [Window (minutes 30) (minutes 60); Window 0 (minutes 30)] ∧
  query_failed (flaky (Window (minutes 30) (minutes 60))) = true ∧
  Sessions.window_pass 30 flaky 3 (minutes 60) 0 =
    Some (Run (Ok []) [Window (minutes 30) (minutes 60)]) ∧
  Segment.get_sessions_time_sliced 30 flaky 3 (minutes 60) 0 =
    Some (Run (Ok [PDict (session_of "AA:BB:CC:DD:EE:FF" "10.0.0.1")])
              [Window (minutes 30) (minutes 60); Window 0 (minutes 30)]) ∧
  TestClient.get_sessions_time_sliced flaky 3 (minutes 60) 0 =
    Some (Run (Ok [PDict (session_of "AA:BB:CC:DD:EE:FF" "10.0.0.1")])
              [Window (minutes 30) (minutes 60); Window 0 (minutes 30)]).
Proof. repeat split; vm_compute; reflexivity. Qed.

(** In the segment script a body that decodes but has the wrong shape
    raises outside the guard: the pass ends with the exception. *)
Lemma seg_pass_aborts_on_null_data :
  Segment.get_sessions_time_sliced 30 null_data 3 (minutes 60) 0 =
    Some (Run (Raise AttributeError) [Window (minutes 30) (minutes 60)]).
Proof. vm_compute; reflexivity. Qed.

(* ===================================================================== *)
(** ** The Export Projector *)
(* ===================================================================== *)

Section export_facts.
Implicit Types (l keys priority : list string) (c col : string).

Lemma sorted_keys_cons c priority keys :
  sorted_keys (c :: priority) keys = promote (sorted_keys priority keys) c.
Proof.
  unfold sorted_keys. rewrite reverse_cons, foldl_app. reflexivity.
Qed.

Lemma list_remove_absent c l : c ∉ l → list_remove c l = l.
Proof.
  induction l as [|x l IH]; simpl; [reflexivity|].
  intros [Hne Hl]%not_elem_of_cons.
  destruct (decide (c = x)); [contradiction|]. now rewrite IH.
Qed.

Lemma list_remove_NoDup c l :
  NoDup l → list_remove c l = filter (λ x, x ≠ c) l.
Proof.
  induction l as [|x l IH]; simpl; [reflexivity|].
  intros [Hx Hl]%NoDup_cons.
  destruct (decide (c = x)) as [->|Hne].
  - rewrite filter_cons_False by (intros H; now apply H).
    rewrite <- (list_remove_absent x l Hx) at 1.
    rewrite IH by assumption. reflexivity.
  - rewrite filter_cons_True by congruence. now rewrite IH.
Qed.

Lemma list_remove_app_r c l1 l2 :
  c ∉ l1 → list_remove c (l1 ++ l2) = l1 ++ list_remove c l2.
Proof.
  induction l1 as [|x l1 IH]; simpl; [reflexivity|].
  intros [Hne Hl]%not_elem_of_cons.
  destruct (decide (c = x)); [contradiction|]. now rewrite IH.
Qed.

Lemma filter_ext_in (P1 P2 : string → Prop)
    `{!∀ x, Decision (P1 x), !∀ x, Decision (P2 x)} l :
  (∀ x, x ∈ l → (P1 x ↔ P2 x)) → filter P1 l = filter P2 l.
Proof.
  induction l as [|a l IH]; intros Hiff; [reflexivity|].
  assert (filter P1 l = filter P2 l) as Hl
    by (apply IH; intros x Hx; apply Hiff; now right).
  destruct (decide (P1 a)) as [Ha|Ha].
  - rewrite !filter_cons_True; [now rewrite Hl | | assumption].
    apply Hiff; [left | assumption].
  - rewrite !filter_cons_False; [assumption | | assumption].
    intros Ha2. apply Ha, Hiff; [left | assumption].
Qed.

(** The loop moves the priority columns that occur to the front, in the
    order of the priority list, and leaves the others in the order they
    had. *)
Lemma sorted_keys_spec priority keys :
  NoDup priority → NoDup keys →
  sorted_keys priority keys =
  filter (λ c, c ∈ keys) priority ++ filter (λ c, c ∉ priority) keys.
Proof.
  intros Hp Hk. induction priority as [|c priority IH].
  - unfold sorted_keys. simpl. clear Hk.
    induction keys as [|x keys IHk]; [reflexivity|].
    rewrite filter_cons_True by apply not_elem_of_nil. now rewrite <- IHk.
  - apply NoDup_cons in Hp as [Hc Hp].
    rewrite sorted_keys_cons, IH by assumption. unfold promote.
    assert (filter (λ x, x ∉ c :: priority) keys =
            filter (λ x, x ≠ c) (filter (λ x, x ∉ priority) keys)) as Hff.
    { rewrite list_filter_filter. apply list_filter_iff.
      intros x. rewrite not_elem_of_cons. tauto. }
    destruct (decide (c ∈ keys)) as [Hin|Hnin].
    + rewrite bool_decide_eq_true_2.
      2:{ apply elem_of_app. right. apply list_elem_of_filter. auto. }
      rewrite filter_cons_True by assumption.
      rewrite list_remove_app_r.
      2:{ intros [_ Hcp]%list_elem_of_filter. contradiction. }
      rewrite list_remove_NoDup by (apply NoDup_filter; assumption).
      rewrite Hff. reflexivity.
    + rewrite bool_decide_eq_false_2.
      2:{ intros [[Hck _]%list_elem_of_filter | [_ Hck]%list_elem_of_filter]%elem_of_app;
          contradiction. }
      rewrite filter_cons_False by assumption. f_equal.
      apply filter_ext_in. intros x Hx. rewrite not_elem_of_cons.
      split; [|tauto]. intros Hxp. split; [|exact Hxp].
      intros ->. contradiction.
Qed.

Lemma elem_of_all_keys (final_records : list record) c :
  c ∈ all_keys final_records ↔ ∃ r, r ∈ final_records ∧ c ∈ dict_keys r.
Proof.
  unfold all_keys. rewrite elem_of_union_list. split.
  - intros (s & (r & -> & Hr)%list_elem_of_fmap & Hc).
    exists r. split; [assumption|]. now apply elem_of_list_to_set in Hc.
  - intros (r & Hr & Hc). exists (list_to_set (dict_keys r)). split.
    + apply list_elem_of_fmap. exists r. auto.
    + now apply elem_of_list_to_set.
Qed.
End export_facts.

Lemma enumerates_NoDup keys (s : gset string) : enumerates keys s → NoDup keys.
Proof. unfold enumerates. intros ->. apply NoDup_elements. Qed.

Lemma enumerates_elem keys (s : gset string) c :
  enumerates keys s → c ∈ keys ↔ c ∈ s.
Proof. unfold enumerates. intros ->. apply elem_of_elements. Qed.

(** The column sequence for an enumeration of the union of the keys. *)
Lemma sorted_keys_enumerated priority (final_records : list record) keys :
  NoDup priority →
  enumerates keys (all_keys final_records) →
  sorted_keys priority keys =
    filter (λ c, c ∈ all_keys final_records) priority ++
    filter (λ c, c ∉ priority) keys.
Proof.
  intros Hp Henum.
  rewrite sorted_keys_spec by (eauto using enumerates_NoDup). f_equal.
  apply list_filter_iff. intros c. now apply enumerates_elem.
Qed.

(** The loop permutes the list it is given. *)
Lemma sorted_keys_permutation priority keys :
  NoDup priority → NoDup keys → sorted_keys priority keys ≡ₚ keys.
Proof.
  intros Hp Hk. rewrite sorted_keys_spec by assumption.
  apply NoDup_Permutation; [|assumption|].
  - apply NoDup_app. split; [apply NoDup_filter, Hp|]. split.
    + intros x [_ Hx]%list_elem_of_filter [Hx' _]%list_elem_of_filter.
      contradiction.
    + apply NoDup_filter, Hk.
  - intros x. rewrite elem_of_app, !list_elem_of_filter.
    destruct (decide (x ∈ priority)); tauto.
Qed.

(** C8.  For a duplicate-free priority list, and whatever order Python
    enumerates the set of keys in, the column sequence is: the priority
    columns that occur in the union of the record keys, in the order of
    the priority list, followed by the remaining keys of the union in
    the order of the enumeration; priority columns absent from the data
    are skipped, and the sequence holds each key of the union once and
    nothing else. *)
Theorem export_columns_priority_first
    (priority : list string) (final_records : list record) (keys : list string) :
  NoDup priority →
  enumerates keys (all_keys final_records) →
  sorted_keys priority keys =
    filter (λ c, c ∈ all_keys final_records) priority ++
    filter (λ c, c ∉ priority) keys ∧
  sorted_keys priority keys ≡ₚ elements (all_keys final_records) ∧
  (∀ c, c ∈ sorted_keys priority keys ↔
        ∃ r, r ∈ final_records ∧ c ∈ dict_keys r).
Proof.
  intros Hp Henum.
  pose proof (enumerates_NoDup _ _ Henum) as Hk.
  pose proof (sorted_keys_permutation priority keys Hp Hk) as Hperm.
  split; [|split].
  - now apply sorted_keys_enumerated.
  - rewrite Hperm. exact Henum.
  - intros c. rewrite Hperm, (enumerates_elem _ _ c Henum).
    apply elem_of_all_keys.
Qed.

Lemma all_keys_b_and_d c : c ∈ all_keys b_and_d ↔ c = "B" ∨ c = "D".
Proof.
  rewrite elem_of_all_keys. unfold b_and_d. split.
  - intros (r & Hr & Hc).
    apply elem_of_cons in Hr as [-> | Hr];
      [|apply list_elem_of_singleton in Hr as ->]; unfold dict_keys in Hc;
      simpl in Hc.
    + apply list_elem_of_singleton in Hc. now left.
    + apply elem_of_cons in Hc as [-> | Hc]; [now right|].
      apply list_elem_of_singleton in Hc. now left.
  - intros [-> | ->]; exists [("D", PInt 2); ("B", PInt 3)];
      (split; [right; left | unfold dict_keys; simpl]).
    + right; left.
    + left.
Qed.

Lemma enumerates_b_and_d : enumerates ["D"; "B"] (all_keys b_and_d).
Proof.
  apply NoDup_Permutation.
  - compute_done.
  - apply NoDup_elements.
  - intros x. rewrite elem_of_elements, all_keys_b_and_d.
    rewrite elem_of_cons, list_elem_of_singleton. tauto.
Qed.

Lemma export_columns_priority_first_witness :
  sorted_keys ["A"; "B"; "C"] ["D"; "B"] = ["B"; "D"] ∧
  (∀ c, c ∈ sorted_keys ["A"; "B"; "C"] ["D"; "B"] ↔
        ∃ r, r ∈ b_and_d ∧ c ∈ dict_keys r).
Proof.
  assert (NoDup ["A"; "B"; "C"]) as Hp by compute_done.
  destruct (export_columns_priority_first ["A"; "B"; "C"] b_and_d ["D"; "B"]
              Hp enumerates_b_and_d) as (_ & _ & H3).
  split; [reflexivity | exact H3].
Defined.

(** The same example for every order of enumeration. *)
Lemma export_example_any_order keys :
  enumerates keys (all_keys b_and_d) →
  sorted_keys ["A"; "B"; "C"] keys = ["B"; "D"].
Proof.
  intros He.
  assert (NoDup ["A"; "B"; "C"]) as Hp by compute_done.
  rewrite (sorted_keys_enumerated _ b_and_d _ Hp He).
  assert (filter (λ c, c ∈ all_keys b_and_d) ["A"; "B"; "C"] = ["B"]) as ->.
  { rewrite filter_cons_False by (rewrite all_keys_b_and_d; intros [|]; discriminate).
    rewrite filter_cons_True by (rewrite all_keys_b_and_d; auto).
    rewrite filter_cons_False by (rewrite all_keys_b_and_d; intros [|]; discriminate).
    reflexivity. }
  assert (filter (λ c, c ∉ ["A"; "B"; "C"]) keys ≡ₚ ["D"]) as Hd.
  { apply NoDup_Permutation.
    - apply NoDup_filter. eapply enumerates_NoDup, He.
    - apply NoDup_singleton.
    - intros x. rewrite list_elem_of_filter, list_elem_of_singleton.
      rewrite (enumerates_elem _ _ x He), all_keys_b_and_d.
      split.
      + intros [Hn [->| ->]]; [|reflexivity].
        exfalso. apply Hn. right; left.
      + intros ->. split; [|auto].
        intros Hin. repeat (apply elem_of_cons in Hin as [Hin|Hin];
                            [discriminate|]).
        inversion Hin. }
  apply Permutation_singleton_r in Hd. now rewrite Hd.
Qed.

(** Both configured priority lists are duplicate-free. *)
Lemma priority_lists_NoDup :
  NoDup Segment.priority_cols ∧ NoDup TestClient.priority.
Proof. split; compute_done. Qed.

(* ===================================================================== *)
(** ** The Lookup Cache *)
(* ===================================================================== *)

Section cache_facts.
Import TestClient.
Implicit Types (cache : gmap pykey pyval) (k : pykey) (nad_id : pyval).

(** Truthiness only depends on the key a value is stored under. *)
Lemma to_key_key_truthy a k : to_key a = Ok k → truthy a = key_truthy k.
Proof.
  destruct a as [|b|n|s|l|d]; simpl; intros Ha; try discriminate;
    injection Ha as <-; try reflexivity.
  destruct b; reflexivity.
Qed.

Lemma to_key_truthy a b k :
  to_key a = Ok k → to_key b = Ok k → truthy a = truthy b.
Proof.
  intros Ha Hb.
  now rewrite (to_key_key_truthy a k Ha), (to_key_key_truthy b k Hb).
Qed.

Lemma get_nad_name_hit resp ws nad_id cache k name :
  truthy nad_id = true → to_key nad_id = Ok k → cache !! k = Some name →
  get_nad_name resp ws nad_id cache = Ok (NadCall name cache false).
Proof.
  intros Ht Hk Hc. unfold get_nad_name. rewrite Ht, Hk. simpl.
  now rewrite Hc.
Qed.

Lemma get_nad_name_miss resp ws nad_id cache k :
  truthy nad_id = true → to_key nad_id = Ok k → cache !! k = None →
  get_nad_name resp ws nad_id cache =
  Ok (match nad_request resp with
      | Ok (Some name) => NadCall name (<[k:=name]> (stores ws cache)) true
      | _ => NadCall (PStr "Unknown") cache true
      end).
Proof.
  intros Ht Hk Hc. unfold get_nad_name. rewrite Ht, Hk. simpl.
  rewrite Hc. destruct (nad_request resp) as [[name|]|e]; reflexivity.
Qed.

(** The request, by the kind of reply. *)
Lemma nad_named_request resp name :
  nad_named resp name → nad_request resp = Ok (Some name).
Proof. intros (b & data & -> & Hd & Hn). simpl. rewrite Hd. simpl. now rewrite Hn. Qed.

Lemma nad_nameless_request resp :
  nad_nameless resp → nad_request resp = Ok (Some (PStr "Unknown")).
Proof.
  intros (b & -> & [Hd | (data & Hd & Hn)]); simpl; rewrite Hd; simpl;
    [reflexivity | now rewrite Hn].
Qed.

Lemma nad_failed_request resp :
  nad_failed resp → nad_request resp = Ok None ∨ ∃ e, nad_request resp = Raise e.
Proof.
  intros [Hf | (b & -> & [Hb | (d & v & -> & Hd & Hv)])].
  - destruct resp as [|status body]; simpl in *; [eauto|].
    destruct (status =? 200); simpl in *; [|eauto].
    destruct body; [discriminate | eauto].
  - right. destruct b; try discriminate; simpl; eauto.
  - right. simpl. rewrite Hd. simpl. destruct v; try discriminate; simpl; eauto.
Qed.

(** Every reply is of one of the three kinds. *)
Lemma nad_reply_cases resp :
  (∃ name, nad_named resp name) ∨ nad_nameless resp ∨ nad_failed resp.
Proof.
  destruct resp as [|status body]; [right; right; now left|].
  destruct (decide (status = 200)) as [->|Hs].
  2: { right; right; left. simpl. apply Z.eqb_neq in Hs. now rewrite Hs. }
  destruct body as [b|]; [|right; right; now left].
  destruct (is_dict b) eqn:Hb.
  2: { right; right; right. exists b. split; [reflexivity | now left]. }
  destruct b as [| | | | |d]; try discriminate.
  destruct (dict_get "data" d) as [v|] eqn:Hd.
  2: { right; left. exists d. split; [reflexivity | now left]. }
  destruct (is_dict v) eqn:Hv.
  2: { right; right; right. eexists. split; [reflexivity|]. right. eauto. }
  destruct v as [| | | | |data]; try discriminate.
  destruct (dict_get "name" data) as [name|] eqn:Hn.
  - left. exists name, d, data. auto.
  - right; left. exists d. split; [reflexivity|]. right. eauto.
Qed.

(** Stores never remove a key; the value read after them is the one
    that was there or one of those stored. *)
Lemma stores_lookup ws : ∀ cache k v,
  cache !! k = Some v →
  ∃ v', stores ws cache !! k = Some v' ∧ (v' = v ∨ (k, v') ∈ ws).
Proof.
  induction ws as [|[k0 v0] ws IH]; intros cache k v Hk.
  - exists v. split; [exact Hk | now left].
  - unfold stores in *. cbn [foldl fst snd].
    destruct (decide (k = k0)) as [->|Hne].
    + destruct (IH (<[k0:=v0]> cache) k0 v0 (lookup_insert_eq _ _ _))
        as (v' & Hv' & Hor).
      exists v'. split; [exact Hv'|]. right.
      destruct Hor as [->|Hin]; [left | now right].
    + destruct (IH (<[k0:=v0]> cache) k v) as (v' & Hv' & Hor).
      * now rewrite lookup_insert_ne by congruence.
      * exists v'. split; [exact Hv'|].
        destruct Hor as [->|Hin]; [now left | right; now right].
Qed.

(** Stores under other keys leave the entry of a key alone. *)
Lemma stores_other ws : ∀ cache k,
  k ∉ ws.*1 → stores ws cache !! k = cache !! k.
Proof.
  induction ws as [|[k0 v0] ws IH]; intros cache k Hk; [reflexivity|].
  rewrite fmap_cons, not_elem_of_cons in Hk. destruct Hk as [Hne Hk].
  unfold stores in *. cbn [foldl fst snd].
  rewrite IH by assumption. apply lookup_insert_ne. simpl in Hne. congruence.
Qed.

(** A call leaves the whole cache as it found it, or stores under the
    key of its switch id, after a miss. *)
Lemma get_nad_name_cache resp ws nad_id cache c :
  get_nad_name resp ws nad_id cache = Ok c →
  nad_cache c = cache ∨
  ∃ k, to_key nad_id = Ok k ∧ cache !! k = None ∧ fetched c = true ∧
       nad_cache c = <[k := returned c]> (stores ws cache).
Proof.
  unfold get_nad_name. destruct (truthy nad_id); simpl.
  - destruct (to_key nad_id) as [k|e]; simpl; [|discriminate].
    destruct (cache !! k) as [v|] eqn:Hk.
    + intros [= <-]. now left.
    + destruct (nad_request resp) as [[v|]|e]; intros [= <-]; simpl;
        [right; eauto | now left | now left].
  - intros [= <-]. now left.
Qed.
End cache_facts.

(** C6 as stated fails.  The service answers a lookup it cannot serve
    with status 200 and an error body; the call returns the placeholder
    "Unknown" and stores it, and the next call for the same key, for
    which the service has the name ready, is answered "Unknown" from the
    cache without a request. *)
Lemma error_reply_is_cached :
  TestClient.get_nad_name error_reply [] (PStr "n1") ∅ =
    Ok (TestClient.NadCall (PStr "Unknown")
          (<[KStr "n1" := PStr "Unknown"]> ∅) true) ∧
  TestClient.get_nad_name (switch_named "sw-1") [] (PStr "n1")
    (<[KStr "n1" := PStr "Unknown"]> ∅) =
    Ok (TestClient.NadCall (PStr "Unknown")
          (<[KStr "n1" := PStr "Unknown"]> ∅) false).
Proof. split; reflexivity. Qed.

(** Two workers miss the cache for the same switch; the one whose reply
    comes last stores last, over the name the other has stored in the
    meantime. *)
Lemma late_store_replaces_entry :
  ∃ c, TestClient.get_nad_name error_reply [(KStr "n1", PStr "sw-1")]
         (PStr "n1") ∅ = Ok c ∧
       TestClient.stores [(KStr "n1", PStr "sw-1")] ∅ !! KStr "n1"
         = Some (PStr "sw-1") ∧
       TestClient.nad_cache c !! KStr "n1" = Some (PStr "Unknown").
Proof. eexists. split; [reflexivity|]. split; reflexivity. Qed.

(** C6, amended.  Take a truthy switch id with key [k].  A call that
    finds [k] in the cache returns the stored value without a request
    and leaves the cache alone.  A call that misses sends the request:
    when the reply names the switch the call returns the name, and when
    the reply has status 200 but carries no name it returns "Unknown";
    either way it stores what it returns under [k], on top of whatever
    the other workers have stored since the miss.  When the fetch fails
    (no connection, a status other than 200, a body of another shape)
    the call returns "Unknown" and stores nothing.  Every reply is of one
    of these three kinds.  Entries are never removed: once a call has
    left an entry for [k], every call made after any further stores is
    answered from the cache, without a request, with that value or a
    value stored for [k] since; and as long as [k] is not in the cache a
    call sends a request again. *)
Theorem nad_cache_hits_and_misses
    (resp : response) (ws : list (pykey * pyval)) (nad_id : pyval) (k : pykey)
    (cache : gmap pykey pyval) :
  truthy nad_id = true → to_key nad_id = Ok k →
  (∀ v, cache !! k = Some v →
     TestClient.get_nad_name resp ws nad_id cache =
       Ok (TestClient.NadCall v cache false)) ∧
  (cache !! k = None →
     (∀ name, nad_named resp name →
        TestClient.get_nad_name resp ws nad_id cache =
          Ok (TestClient.NadCall name
                (<[k:=name]> (TestClient.stores ws cache)) true)) ∧
     (nad_nameless resp →
        TestClient.get_nad_name resp ws nad_id cache =
          Ok (TestClient.NadCall (PStr "Unknown")
                (<[k:=PStr "Unknown"]> (TestClient.stores ws cache)) true)) ∧
     (nad_failed resp →
        TestClient.get_nad_name resp ws nad_id cache =
          Ok (TestClient.NadCall (PStr "Unknown") cache true))) ∧
  ((∃ name, nad_named resp name) ∨ nad_nameless resp ∨ nad_failed resp) ∧
  (∀ c v later resp' ws' nad_id',
     TestClient.get_nad_name resp ws nad_id cache = Ok c →
     TestClient.nad_cache c !! k = Some v →
     to_key nad_id' = Ok k →
     ∃ v', TestClient.get_nad_name resp' ws' nad_id'
             (TestClient.stores later (TestClient.nad_cache c)) =
           Ok (TestClient.NadCall v'
                 (TestClient.stores later (TestClient.nad_cache c)) false) ∧
           (v' = v ∨ (k, v') ∈ later)) ∧
  (∀ (later : gmap pykey pyval) resp' ws' nad_id',
     later !! k = None → to_key nad_id' = Ok k →
     ∃ c, TestClient.get_nad_name resp' ws' nad_id' later = Ok c ∧
          TestClient.fetched c = true).
Proof.
  intros Ht Hk.
  assert (∀ nad_id', to_key nad_id' = Ok k → truthy nad_id' = true) as Htr.
  { intros nad_id' Hk'. now rewrite (to_key_truthy nad_id' nad_id k Hk' Hk). }
  split; [|split; [|split; [|split]]].
  - intros v Hc. now apply (get_nad_name_hit _ _ _ _ k).
  - intros Hc.
    pose proof (get_nad_name_miss resp ws nad_id cache k Ht Hk Hc) as Hcall.
    split; [|split].
    + intros name Hn. now rewrite Hcall, (nad_named_request _ _ Hn).
    + intros Hn. now rewrite Hcall, (nad_nameless_request _ Hn).
    + intros Hf. rewrite Hcall.
      destruct (nad_failed_request _ Hf) as [-> | [e ->]]; reflexivity.
  - apply nad_reply_cases.
  - intros c v later resp' ws' nad_id' _ Hv Hk'.
    destruct (stores_lookup later _ k v Hv) as (v' & Hv' & Hor).
    exists v'. split; [|exact Hor].
    apply (get_nad_name_hit _ _ _ _ k); auto.
  - intros later resp' ws' nad_id' Hlater Hk'.
    rewrite (get_nad_name_miss resp' ws' nad_id' later k (Htr _ Hk') Hk' Hlater).
    eexists. split; [reflexivity|].
    destruct (TestClient.nad_request resp') as [[?|]|?]; reflexivity.
Qed.

Lemma nad_cache_hits_and_misses_witness :
  TestClient.get_nad_name (switch_named "sw-1") [(KStr "n2", PStr "sw-2")]
    (PStr "n1") ∅ =
    Ok (TestClient.NadCall (PStr "sw-1")
          (<[KStr "n1" := PStr "sw-1"]>
             (TestClient.stores [(KStr "n2", PStr "sw-2")] ∅)) true) ∧
  TestClient.get_nad_name NetworkError [] (PStr "n1") ∅ =
    Ok (TestClient.NadCall (PStr "Unknown") ∅ true).
Proof.
  assert (nad_named (switch_named "sw-1") (PStr "sw-1")) as Hn.
  { now exists [("data", PDict [("name", PStr "sw-1")])], [("name", PStr "sw-1")]. }
  assert (nad_failed NetworkError) as Hf by now left.
  split.
  - exact (proj1 (proj1 (proj2 (nad_cache_hits_and_misses (switch_named "sw-1")
             [(KStr "n2", PStr "sw-2")] (PStr "n1") (KStr "n1") ∅ eq_refl eq_refl))
             (lookup_empty _)) _ Hn).
  - exact (proj2 (proj2 (proj1 (proj2 (nad_cache_hits_and_misses NetworkError
             [] (PStr "n1") (KStr "n1") ∅ eq_refl eq_refl)) (lookup_empty _))) Hf).
Defined.

(* ===================================================================== *)
(** ** The Enrichment Merger *)
(* ===================================================================== *)

Section merge_facts.
Implicit Types (rec comb base : record) (x k : string) (v : pyval).

Lemma client_prefix k : String.prefix "client_" ("client_" +:+ k) = true.
Proof. simpl. destruct k; reflexivity. Qed.

Lemma client_attr_prefix k : String.prefix "client_" ("client_attr_" +:+ k) = true.
Proof. reflexivity. Qed.

Lemma alias_inj a b : "client_" +:+ a = "client_" +:+ b → a = b.
Proof. intros H. cbn in H. now injection H. Qed.

Lemma not_prefixed_ne_alias x k :
  String.prefix "client_" x = false → x ≠ "client_" +:+ k.
Proof. intros Hx ->. rewrite client_prefix in Hx. discriminate. Qed.

Lemma dict_get_del_ne {V} (d : list (string * V)) x k :
  x ≠ k → dict_get x (dict_del k d) = dict_get x d.
Proof.
  intros Hne. induction d as [|[k0 v0] d IH]; simpl; [reflexivity|].
  destruct (decide (k = k0)) as [->|Hk]; simpl.
  - destruct (decide (x = k0)); [contradiction | reflexivity].
  - destruct (decide (x = k0)); [reflexivity | exact IH].
Qed.

Lemma dict_keys_del {V} (d : list (string * V)) k :
  dict_keys (dict_del k d) `sublist_of` dict_keys d.
Proof.
  unfold dict_keys. induction d as [|[k0 v0] d IH]; simpl; [constructor|].
  destruct (decide (k = k0)); rewrite ?fmap_cons.
  - apply sublist_cons, reflexivity.
  - apply sublist_skip, IH.
Qed.

Lemma dict_wf_del {V} (d : list (string * V)) k : dict_wf d → dict_wf (dict_del k d).
Proof.
  unfold dict_wf. intros Hwf.
  eapply sublist_NoDup; [exact Hwf | apply dict_keys_del].
Qed.

Lemma dict_pop_get {V} (d : list (string * V)) x k (dflt : V) :
  x ≠ k → dict_get x (dict_pop k dflt d).2 = dict_get x d.
Proof.
  intros Hne. unfold dict_pop. destruct (dict_get k d); simpl; [|reflexivity].
  now apply dict_get_del_ne.
Qed.

Lemma dict_pop_wf {V} (d : list (string * V)) k (dflt : V) :
  dict_wf d → dict_wf (dict_pop k dflt d).2.
Proof.
  intros Hwf. unfold dict_pop. destruct (dict_get k d); simpl; [|assumption].
  now apply dict_wf_del.
Qed.

(** *** What a step of the merge leaves alone *)

Lemma merge_field_mem comb kv x :
  dict_mem x comb = true → dict_mem x (merge_field comb kv) = true.
Proof.
  destruct kv as [k v]. unfold merge_field.
  destruct (dict_mem k comb); simpl; apply dict_mem_set.
Qed.

Lemma merge_remaining_mem cd : ∀ comb x,
  dict_mem x comb = true → dict_mem x (merge_remaining cd comb) = true.
Proof.
  unfold merge_remaining.
  induction cd as [|kv cd IH]; intros comb x Hx; simpl; [exact Hx|].
  apply IH, merge_field_mem, Hx.
Qed.

Lemma merge_field_keeps comb kv x v :
  String.prefix "client_" x = false →
  dict_get x comb = Some v → dict_get x (merge_field comb kv) = Some v.
Proof.
  intros Hx Hget. destruct kv as [k v0]. unfold merge_field, dict_mem.
  destruct (dict_get k comb) eqn:Hk; simpl.
  - rewrite dict_get_set_ne; [exact Hget | now apply not_prefixed_ne_alias].
  - rewrite dict_get_set_ne; [exact Hget | congruence].
Qed.

Lemma merge_remaining_keeps cd : ∀ comb x v,
  String.prefix "client_" x = false →
  dict_get x comb = Some v → dict_get x (merge_remaining cd comb) = Some v.
Proof.
  unfold merge_remaining.
  induction cd as [|kv cd IH]; intros comb x v Hx Hget; simpl; [exact Hget|].
  apply IH; [exact Hx|]. now apply merge_field_keeps.
Qed.

Lemma flatten_attributes_get attrs comb rec x :
  flatten_attributes attrs comb = Ok rec →
  String.prefix "client_" x = false → dict_get x rec = dict_get x comb.
Proof.
  destruct attrs as [| | | | |d]; simpl; try discriminate.
  intros [= <-] Hx. revert comb.
  induction d as [|[k v] d IH]; intros comb; simpl; [reflexivity|].
  rewrite IH. apply dict_get_set_ne. intros ->.
  rewrite client_attr_prefix in Hx. discriminate.
Qed.

Lemma flatten_attributes_mem attrs comb rec x :
  flatten_attributes attrs comb = Ok rec →
  dict_mem x comb = true → dict_mem x rec = true.
Proof.
  destruct attrs as [| | | | |d]; simpl; try discriminate.
  intros [= <-]. revert comb.
  induction d as [|[k v] d IH]; intros comb Hx; simpl; [exact Hx|].
  apply IH, dict_mem_set, Hx.
Qed.

(** *** The collision rule *)

(** An alias, once written, stays as long as its field does not come
    again. *)
Lemma merge_remaining_alias_stays cd : ∀ comb x v,
  x ∉ dict_keys cd →
  dict_get ("client_" +:+ x) comb = Some v →
  dict_get ("client_" +:+ x) (merge_remaining cd comb) = Some v.
Proof.
  unfold merge_remaining, dict_keys.
  induction cd as [|[k v0] cd IH]; intros comb x v Hx Hget; [exact Hget|].
  rewrite fmap_cons in Hx. apply not_elem_of_cons in Hx as [Hne Hx].
  simpl foldl. apply IH; [exact Hx|].
  unfold merge_field, dict_mem. destruct (dict_get k comb) eqn:Hk; simpl.
  - rewrite dict_get_set_ne; [exact Hget|].
    intros E%alias_inj. simpl in Hne. congruence.
  - rewrite dict_get_set_ne; [exact Hget | congruence].
Qed.

(** A remaining field whose name is taken is stored under its alias. *)
Lemma merge_remaining_alias cd : ∀ comb x v,
  dict_wf cd → dict_get x cd = Some v → dict_mem x comb = true →
  dict_get ("client_" +:+ x) (merge_remaining cd comb) = Some v.
Proof.
  induction cd as [|[k v0] cd IH]; intros comb x v Hwf Hget Hmem;
    [discriminate|].
  unfold dict_wf, dict_keys in Hwf. rewrite fmap_cons in Hwf.
  apply NoDup_cons in Hwf as [Hk Hwf].
  simpl in Hget. destruct (decide (x = k)) as [->|Hne].
  - injection Hget as ->.
    change (merge_remaining ((k, v) :: cd) comb)
      with (merge_remaining cd (merge_field comb (k, v))).
    apply merge_remaining_alias_stays; [exact Hk|].
    unfold merge_field. rewrite Hmem. simpl. apply dict_get_set_eq.
  - change (merge_remaining ((k, v0) :: cd) comb)
      with (merge_remaining cd (merge_field comb (k, v0))).
    apply IH; [exact Hwf | exact Hget | now apply merge_field_mem].
Qed.

(** *** The whole block under [if client_data:] *)

Lemma merge_client_data_mem cert_key cert_col client_data comb rec x :
  merge_client_data cert_key cert_col client_data comb = Ok rec →
  dict_mem x comb = true → dict_mem x rec = true.
Proof.
  unfold merge_client_data. destruct (truthy client_data); [|now intros [= <-]].
  destruct client_data as [| | | | |cd]; try discriminate.
  destruct (dict_pop "attributes" (PDict []) cd) as [attrs cd1].
  destruct (dict_pop "certificate" PNone cd1) as [cert cd2].
  intros Hrec Hx.
  destruct (if truthy attrs then flatten_attributes attrs comb else Ok comb)
    as [comb1|e] eqn:H1; [|discriminate].
  assert (dict_mem x comb1 = true) as Hx1.
  { destruct (truthy attrs); [|injection H1 as <-; exact Hx].
    eapply flatten_attributes_mem; eassumption. }
  simpl in Hrec.
  destruct (truthy cert && is_dict cert).
  - destruct (py_get cert cert_key PNone) as [c1|e]; [|discriminate].
    destruct (py_get cert "expiryDate" PNone) as [c2|e]; [|discriminate].
    simpl in Hrec. injection Hrec as <-.
    apply merge_remaining_mem, dict_mem_set, dict_mem_set, Hx1.
  - simpl in Hrec. injection Hrec as <-. apply merge_remaining_mem, Hx1.
Qed.

Lemma reserved_false cert_col x :
  reserved cert_col x = false →
  String.prefix "client_" x = false ∧ x ≠ cert_col ∧ x ≠ "cert_expiry".
Proof.
  unfold reserved. intros H.
  apply orb_false_elim in H as [H H3]. apply orb_false_elim in H as [H1 H2].
  apply bool_decide_eq_false in H2, H3. auto.
Qed.

Lemma merge_client_data_keeps cert_key cert_col client_data comb rec x v :
  merge_client_data cert_key cert_col client_data comb = Ok rec →
  reserved cert_col x = false →
  dict_get x comb = Some v → dict_get x rec = Some v.
Proof.
  intros Hrec (Hp & Hc & He)%reserved_false Hx.
  unfold merge_client_data in Hrec.
  destruct (truthy client_data); [|now injection Hrec as <-].
  destruct client_data as [| | | | |cd]; try discriminate.
  destruct (dict_pop "attributes" (PDict []) cd) as [attrs cd1].
  destruct (dict_pop "certificate" PNone cd1) as [cert cd2].
  destruct (if truthy attrs then flatten_attributes attrs comb else Ok comb)
    as [comb1|e] eqn:H1; [|discriminate].
  assert (dict_get x comb1 = Some v) as Hx1.
  { destruct (truthy attrs); [|injection H1 as <-; exact Hx].
    rewrite (flatten_attributes_get _ _ _ _ H1 Hp). exact Hx. }
  simpl in Hrec.
  destruct (truthy cert && is_dict cert).
  - destruct (py_get cert cert_key PNone) as [c1|e]; [|discriminate].
    destruct (py_get cert "expiryDate" PNone) as [c2|e]; [|discriminate].
    simpl in Hrec. injection Hrec as <-.
    apply merge_remaining_keeps; [exact Hp|].
    rewrite !dict_get_set_ne by assumption. exact Hx1.
  - simpl in Hrec. injection Hrec as <-.
    apply merge_remaining_keeps; assumption.
Qed.

Lemma merge_client_data_alias cert_key cert_col cd comb rec x v :
  merge_client_data cert_key cert_col (PDict cd) comb = Ok rec →
  dict_wf cd → x ≠ "attributes" → x ≠ "certificate" →
  dict_get x cd = Some v → dict_mem x comb = true →
  dict_get ("client_" +:+ x) rec = Some v.
Proof.
  intros Hrec Hwf Ha Hc Hget Hmem.
  unfold merge_client_data in Hrec.
  assert (truthy (PDict cd) = true) as Ht
    by (destruct cd; [discriminate|reflexivity]).
  rewrite Ht in Hrec.
  pose proof (dict_pop_get cd x "attributes" (PDict []) Ha) as Hg1.
  pose proof (dict_pop_wf cd "attributes" (PDict []) Hwf) as Hw1.
  destruct (dict_pop "attributes" (PDict []) cd) as [attrs cd1].
  pose proof (dict_pop_get cd1 x "certificate" PNone Hc) as Hg2.
  pose proof (dict_pop_wf cd1 "certificate" PNone Hw1) as Hw2.
  destruct (dict_pop "certificate" PNone cd1) as [cert cd2].
  simpl in Hg1, Hg2, Hw1, Hw2.
  assert (dict_get x cd2 = Some v) as Hget2 by congruence.
  destruct (if truthy attrs then flatten_attributes attrs comb else Ok comb)
    as [comb1|e] eqn:H1; [|discriminate].
  assert (dict_mem x comb1 = true) as Hx1.
  { destruct (truthy attrs); [|injection H1 as <-; exact Hmem].
    eapply flatten_attributes_mem; eassumption. }
  simpl in Hrec.
  destruct (truthy cert && is_dict cert).
  - destruct (py_get cert cert_key PNone) as [c1|e]; [|discriminate].
    destruct (py_get cert "expiryDate" PNone) as [c2|e]; [|discriminate].
    simpl in Hrec. injection Hrec as <-.
    apply merge_remaining_alias; [exact Hw2 | exact Hget2 |].
    apply dict_mem_set, dict_mem_set, Hx1.
  - simpl in Hrec. injection Hrec as <-.
    apply merge_remaining_alias; assumption.
Qed.
End merge_facts.

Section worker_facts.
Import TestClient.
Implicit Types (env : lookups) (cache : gmap pykey pyval) (mac : pykey)
  (base rec : record).

Lemma lookup_failed_nad resp :
  lookup_failed resp = true →
  nad_request resp = Ok None ∨ ∃ e, nad_request resp = Raise e.
Proof.
  destruct resp as [|status body]; simpl; [eauto|].
  destruct (status =? 200); simpl; [|eauto].
  destruct body; [discriminate | eauto].
Qed.

Lemma lookup_failed_details resp auth_req_id :
  lookup_failed resp = true → get_session_details resp auth_req_id = PStr "".
Proof.
  unfold get_session_details. destruct (truthy auth_req_id); [|reflexivity].
  destruct resp as [|status body]; simpl; [reflexivity|].
  destruct (status =? 200); simpl; [|reflexivity].
  destruct body; [discriminate | reflexivity].
Qed.

Lemma lookup_failed_client resp mac :
  lookup_failed resp = true → get_client_details resp mac = PDict [].
Proof.
  unfold get_client_details.
  destruct resp as [|status body]; simpl; [reflexivity|].
  destruct (status =? 200); simpl; [|reflexivity].
  destruct body; [discriminate | reflexivity].
Qed.

Lemma get_nad_name_failed resp ws nad_id cache k :
  lookup_failed resp = true →
  truthy nad_id = true → to_key nad_id = Ok k → cache !! k = None →
  get_nad_name resp ws nad_id cache = Ok (NadCall (PStr "Unknown") cache true).
Proof.
  intros Hf Ht Hk Hc. rewrite (get_nad_name_miss resp ws nad_id cache k Ht Hk Hc).
  destruct (lookup_failed_nad resp Hf) as [-> | [e ->]]; reflexivity.
Qed.

(** A hashable switch id never makes the lookup raise. *)
Lemma get_nad_name_returns resp ws nad_id cache k :
  to_key nad_id = Ok k → ∃ c, get_nad_name resp ws nad_id cache = Ok c.
Proof.
  intros Hk. unfold get_nad_name. destruct (truthy nad_id); simpl; [|eauto].
  rewrite Hk. simpl. destruct (cache !! k); [eauto|].
  destruct (nad_request resp) as [[?|]|?]; eauto.
Qed.

Lemma with_switch_columns_mem name port base x :
  dict_mem x base = true → dict_mem x (with_switch_columns name port base) = true.
Proof.
  intros Hx. unfold with_switch_columns.
  destruct (truthy (default PNone (dict_get "nadID" base)));
    destruct (truthy (default PNone (dict_get "authReqID" base)));
    repeat apply dict_mem_set; exact Hx.
Qed.

Lemma with_switch_columns_other name port base x :
  x ≠ "switch_name" → x ≠ "switch_interface" →
  dict_get x (with_switch_columns name port base) = dict_get x base.
Proof.
  intros H1 H2. unfold with_switch_columns.
  destruct (truthy (default PNone (dict_get "nadID" base)));
    destruct (truthy (default PNone (dict_get "authReqID" base)));
    rewrite ?dict_get_set_ne by assumption; reflexivity.
Qed.

Lemma with_switch_columns_name name port base :
  truthy (default PNone (dict_get "nadID" base)) = true →
  dict_get "switch_name" (with_switch_columns name port base) = Some name.
Proof.
  intros Ht. unfold with_switch_columns. rewrite Ht.
  destruct (truthy (default PNone (dict_get "authReqID" base))).
  - rewrite dict_get_set_ne by discriminate. apply dict_get_set_eq.
  - apply dict_get_set_eq.
Qed.

Lemma with_switch_columns_port name port base :
  truthy (default PNone (dict_get "authReqID" base)) = true →
  dict_get "switch_interface" (with_switch_columns name port base) = Some port.
Proof.
  intros Ht. unfold with_switch_columns. rewrite Ht. apply dict_get_set_eq.
Qed.

(** The worker, read backwards: the record it returns is the merge of
    the identity data into the base record with its switch columns. *)
Lemma enrich_device_worker_inv env cache mac base rec cache' :
  enrich_device_worker env cache (mac, base) = Ok (rec, cache') →
  ∃ name,
    merge_client_data "subject" "cert_subject"
      (get_client_info (client_reply env) mac)
      (with_switch_columns name
         (get_session_details (details_reply env)
            (default PNone (dict_get "authReqID" base))) base) = Ok rec ∧
    (truthy (default PNone (dict_get "nadID" base)) = true →
     ∃ c, get_nad_name (nad_reply env) (stored_meanwhile env)
            (default PNone (dict_get "nadID" base)) cache
            = Ok c ∧ returned c = name ∧ nad_cache c = cache').
Proof.
  unfold enrich_device_worker, with_switch_columns. cbv zeta.
  destruct (truthy (default PNone (dict_get "nadID" base))) eqn:Hnad.
  - destruct (get_nad_name (nad_reply env) _ _ cache) as [c|e]; [|discriminate].
    cbn [mbind result_bind].
    destruct (merge_client_data _ _ _ _) as [rec0|e] eqn:Hm; [|discriminate].
    cbn [mbind result_bind]. intros [= <- <-].
    exists (returned c). split; [exact Hm|]. intros _. eauto.
  - cbn [mbind result_bind].
    destruct (merge_client_data _ _ _ _) as [rec0|e] eqn:Hm; [|discriminate].
    cbn [mbind result_bind]. intros [= <- <-].
    exists PNone. split; [reflexivity | discriminate].
Qed.

(** The worker, read forwards, for a hashable switch id. *)
Lemma enrich_device_worker_eq env cache mac base k :
  to_key (default PNone (dict_get "nadID" base)) = Ok k →
  ∃ name cache',
    enrich_device_worker env cache (mac, base) =
    (rec ← merge_client_data "subject" "cert_subject"
              (get_client_info (client_reply env) mac)
              (with_switch_columns name
                 (get_session_details (details_reply env)
                    (default PNone (dict_get "authReqID" base))) base);
     Ok (rec, cache')).
Proof.
  intros Hk. unfold enrich_device_worker, with_switch_columns. cbv zeta.
  destruct (truthy (default PNone (dict_get "nadID" base))) eqn:Hnad.
  - destruct (get_nad_name_returns (nad_reply env) (stored_meanwhile env) _
                cache k Hk) as [c ->].
    exists (returned c), (nad_cache c). reflexivity.
  - exists PNone, cache. reflexivity.
Qed.

Lemma worker_reserved_false x :
  worker_reserved x = false →
  reserved "cert_subject" x = false ∧ x ≠ "switch_name" ∧ x ≠ "switch_interface".
Proof.
  unfold worker_reserved. intros H.
  apply orb_false_elim in H as [H H3]. apply orb_false_elim in H as [H1 H2].
  apply bool_decide_eq_false in H2, H3. auto.
Qed.

(** [list(executor.map(...))] keeps positions. *)
Lemma executor_map_lookup {A B} (f : nat → A → result B) items : ∀ i ys,
  executor_map f i items = Ok ys →
  length ys = length items ∧
  ∀ (j : nat) x, items !! j = Some x →
    ∃ y, ys !! j = Some y ∧ f (i + j)%nat x = Ok y.
Proof.
  induction items as [|x0 items IH]; intros i ys; simpl.
  - intros [= <-]. split; [reflexivity|]. intros j x Hj. destruct j; discriminate.
  - destruct (f i x0) as [y0|e] eqn:Hy0; [|discriminate]. cbn [mbind result_bind].
    destruct (executor_map f (S i) items) as [ys0|e] eqn:Hys; [|discriminate].
    cbn [mbind result_bind]. intros [= <-].
    destruct (IH (S i) ys0 Hys) as [Hlen Hpos]. split; [simpl; now rewrite Hlen|].
    intros [|j] x Hj; simpl in Hj.
    + injection Hj as <-. exists y0. split; [reflexivity|].
      now rewrite Nat.add_0_r.
    + destruct (Hpos j x Hj) as (y & Hy & Hf). exists y. split; [exact Hy|].
      now rewrite Nat.add_succ_r.
Qed.

Lemma executor_map_returns {A B} (f : nat → A → result B) items : ∀ i,
  (∀ (j : nat) x, items !! j = Some x → ∃ y, f (i + j)%nat x = Ok y) →
  ∃ ys, executor_map f i items = Ok ys.
Proof.
  induction items as [|x0 items IH]; intros i Hall; simpl; [eauto|].
  destruct (Hall O x0 eq_refl) as [y0 Hy0]. rewrite Nat.add_0_r in Hy0.
  rewrite Hy0. cbn [mbind result_bind].
  destruct (IH (S i)) as [ys ->].
  - intros j x Hj. destruct (Hall (S j) x Hj) as [y Hy].
    exists y. now rewrite Nat.add_succ_r in Hy.
  - cbn [mbind result_bind]. eauto.
Qed.

Lemma mapM_lookup {A B} (f : A → result B) items : ∀ ys,
  mapM f items = Ok ys →
  length ys = length items ∧
  ∀ (j : nat) x, items !! j = Some x → ∃ y, ys !! j = Some y ∧ f x = Ok y.
Proof.
  induction items as [|x0 items IH]; intros ys; simpl.
  - intros [= <-]. split; [reflexivity|]. intros j x Hj. destruct j; discriminate.
  - destruct (f x0) as [y0|e] eqn:Hy0; [|discriminate]. cbn [mbind result_bind].
    destruct (mapM f items) as [ys0|e] eqn:Hys; [|discriminate].
    cbn [mbind result_bind mret result_ret]. intros [= <-].
    destruct (IH ys0 eq_refl) as [Hlen Hpos]. split; [simpl; now rewrite Hlen|].
    intros [|j] x Hj; simpl in Hj.
    + injection Hj as <-. exists y0. split; [reflexivity | exact Hy0].
    + exact (Hpos j x Hj).
Qed.

Lemma mapM_returns {A B} (f : A → result B) items :
  (∀ x, x ∈ items → ∃ y, f x = Ok y) → ∃ ys, mapM f items = Ok ys.
Proof.
  induction items as [|x0 items IH]; intros Hall; simpl; [eauto|].
  destruct (Hall x0 ltac:(left)) as [y0 ->]. cbn [mbind result_bind].
  destruct IH as [ys ->]; [intros x Hx; apply Hall; now right|].
  cbn [mbind result_bind mret result_ret]. eauto.
Qed.

(** A failed lookup brings nothing, which can be merged. *)
Lemma lookup_failed_mergeable resp :
  lookup_failed resp = true → identity_mergeable resp = true.
Proof.
  destruct resp as [|status [[| | | | |b]|]]; simpl; try reflexivity.
  rewrite orb_false_r. now intros ->.
Qed.

(** Identity data that can be merged never makes the merge raise. *)
Lemma identity_mergeable_merge resp mac cert_key cert_col comb :
  identity_mergeable resp = true →
  ∃ rec, merge_client_data cert_key cert_col (get_client_details resp mac) comb
         = Ok rec.
Proof.
  unfold get_client_details.
  destruct resp as [|status body]; [simpl; eauto|].
  unfold client_request.
  destruct (status =? 200) eqn:Hs; [|simpl; eauto].
  destruct body as [b|]; [|simpl; eauto].
  destruct b as [| | | | |b]; try (simpl; eauto; fail).
  cbn [identity_mergeable json mbind result_bind py_get try_except].
  rewrite Hs. cbn [negb orb].
  destruct (default (PDict []) (dict_get "data" b)) as [|x|n|str|l|cd] eqn:Hd;
    unfold merge_client_data;
    try (intros Hm; apply negb_true_iff in Hm; rewrite Hm; eauto; fail).
  intros Hm. destruct (truthy (PDict cd)); [|eauto].
  assert (∀ cert rest comb',
            ∃ rec, ((if truthy cert && is_dict cert
                     then c1 ← py_get cert cert_key PNone;
                          c2 ← py_get cert "expiryDate" PNone;
                          Ok (dict_set "cert_expiry" c2 (dict_set cert_col c1 comb'))
                     else Ok comb') ≫= λ combined_rec0 : record,
                       Ok (merge_remaining rest combined_rec0)) = Ok rec) as Hcert.
  { intros cert rest comb'. destruct (truthy cert && is_dict cert) eqn:Hc.
    - destruct cert; try (rewrite andb_false_r in Hc; discriminate).
      simpl. eauto.
    - simpl. eauto. }
  unfold dict_pop at 1.
  destruct (dict_get "attributes" cd) as [a|] eqn:Ha.
  - destruct (truthy a) eqn:Hta; simpl in Hm.
    + destruct a; try discriminate. cbn [flatten_attributes mbind result_bind].
      destruct (dict_pop "certificate" PNone _) as [cert rest]. apply Hcert.
    + cbn [mbind result_bind].
      destruct (dict_pop "certificate" PNone _) as [cert rest]. apply Hcert.
  - cbn [truthy mbind result_bind].
    destruct (dict_pop "certificate" PNone _) as [cert rest]. apply Hcert.
Qed.
End worker_facts.

(* ===================================================================== *)
(** ** Enrichment: results *)
(* ===================================================================== *)

(** C4 as stated fails: the session record has a [switch_name] of its
    own and a switch id; the worker stores the looked-up name under
    [switch_name], and the base value is gone. *)
Lemma switch_name_overwrites_base_field :
  ∃ rec cache',
    TestClient.enrich_device_worker
      (TestClient.Lookups (switch_named "sw-new") NetworkError NetworkError [])
      ∅ (KStr "AA:BB:CC:DD:EE:FF", named_session) = Ok (rec, cache') ∧
    dict_get "switch_name" named_session = Some (PStr "sw-old") ∧
    dict_get "switch_name" rec = Some (PStr "sw-new").
Proof.
  eexists _, _. split; [vm_compute; reflexivity|].
  split; reflexivity.
Qed.

(** The alias of a colliding field can itself land on a base field. *)
Lemma alias_overwrites_base_field :
  ∃ rec,
    Segment.enrich (λ _, identity_reply)
      (KStr "AA:BB:CC:DD:EE:FF", aliased_session) = Ok rec ∧
    dict_get "client_ip" aliased_session = Some (PStr "10.0.0.9") ∧
    dict_get "client_ip" rec = Some (PStr "10.0.0.2").
Proof.
  eexists. split; [vm_compute; reflexivity|]. split; reflexivity.
Qed.

(** The three facts about the record a worker returns. *)
Lemma worker_keeps_keys env cache cache' mac (base rec : record) x :
  TestClient.enrich_device_worker env cache (mac, base) = Ok (rec, cache') →
  dict_mem x base = true → dict_mem x rec = true.
Proof.
  intros (name & Hm & _)%enrich_device_worker_inv Hx.
  eapply merge_client_data_mem; [exact Hm|].
  now apply with_switch_columns_mem.
Qed.

Lemma worker_keeps_unreserved env cache cache' mac (base rec : record) x v :
  TestClient.enrich_device_worker env cache (mac, base) = Ok (rec, cache') →
  dict_get x base = Some v → worker_reserved x = false →
  dict_get x rec = Some v.
Proof.
  intros (name & Hm & _)%enrich_device_worker_inv Hx
    (Hr & H1 & H2)%worker_reserved_false.
  eapply merge_client_data_keeps; [exact Hm | exact Hr|].
  now rewrite with_switch_columns_other.
Qed.

Lemma worker_aliases_collision env cache cache' mac (base rec : record)
    client_data x v :
  TestClient.enrich_device_worker env cache (mac, base) = Ok (rec, cache') →
  TestClient.get_client_info (TestClient.client_reply env) mac
    = PDict client_data →
  dict_wf client_data → x ≠ "attributes" → x ≠ "certificate" →
  dict_get x client_data = Some v → dict_mem x base = true →
  dict_get ("client_" +:+ x) rec = Some v.
Proof.
  intros (name & Hm & _)%enrich_device_worker_inv Hcd Hwf Ha Hc Hx Hmem.
  rewrite Hcd in Hm.
  eapply merge_client_data_alias; try eassumption.
  now apply with_switch_columns_mem.
Qed.

(** C4, amended.  For every record the worker returns: every key of the
    base record is still a key; a base field keeps its base value
    provided its name is not one the enrichment writes on its own
    account ([switch_name], [switch_interface], [cert_subject],
    [cert_expiry], or a name starting with [client_]); and a top-level
    field of the identity data other than [attributes] and [certificate]
    whose name is a key of the base record is stored under the alias
    [client_<name>]. *)
Theorem base_fields_survive_enrichment
    (env : TestClient.lookups) (cache cache' : gmap pykey pyval)
    (mac : pykey) (base rec : record) :
  TestClient.enrich_device_worker env cache (mac, base) = Ok (rec, cache') →
  (∀ x, dict_mem x base = true → dict_mem x rec = true) ∧
  (∀ x v, dict_get x base = Some v → worker_reserved x = false →
          dict_get x rec = Some v) ∧
  (∀ client_data x v,
     TestClient.get_client_info (TestClient.client_reply env) mac
       = PDict client_data →
     dict_wf client_data → x ≠ "attributes" → x ≠ "certificate" →
     dict_get x client_data = Some v → dict_mem x base = true →
     dict_get ("client_" +:+ x) rec = Some v).
Proof.
  intros Hw. split; [|split].
  - intros x. eapply worker_keeps_keys, Hw.
  - intros x v. eapply worker_keeps_unreserved, Hw.
  - intros cd x v. eapply worker_aliases_collision, Hw.
Qed.

Lemma base_fields_survive_enrichment_witness :
  ∃ rec,
    TestClient.enrich_device_worker
      (TestClient.Lookups NetworkError NetworkError identity_reply [])
      ∅ (KStr "AA:BB:CC:DD:EE:FF", wired_session) = Ok (rec, ∅) ∧
    dict_get "ip" rec = Some (PStr "10.0.0.1") ∧
    dict_get "client_ip" rec = Some (PStr "10.0.0.2").
Proof.
  assert (∃ rec,
    TestClient.enrich_device_worker
      (TestClient.Lookups NetworkError NetworkError identity_reply [])
      ∅ (KStr "AA:BB:CC:DD:EE:FF", wired_session) = Ok (rec, ∅)) as [rec Hrec]
    by (eexists; vm_compute; reflexivity).
  exists rec. split; [exact Hrec|].
  destruct (base_fields_survive_enrichment
              (TestClient.Lookups NetworkError NetworkError identity_reply [])
              ∅ ∅ (KStr "AA:BB:CC:DD:EE:FF") wired_session rec Hrec)
    as (_ & Hkeep & Halias).
  split.
  - apply Hkeep; reflexivity.
  - apply (Halias [("ip", PStr "10.0.0.2"); ("owner", PStr "alice")] "ip");
      try reflexivity; try discriminate.
    unfold dict_wf. compute_done.
Defined.

(** The same for the loop of the segment script, whose certificate
    column is [cert_issuer] and which has no switch columns. *)
Lemma seg_base_fields_survive_enrichment client_api mac (base rec : record) :
  Segment.enrich client_api (mac, base) = Ok rec →
  (∀ x, dict_mem x base = true → dict_mem x rec = true) ∧
  (∀ x v, dict_get x base = Some v → reserved "cert_issuer" x = false →
          dict_get x rec = Some v) ∧
  (∀ client_data x v,
     get_client_details (client_api mac) mac = PDict client_data →
     dict_wf client_data → x ≠ "attributes" → x ≠ "certificate" →
     dict_get x client_data = Some v → dict_mem x base = true →
     dict_get ("client_" +:+ x) rec = Some v).
Proof.
  unfold Segment.enrich. intros Hm. split; [|split].
  - intros x Hx. eapply merge_client_data_mem; eassumption.
  - intros x v Hx Hr. eapply merge_client_data_keeps; eassumption.
  - intros cd x v Hcd Hwf Ha Hc Hx Hmem. rewrite Hcd in Hm.
    eapply merge_client_data_alias; eassumption.
Qed.

(** C7 as stated fails: when the switch lookup fails the record does
    get a [switch_name], and its value is the placeholder "Unknown",
    which is neither absent nor empty. *)
Lemma failed_switch_lookup_leaves_placeholder :
  lookup_failed (TestClient.nad_reply all_down) = true ∧
  ∃ rec,
    TestClient.enrich_device_worker all_down ∅
      (KStr "AA:BB:CC:DD:EE:FF", wired_session) = Ok (rec, ∅) ∧
    dict_get "switch_name" rec = Some (PStr "Unknown") ∧
    ¬ (dict_get "switch_name" rec = None ∨
       ∃ v, dict_get "switch_name" rec = Some v ∧ truthy v = false).
Proof.
  split; [reflexivity|]. eexists. split; [vm_compute; reflexivity|].
  split; [reflexivity|].
  intros [H | (v & Hv & Hf)]; [discriminate|].
  injection Hv as <-. discriminate.
Qed.

(** The cache is consulted before the guarded request: a switch id that
    cannot be a dictionary key raises out of the lookup and of the
    worker. *)
Lemma unhashable_switch_id_raises :
  TestClient.get_nad_name NetworkError [] (PList [PStr "n1"]) ∅ = Raise TypeError ∧
  TestClient.enrich_device_worker all_down ∅
    (KStr "AA:BB:CC:DD:EE:FF",
     [("mac", PStr "AA:BB:CC:DD:EE:FF"); ("nadID", PList [PStr "n1"])])
  = Raise TypeError.
Proof. split; reflexivity. Qed.

(** C7, amended.  Take a device whose switch id is hashable (a string,
    a number, a boolean or null).  A failed lookup (request raised,
    status other than 200, undecodable body) makes the lookup function
    return its default and nothing else: the placeholder "Unknown" for
    the switch name, with nothing stored in the cache, the empty string
    for the interface, the empty mapping for the identity.  Whichever of
    the three lookups fail, the worker returns a record as long as the
    identity data, if any arrives, can be merged; the record has
    "Unknown" in [switch_name] when the switch lookup failed, the empty
    string in [switch_interface] when the port lookup failed, and is the
    base record with its switch columns and no identity field when the
    identity lookup failed.  A batch of such devices yields one record
    per device, the i-th being what the worker returns for the i-th
    device, whatever lookups fail for whichever devices.  In the segment
    script a failed identity lookup leaves the base record as it is and
    the loop goes through all the devices. *)
Theorem lookup_failure_is_contained
    (env : TestClient.lookups) (cache : gmap pykey pyval) (mac k : pykey)
    (sess_data : record) :
  let nad_id := default PNone (dict_get "nadID" sess_data) in
  let auth_req_id := default PNone (dict_get "authReqID" sess_data) in
  to_key nad_id = Ok k →
  (lookup_failed (TestClient.nad_reply env) = true →
   truthy nad_id = true → cache !! k = None →
   TestClient.get_nad_name (TestClient.nad_reply env)
     (TestClient.stored_meanwhile env) nad_id cache =
     Ok (TestClient.NadCall (PStr "Unknown") cache true)) ∧
  (lookup_failed (TestClient.details_reply env) = true →
   TestClient.get_session_details (TestClient.details_reply env) auth_req_id
     = PStr "") ∧
  (lookup_failed (TestClient.client_reply env) = true →
   TestClient.get_client_info (TestClient.client_reply env) mac = PDict []) ∧
  (identity_mergeable (TestClient.client_reply env) = true →
   ∃ rec cache',
     TestClient.enrich_device_worker env cache (mac, sess_data) = Ok (rec, cache') ∧
     (lookup_failed (TestClient.nad_reply env) = true →
      truthy nad_id = true → cache !! k = None →
      dict_get "switch_name" rec = Some (PStr "Unknown") ∧ cache' = cache) ∧
     (lookup_failed (TestClient.details_reply env) = true →
      truthy auth_req_id = true →
      dict_get "switch_interface" rec = Some (PStr "")) ∧
     (lookup_failed (TestClient.client_reply env) = true →
      ∃ name,
        rec = with_switch_columns name
                (TestClient.get_session_details (TestClient.details_reply env)
                   auth_req_id) sess_data)) ∧
  (∀ (sched : TestClient.schedule) (devices : list (pykey * record)),
     (∀ (i : nat) m r, devices !! i = Some (m, r) →
        identity_mergeable (TestClient.client_reply (sched i).1) = true ∧
        ∃ k', to_key (default PNone (dict_get "nadID" r)) = Ok k') →
     ∃ recs, TestClient.final_records true sched devices = Ok recs ∧
             length recs = length devices ∧
             ∀ (i : nat) m r, devices !! i = Some (m, r) →
               ∃ rec cache',
                 recs !! i = Some rec ∧
                 TestClient.enrich_device_worker (sched i).1 (sched i).2 (m, r)
                   = Ok (rec, cache')) ∧
  (∀ client_api : pykey → response,
     lookup_failed (client_api mac) = true →
     Segment.enrich client_api (mac, sess_data) = Ok sess_data) ∧
  (∀ (client_api : pykey → response) (devices : list (pykey * record)),
     (∀ m r, (m, r) ∈ devices → identity_mergeable (client_api m) = true) →
     ∃ recs, Segment.final_records true client_api devices = Ok recs ∧
             length recs = length devices).
Proof.
  intros nad_id auth_req_id Hk.
  split; [|split; [|split; [|split; [|split; [|split]]]]].
  - intros Hf Ht Hc. now apply (get_nad_name_failed _ _ _ _ k).
  - apply lookup_failed_details.
  - apply lookup_failed_client.
  - intros Hmerge.
    destruct (enrich_device_worker_eq env cache mac sess_data k Hk)
      as (name & cache0 & Heq).
    destruct (identity_mergeable_merge (TestClient.client_reply env) mac
                "subject" "cert_subject"
                (with_switch_columns name
                   (TestClient.get_session_details (TestClient.details_reply env)
                      auth_req_id) sess_data) Hmerge) as [rec Hrec].
    unfold TestClient.get_client_info in Heq. fold auth_req_id in Heq.
    rewrite Hrec in Heq. cbn [mbind result_bind] in Heq.
    exists rec, cache0. split; [exact Heq|].
    apply enrich_device_worker_inv in Heq as (name' & Hm & Hnad).
    fold nad_id auth_req_id in Hm, Hnad.
    split; [|split].
    + intros Hf Ht Hc. destruct (Hnad Ht) as (c & Hcall & <- & <-).
      rewrite (get_nad_name_failed _ _ _ _ k Hf Ht Hk Hc) in Hcall.
      injection Hcall as <-. split; [|reflexivity]. simpl in Hm.
      eapply merge_client_data_keeps; [exact Hm | reflexivity|].
      now apply with_switch_columns_name.
    + intros Hf Ht.
      rewrite (lookup_failed_details _ auth_req_id Hf) in Hm.
      eapply merge_client_data_keeps; [exact Hm | reflexivity|].
      now apply with_switch_columns_port.
    + intros Hf. exists name'. unfold TestClient.get_client_info in Hm.
      rewrite (lookup_failed_client _ mac Hf) in Hm. simpl in Hm.
      now injection Hm as <-.
  - intros sched devices Hall. unfold TestClient.final_records.
    destruct devices as [|d0 devices].
    { exists []. split; [reflexivity|]. split; [reflexivity|].
      intros i m r Hi. destruct i; discriminate. }
    cbn [andb].
    destruct (executor_map_returns
                (λ i args, fst <$> TestClient.enrich_device_worker
                                     (sched i).1 (sched i).2 args)
                (d0 :: devices) O) as [recs Hrecs].
    + intros j [m r] Hj. destruct (Hall j m r Hj) as [Hmerge [k' Hk']].
      destruct (enrich_device_worker_eq (sched j).1 (sched j).2 m r k' Hk')
        as (name & cache' & Heq).
      simpl plus. rewrite Heq. unfold TestClient.get_client_info.
      destruct (identity_mergeable_merge _ m "subject" "cert_subject"
                  (with_switch_columns name
                     (TestClient.get_session_details
                        (TestClient.details_reply (sched j).1)
                        (default PNone (dict_get "authReqID" r))) r) Hmerge)
        as [rec ->].
      simpl. eauto.
    + exists recs. split; [exact Hrecs|].
      destruct (executor_map_lookup _ _ _ _ Hrecs) as [Hlen Hpos].
      split; [exact Hlen|].
      intros i m r Hi. destruct (Hpos i (m, r) Hi) as (rec & Hrec & Hw).
      simpl plus in Hw.
      destruct (TestClient.enrich_device_worker (sched i).1 (sched i).2 (m, r))
        as [[rec0 cache0]|e]; [|discriminate].
      simpl in Hw. injection Hw as <-. eauto.
  - intros client_api Hf. unfold Segment.enrich.
    now rewrite (lookup_failed_client _ mac Hf).
  - intros client_api devices Hall. unfold Segment.final_records.
    destruct devices as [|d0 devices]; [exists []; split; reflexivity|].
    cbn [andb].
    destruct (mapM_returns (Segment.enrich client_api) (d0 :: devices))
      as [recs Hrecs].
    + intros [m r] Hin. unfold Segment.enrich.
      apply identity_mergeable_merge. eapply Hall, Hin.
    + exists recs. split; [exact Hrecs|].
      now destruct (mapM_lookup _ _ _ Hrecs) as [Hlen _].
Qed.

Lemma lookup_failure_is_contained_witness :
  TestClient.get_session_details NetworkError (PStr "req-123") = PStr "" ∧
  ∃ rec cache',
    TestClient.enrich_device_worker
      (TestClient.Lookups NetworkError NetworkError identity_reply []) ∅
      (KStr "AA:BB:CC:DD:EE:FF", wired_session) = Ok (rec, cache') ∧
    dict_get "switch_name" rec = Some (PStr "Unknown") ∧
    dict_get "switch_interface" rec = Some (PStr "").
Proof.
  destruct (lookup_failure_is_contained
              (TestClient.Lookups NetworkError NetworkError identity_reply [])
              ∅ (KStr "AA:BB:CC:DD:EE:FF") (KStr "n1") wired_session eq_refl)
    as (_ & Hd & _ & Hw & _).
  split; [exact (Hd eq_refl)|].
  destruct (Hw eq_refl) as (rec & cache' & Hrec & Hname & Hport & _).
  exists rec, cache'. split; [exact Hrec|]. split.
  - exact (proj1 (Hname eq_refl eq_refl (lookup_empty _))).
  - exact (Hport eq_refl eq_refl).
Defined.

(* ===================================================================== *)
(** ** Order of the enriched records *)
(* ===================================================================== *)

Section order_facts.
Implicit Types (d ud : list (pykey * record)) (raw : list pyval).

Lemma dict_set_elem {K V} `{EqDecision K} (d : list (K * V)) k v a b :
  (a, b) ∈ dict_set k v d → (a, b) = (k, v) ∨ (a, b) ∈ d.
Proof.
  induction d as [|[k0 v0] d IH]; simpl.
  - intros ->%list_elem_of_singleton. now left.
  - destruct (decide (k = k0)) as [->|Hne].
    + intros [Heq|Hin]%elem_of_cons; [now left | right; now right].
    + intros [Heq|Hin]%elem_of_cons; [right; rewrite Heq; left|].
      destruct (IH Hin) as [?|?]; [now left | right; now right].
Qed.

(** Every entry of the dictionary is stored under the key of its
    record, and no key occurs twice. *)
Lemma dedup_from_entries raw : ∀ d d',
  dedup_from d raw = Ok d' →
  (∀ k r, (k, r) ∈ d → natural_key (PDict r) = Some k) →
  ∀ k r, (k, r) ∈ d' → natural_key (PDict r) = Some k.
Proof.
  induction raw as [|sess raw IH]; intros d d'; simpl.
  - intros [= <-]. trivial.
  - destruct (digestible sess) eqn:Hs.
    + rewrite dedup_step_digestible by assumption. cbn [mbind result_bind].
      intros Hd' Hinv. eapply IH; [exact Hd'|].
      destruct (natural_key sess) as [k0|] eqn:Hk0; [|exact Hinv].
      intros k r [Heq|Hin]%dict_set_elem; [|now apply Hinv].
      injection Heq as -> ->.
      destruct sess; try discriminate. exact Hk0.
    + destruct (dedup_step_indigestible d sess Hs) as [e ->]. discriminate.
Qed.

Lemma dedup_from_wf raw : ∀ d d',
  dedup_from d raw = Ok d' → dict_wf d → dict_wf d'.
Proof.
  induction raw as [|sess raw IH]; intros d d'; simpl.
  - intros [= <-]. trivial.
  - destruct (digestible sess) eqn:Hs.
    + rewrite dedup_step_digestible by assumption. cbn [mbind result_bind].
      intros Hd' Hwf. eapply IH; [exact Hd'|].
      destruct (natural_key sess); [now apply dict_wf_set | exact Hwf].
    + destruct (dedup_step_indigestible d sess Hs) as [e ->]. discriminate.
Qed.

Lemma natural_key_mac (r r' : record) :
  dict_get "mac" r = dict_get "mac" r' →
  natural_key (PDict r) = natural_key (PDict r').
Proof. simpl. now intros ->. Qed.

Lemma natural_key_has_mac (r : record) k :
  natural_key (PDict r) = Some k → ∃ v, dict_get "mac" r = Some v.
Proof.
  simpl. destruct (dict_get "mac" r) as [v|]; [eauto | discriminate].
Qed.
End order_facts.

(** C10.  Let [ud] be the dictionary the deduplication loop built; it
    holds each key once.  With enrichment enabled, whatever each task of
    the pool observes of the service and of the shared cache, the list
    collected from the pool has one record per entry of [ud], and the
    record at position i is the one the worker returned for the i-th
    entry -- it carries the key of that entry.  The sequential loop of
    the segment script does the same. *)
Theorem enriched_records_follow_map_order
    (raw : list pyval) (ud : list (pykey * record))
    (sched : TestClient.schedule) (client_api : pykey → response)
    (pooled looped : list record) :
  unique_devices raw = Ok ud →
  TestClient.final_records true sched ud = Ok pooled →
  Segment.final_records true client_api ud = Ok looped →
  dict_wf ud ∧
  length pooled = length ud ∧
  (∀ (i : nat) k base, ud !! i = Some (k, base) →
     ∃ rec cache',
       pooled !! i = Some rec ∧ natural_key (PDict rec) = Some k ∧
       TestClient.enrich_device_worker (sched i).1 (sched i).2 (k, base)
         = Ok (rec, cache')) ∧
  length looped = length ud ∧
  (∀ (i : nat) k base, ud !! i = Some (k, base) →
     ∃ rec,
       looped !! i = Some rec ∧ natural_key (PDict rec) = Some k ∧
       Segment.enrich client_api (k, base) = Ok rec).
Proof.
  intros Hud Hpool Hloop. unfold unique_devices in Hud.
  assert (∀ k r, (k, r) ∈ ud → natural_key (PDict r) = Some k) as Hkeys.
  { eapply dedup_from_entries; [exact Hud|]. intros k r Hin. inversion Hin. }
  assert (∀ (i : nat) k base, ud !! i = Some (k, base) →
            natural_key (PDict base) = Some k) as Hkey.
  { intros i k base Hi. eapply Hkeys, list_elem_of_lookup_2, Hi. }
  split. { eapply dedup_from_wf; [exact Hud|]. apply NoDup_nil_2. }
  unfold TestClient.final_records in Hpool.
  unfold Segment.final_records in Hloop.
  destruct ud as [|d0 ud].
  { simpl in Hpool, Hloop. injection Hpool as <-. injection Hloop as <-.
    repeat split; intros i k base Hi; destruct i; discriminate. }
  cbn [andb] in Hpool, Hloop.
  apply executor_map_lookup in Hpool as [Hlen1 Hpos1].
  apply mapM_lookup in Hloop as [Hlen2 Hpos2].
  split; [exact Hlen1|]. split; [|split; [exact Hlen2|]].
  - intros i k base Hi.
    destruct (Hpos1 i (k, base) Hi) as (rec & Hrec & Hw). simpl plus in Hw.
    destruct (TestClient.enrich_device_worker (sched i).1 (sched i).2 (k, base))
      as [[rec' cache']|e] eqn:Hworker; [|discriminate].
    simpl in Hw. injection Hw as ->.
    exists rec, cache'. split; [exact Hrec|]. split; [|reflexivity].
    pose proof (Hkey i k base Hi) as Hk.
    destruct (natural_key_has_mac base k Hk) as [v Hv].
    rewrite <- Hk. apply natural_key_mac. rewrite Hv.
    eapply worker_keeps_unreserved; [exact Hworker | exact Hv | reflexivity].
  - intros i k base Hi.
    destruct (Hpos2 i (k, base) Hi) as (rec & Hrec & Hw).
    exists rec. split; [exact Hrec|]. split; [|exact Hw].
    pose proof (Hkey i k base Hi) as Hk.
    destruct (natural_key_has_mac base k Hk) as [v Hv].
    destruct (seg_base_fields_survive_enrichment _ _ _ _ Hw) as (_ & Hkeep & _).
    rewrite <- Hk. apply natural_key_mac.
    rewrite Hv. now apply Hkeep.
Qed.

Lemma enriched_records_follow_map_order_witness :
  ∃ ud pooled,
    unique_devices two_devices = Ok ud ∧
    TestClient.final_records true (λ _, (all_down, ∅)) ud = Ok pooled ∧
    length pooled = 2%nat ∧
    ∃ rec, pooled !! 1%nat = Some rec ∧
           natural_key (PDict rec) = Some (KStr "11:22:33:44:55:66").
Proof.
  set (ud := [(KStr "AA:BB:CC:DD:EE:FF", wired_session);
              (KStr "11:22:33:44:55:66",
               session_of "11:22:33:44:55:66" "10.0.0.5")]).
  assert (unique_devices two_devices = Ok ud) as Hud
    by (vm_compute; reflexivity).
  assert (∃ pooled, TestClient.final_records true (λ _, (all_down, ∅)) ud
                    = Ok pooled) as [pooled Hpool]
    by (eexists; vm_compute; reflexivity).
  assert (∃ looped, Segment.final_records true (λ _, NetworkError) ud
                    = Ok looped) as [looped Hloop]
    by (eexists; vm_compute; reflexivity).
  destruct (enriched_records_follow_map_order two_devices ud
              (λ _, (all_down, ∅)) (λ _, NetworkError) pooled looped
              Hud Hpool Hloop) as (_ & Hl & Hpos & _).
  exists ud, pooled. split; [exact Hud|]. split; [exact Hpool|].
  split; [now rewrite Hl|].
  destruct (Hpos 1%nat (KStr "11:22:33:44:55:66")
              (session_of "11:22:33:44:55:66" "10.0.0.5") eq_refl)
    as (rec & cache' & Hrec & Hk & _).
  exists rec. split; [exact Hrec | exact Hk].
Defined.

(* ===================================================================== *)
(** ** More on the Deduplicator *)
(* ===================================================================== *)

Lemma dict_set_fresh {K V} `{EqDecision K} (d : list (K * V)) k v :
  k ∉ dict_keys d → dict_set k v d = d ++ [(k, v)].
Proof.
  unfold dict_keys. induction d as [|[k0 v0] d IH]; simpl; [reflexivity|].
  rewrite not_elem_of_cons. intros [Hne Hk].
  destruct (decide (k = k0)); [contradiction|]. now rewrite IH.
Qed.

Lemma dict_set_length {K V} `{EqDecision K} (d : list (K * V)) k v :
  (length (dict_set k v d) ≤ S (length d))%nat.
Proof.
  induction d as [|[k0 v0] d IH]; simpl; [lia|].
  destruct (decide (k = k0)); simpl; lia.
Qed.

Lemma dict_set_keys_prefix {K V} `{EqDecision K} (d : list (K * V)) k v :
  dict_keys d `prefix_of` dict_keys (dict_set k v d).
Proof.
  rewrite dict_keys_set. destruct (dict_mem k d); [reflexivity|].
  now apply prefix_app_r.
Qed.

Section dedup_more.
Implicit Types (d ud : list (pykey * record)) (raw : list pyval) (k : pykey).

Lemma dedup_from_keys_prefix raw : ∀ d d',
  dedup_from d raw = Ok d' → dict_keys d `prefix_of` dict_keys d'.
Proof.
  induction raw as [|sess raw IH]; intros d d'; simpl.
  - now intros [= <-].
  - destruct (digestible sess) eqn:Hs.
    + rewrite dedup_step_digestible by assumption. cbn [mbind result_bind].
      intros Hd'. etransitivity; [|eapply IH, Hd'].
      destruct (natural_key sess); [apply dict_set_keys_prefix | reflexivity].
    + destruct (dedup_step_indigestible d sess Hs) as [e ->]. discriminate.
Qed.

Lemma dedup_from_length raw : ∀ d d',
  dedup_from d raw = Ok d' → (length d' ≤ length d + length raw)%nat.
Proof.
  induction raw as [|sess raw IH]; intros d d'; simpl.
  - intros [= <-]. lia.
  - destruct (digestible sess) eqn:Hs.
    + rewrite dedup_step_digestible by assumption. cbn [mbind result_bind].
      intros Hd'%IH.
      destruct (natural_key sess);
        [pose proof (dict_set_length d p (content sess)) |]; lia.
    + destruct (dedup_step_indigestible d sess Hs) as [e ->]. discriminate.
Qed.

Lemma last_with_key_is_Some k raw :
  is_Some (last_with_key k raw) ↔ k ∈ omap natural_key raw.
Proof.
  induction raw as [|sess raw IH]; simpl.
  - split; [intros [? [=]] | intros H; inversion H].
  - destruct (last_with_key k raw) as [r|] eqn:Hl.
    + split; [intros _ | eauto].
      destruct (natural_key sess); [right|]; apply IH; eauto.
    + destruct (decide (natural_key sess = Some k)) as [->|Hne].
      * split; [intros _; left | eauto].
      * split; [intros [? [=]]|].
        destruct (natural_key sess) as [k0|].
        -- intros [->|Hin]%elem_of_cons; [congruence|].
           apply IH in Hin as [? [=]].
        -- intros Hin. apply IH in Hin as [? [=]].
Qed.

Lemma dedup_step_entry d k r :
  natural_key (PDict r) = Some k →
  dedup_step d (PDict r) = Ok (dict_set k r d).
Proof.
  intros Hk. rewrite dedup_step_digestible.
  - now rewrite Hk.
  - eapply natural_key_digestible, Hk.
Qed.

(** Feeding the entries of a dictionary to the loop appends them. *)
Lemma dedup_from_entries_again (l : list (pykey * record)) : ∀ d,
  (∀ k r, (k, r) ∈ l → natural_key (PDict r) = Some k) →
  NoDup (dict_keys d ++ dict_keys l) →
  dedup_from d (PDict <$> dict_values l) = Ok (d ++ l).
Proof.
  unfold dict_values, dict_keys.
  induction l as [|[k r] l IH]; intros d Hkeys Hnd.
  - simpl. now rewrite app_nil_r.
  - rewrite !fmap_cons. cbn [snd]. rewrite dedup_from_cons.
    rewrite (dedup_step_entry d k r) by (apply Hkeys; left).
    cbn [mbind result_bind].
    rewrite fmap_cons in Hnd. simpl in Hnd.
    apply NoDup_app in Hnd as (Hd & Hdisj & Hl).
    apply NoDup_cons in Hl as [Hk Hl].
    rewrite dict_set_fresh by (intros Hin; apply (Hdisj k Hin); left).
    rewrite IH.
    + now rewrite <- app_assoc.
    + intros k' r' Hin. apply Hkeys. now right.
    + rewrite fmap_app. simpl. rewrite <- app_assoc. simpl.
      apply NoDup_app. split; [exact Hd|]. split.
      * intros x Hx Hx'. apply (Hdisj x Hx). exact Hx'.
      * apply NoDup_cons. split; assumption.
Qed.
End dedup_more.

(** X1.  Devices keep the place of their first appearance: when more
    records are processed after [raw1], the keys already in the
    dictionary stay where they are, in the same order, and new devices
    are only added after them. *)
Theorem dedup_order_is_first_seen
    (raw1 raw2 : list pyval) (ud1 ud : list (pykey * record)) :
  unique_devices raw1 = Ok ud1 →
  unique_devices (raw1 ++ raw2) = Ok ud →
  dict_keys ud1 `prefix_of` dict_keys ud.
Proof.
  unfold unique_devices. rewrite dedup_from_app. intros ->.
  cbn [mbind result_bind]. apply dedup_from_keys_prefix.
Qed.

Lemma dedup_order_is_first_seen_witness :
  dict_keys [(KStr "AA:BB:CC:DD:EE:FF", wired_session)] `prefix_of`
  dict_keys [(KStr "AA:BB:CC:DD:EE:FF", session_of "AA:BB:CC:DD:EE:FF" "10.0.0.9");
             (KStr "11:22:33:44:55:66", session_of "11:22:33:44:55:66" "10.0.0.5")].
Proof.
  apply (dedup_order_is_first_seen
           [PDict wired_session]
           [PDict (session_of "11:22:33:44:55:66" "10.0.0.5");
            PDict (session_of "AA:BB:CC:DD:EE:FF" "10.0.0.9")]);
    vm_compute; reflexivity.
Defined.

(** X2.  The dictionary has one entry per distinct key carried by the
    records, hence never more entries than there are records. *)
Theorem dedup_counts_distinct_keys
    (raw : list pyval) (ud : list (pykey * record)) :
  unique_devices raw = Ok ud →
  length ud = length (remove_dups (omap natural_key raw)) ∧
  (length ud ≤ length raw)%nat.
Proof.
  unfold unique_devices. intros Hud. split.
  - rewrite <- (length_fmap fst ud). apply Permutation_length.
    apply NoDup_Permutation.
    + eapply (dedup_from_wf raw [] ud Hud), NoDup_nil_2.
    + apply NoDup_remove_dups.
    + intros k. rewrite elem_of_remove_dups, <- last_with_key_is_Some.
      pose proof (dedup_from_lookup raw [] ud k Hud) as Hget.
      pose proof (dict_mem_true ud k) as Hmem. unfold dict_mem in Hmem.
      rewrite <- Hmem, Hget.
      destruct (last_with_key k raw); simpl.
      * split; eauto.
      * split; [discriminate | intros [? [=]]].
  - apply (dedup_from_length raw [] ud Hud).
Qed.

Lemma dedup_counts_distinct_keys_witness :
  length [(KStr "AA:BB:CC:DD:EE:FF", session_of "AA:BB:CC:DD:EE:FF" "10.0.0.1")]
  = length (remove_dups (omap natural_key
      [PDict (session_of "AA:BB:CC:DD:EE:FF" "10.0.0.2");
       PDict (session_of "AA:BB:CC:DD:EE:FF" "10.0.0.1")])).
Proof.
  refine (proj1 (dedup_counts_distinct_keys
            [PDict (session_of "AA:BB:CC:DD:EE:FF" "10.0.0.2");
             PDict (session_of "AA:BB:CC:DD:EE:FF" "10.0.0.1")] _ _)).
  vm_compute. reflexivity.
Defined.

(** X3.  Deduplication is idempotent: running the loop again over the
    records it kept, in the order of the dictionary, rebuilds the same
    dictionary. *)
Theorem dedup_is_idempotent (raw : list pyval) (ud : list (pykey * record)) :
  unique_devices raw = Ok ud →
  unique_devices (PDict <$> dict_values ud) = Ok ud.
Proof.
  unfold unique_devices. intros Hud.
  apply (dedup_from_entries_again ud []).
  - eapply dedup_from_entries; [exact Hud|]. intros k r Hin. inversion Hin.
  - simpl. eapply (dedup_from_wf raw [] ud Hud), NoDup_nil_2.
Qed.

Lemma dedup_is_idempotent_witness :
  unique_devices (PDict <$> dict_values
    [(KStr "AA:BB:CC:DD:EE:FF", session_of "AA:BB:CC:DD:EE:FF" "10.0.0.1")])
  = Ok [(KStr "AA:BB:CC:DD:EE:FF", session_of "AA:BB:CC:DD:EE:FF" "10.0.0.1")].
Proof.
  apply (dedup_is_idempotent
           [PDict (session_of "AA:BB:CC:DD:EE:FF" "10.0.0.2");
            PDict (session_of "AA:BB:CC:DD:EE:FF" "10.0.0.1")]).
  vm_compute. reflexivity.
Defined.

(** X4.  The first record the loop cannot digest ends it, whatever comes
    after: [AttributeError] when the record is no mapping (it has no
    [get]), [TypeError] when its truthy [mac] is a list or a mapping
    (unhashable).  Nothing of the records before it is returned. *)
Theorem dedup_raises_at_first_bad_record
    (raw1 raw2 : list pyval) (sess : pyval) :
  forallb digestible raw1 = true → digestible sess = false →
  unique_devices (raw1 ++ sess :: raw2) =
  Raise (if is_dict sess then TypeError else AttributeError).
Proof.
  intros H1 Hs. unfold unique_devices. rewrite dedup_from_app.
  destruct (dedup_from_total [] raw1 H1) as [d ->].
  cbn [mbind result_bind]. rewrite dedup_from_cons.
  destruct sess as [| | | | |r]; try reflexivity.
  simpl in Hs |- *.
  destruct (truthy (default PNone (dict_get "mac" r))); [|discriminate].
  simpl in Hs |- *.
  destruct (default PNone (dict_get "mac" r)); simpl in *;
    try discriminate; reflexivity.
Qed.

Lemma dedup_raises_at_first_bad_record_witness :
  unique_devices [PDict wired_session; PStr "oops"; PDict wired_session]
    = Raise AttributeError ∧
  unique_devices [PDict wired_session; PDict [("mac", PList [PInt 1])]]
    = Raise TypeError.
Proof.
  split.
  - apply (dedup_raises_at_first_bad_record [PDict wired_session]
             [PDict wired_session] (PStr "oops")); reflexivity.
  - apply (dedup_raises_at_first_bad_record [PDict wired_session] []
             (PDict [("mac", PList [PInt 1])])); reflexivity.
Defined.

(* ===================================================================== *)
(** ** More on the Window Paginator *)
(* ===================================================================== *)

Section loop_more.
Context (body : response → list pyval → flow (list pyval)).
Context (upstream : window → response).
Context (contribution : response → list pyval).
Context (width total_start_time : Z).

Local Abbreviation loop := (window_loop body upstream width total_start_time).
Local Abbreviation count := (window_count width total_start_time).

(** The body only ever appends its contribution, and gives the list
    back untouched when it breaks. *)
Hypothesis body_appends : ∀ resp acc,
  match body resp acc with
  | Next acc' => acc' = acc ++ contribution resp
  | Break acc' => acc' = acc ∧ contribution resp = []
  | Abort _ => True
  end.

(** A pass that returns hands back the contributions of the windows it
    queried, in the order of the queries. *)
Lemma window_loop_records fuel : ∀ acc current_to current_from r l,
  loop fuel acc current_to current_from = Some r →
  outcome r = Ok l →
  l = acc ++ concat ((contribution ∘ upstream) <$> queried r).
Proof.
  induction fuel as [|fuel IH]; intros acc current_to current_from r l;
    [discriminate|].
  simpl. destruct (total_start_time <=? current_from).
  - pose proof (body_appends (upstream (Window current_from current_to)) acc)
      as Hb.
    destruct (body _ acc) as [acc'|acc'|e].
    + destruct (loop fuel acc' current_from (current_from - width))
        as [r'|] eqn:Hr'; [|discriminate].
      simpl. intros [= <-] Hl. simpl in Hl |- *.
      rewrite (IH _ _ _ _ _ Hr' Hl), Hb, <- app_assoc. reflexivity.
    + intros [= <-] [= <-]. destruct Hb as [-> Hc]. simpl.
      rewrite Hc. simpl. now rewrite app_nil_r.
    + intros [= <-]. discriminate.
  - intros [= <-] [= <-]. simpl. now rewrite app_nil_r.
Qed.

(** The pass stops at the first window whose body does not fall
    through: the windows after it are not queried. *)
Lemma window_loop_stops before : ∀ fuel acc current_to w after,
  0 < width →
  (count current_to < fuel)%nat →
  windows_back (count current_to) width current_to = before ++ w :: after →
  (∀ w', w' ∈ before → ∀ a, goes_on (body (upstream w') a) = true) →
  goes_on (body (upstream w)
             (acc ++ concat ((contribution ∘ upstream) <$> before))) = false →
  loop fuel acc current_to (current_to - width) =
  Some (Run (ending (body (upstream w)
                       (acc ++ concat ((contribution ∘ upstream) <$> before))))
            (before ++ [w])).
Proof.
  induction before as [|w0 before IH];
    intros fuel acc current_to w after Hwidth Hfuel Hws Hgo Hstop.
  - destruct fuel as [|fuel]; [lia|].
    destruct (count current_to) as [|n] eqn:Hn; [discriminate|].
    simpl in Hws. injection Hws as <- _.
    simpl in Hstop |- *. rewrite app_nil_r in Hstop |- *.
    destruct (Z.leb_spec total_start_time (current_to - width)) as [Hle|Hlt].
    + destruct (body _ acc); [discriminate | reflexivity | reflexivity].
    + rewrite (window_count_stop width Hwidth _ _ Hlt) in Hn. discriminate.
  - destruct fuel as [|fuel]; [lia|].
    destruct (Z.leb_spec total_start_time (current_to - width)) as [Hle|Hlt].
    + rewrite (window_count_step width Hwidth _ _ Hle) in Hfuel, Hws.
      simpl in Hws. injection Hws as <- Hrest.
      simpl. destruct (Z.leb_spec total_start_time (current_to - width));
        [|lia].
      pose proof (Hgo (Window (current_to - width) current_to)
                    ltac:(left) acc) as Hnext.
      pose proof (body_appends
                    (upstream (Window (current_to - width) current_to)) acc)
        as Hb.
      destruct (body _ acc) as [acc'|acc'|e]; try discriminate. subst acc'.
      rewrite fmap_cons, concat_cons, app_assoc in Hstop.
      rewrite app_assoc.
      rewrite (IH fuel _ (current_to - width) w after Hwidth ltac:(lia) Hrest).
      * reflexivity.
      * intros w' Hw'. apply Hgo. now right.
      * exact Hstop.
    + rewrite (window_count_stop width Hwidth _ _ Hlt) in Hws. discriminate.
Qed.
End loop_more.

Section scripts_more.

Lemma request_raises_segment resp :
  request_raises resp = true →
  Segment.fetch_window resp [] = Raise RequestException.
Proof.
  destruct resp as [|status body]; [reflexivity|].
  unfold request_raises, Segment.fetch_window, raise_for_status.
  destruct ((400 <=? status) && (status <? 600)); [reflexivity|].
  destruct body; [discriminate | reflexivity].
Qed.

Lemma request_raises_sessions resp :
  request_raises resp = true →
  Sessions.request resp = Raise RequestException.
Proof.
  destruct resp as [|status body]; [reflexivity|].
  unfold request_raises, Sessions.request, raise_for_status.
  destruct ((400 <=? status) && (status <? 600)); [reflexivity|].
  destruct body; [discriminate | reflexivity].
Qed.

Lemma seg_body_appends resp acc :
  match Segment.loop_body resp acc with
  | Next acc' => acc' = acc ++ seg_contribution resp
  | Break acc' => acc' = acc ∧ seg_contribution resp = []
  | Abort _ => True
  end.
Proof.
  unfold Segment.loop_body, seg_contribution. rewrite seg_fetch_window_acc.
  destruct (Segment.fetch_window resp []) as [items|[]]; simpl; trivial.
  now rewrite app_nil_r.
Qed.

(** Whether the segment body falls through does not depend on what has
    been collected. *)
Lemma seg_goes_on resp acc :
  goes_on (Segment.loop_body resp acc) = goes_on (Segment.loop_body resp []).
Proof.
  unfold Segment.loop_body. rewrite seg_fetch_window_acc.
  destruct (Segment.fetch_window resp []) as [items|[]]; reflexivity.
Qed.

Lemma gs_collect_acc body acc :
  Sessions.collect body acc =
  (items ← Sessions.collect body []; Ok (acc ++ items)).
Proof.
  unfold Sessions.collect.
  destruct (py_get body "data" (PDict [])) as [data|]; simpl; [|reflexivity].
  destruct (py_get data "records" (PList [])) as [recs|]; simpl; [|reflexivity].
  destruct (truthy recs); simpl; [|now rewrite app_nil_r].
  apply extend_nil.
Qed.

Lemma gs_body_appends resp acc :
  match Sessions.loop_body resp acc with
  | Next acc' => acc' = acc ++ gs_contribution resp
  | Break acc' => acc' = acc ∧ gs_contribution resp = []
  | Abort _ => True
  end.
Proof.
  unfold gs_contribution, Sessions.loop_body.
  destruct (Sessions.request resp) as [body|[]]; simpl; auto.
  destruct (Sessions.error_in_body body) as [[]|]; simpl; auto.
  rewrite gs_collect_acc.
  destruct (Sessions.collect body []) as [items|]; simpl; auto.
Qed.

Lemma gs_goes_on resp acc :
  goes_on (Sessions.loop_body resp acc) = goes_on (Sessions.loop_body resp []).
Proof.
  unfold Sessions.loop_body.
  destruct (Sessions.request resp) as [body|[]]; simpl; auto.
  destruct (Sessions.error_in_body body) as [[]|]; simpl; auto.
  rewrite gs_collect_acc.
  destruct (Sessions.collect body []) as [items|]; reflexivity.
Qed.

(** A well-formed reply: the body appends the records it lists. *)
Lemma seg_lists_records resp records acc :
  lists_records resp records →
  Segment.loop_body resp acc = Next (acc ++ records).
Proof.
  intros (status & b & data & -> & Hr & Hd & HR).
  simpl in Hr. rewrite orb_false_r in Hr.
  unfold Segment.loop_body, Segment.fetch_window, raise_for_status.
  rewrite Hr. simpl. rewrite Hd. simpl. rewrite HR. simpl.
  destruct records; simpl; [now rewrite app_nil_r | reflexivity].
Qed.

Lemma seg_request_raises resp acc :
  request_raises resp = true → Segment.loop_body resp acc = Next acc.
Proof.
  intros Hr. unfold Segment.loop_body.
  now rewrite seg_fetch_window_acc, (request_raises_segment _ Hr).
Qed.

Lemma gs_lists_records resp records acc :
  lists_records resp records → no_error resp →
  Sessions.loop_body resp acc = Next (acc ++ records).
Proof.
  intros (status & b & data & -> & Hr & Hd & HR) Hne.
  simpl in Hr. rewrite orb_false_r in Hr.
  unfold Sessions.loop_body, Sessions.request, raise_for_status.
  rewrite Hr. simpl. unfold Sessions.error_in_body, Sessions.collect. simpl.
  unfold dict_mem.
  destruct (dict_get "error" b) as [e|] eqn:He; simpl.
  - rewrite (Hne status b e eq_refl He). rewrite Hd. simpl. rewrite HR. simpl.
    destruct records; simpl; [now rewrite app_nil_r | reflexivity].
  - rewrite Hd. simpl. rewrite HR. simpl.
    destruct records; simpl; [now rewrite app_nil_r | reflexivity].
Qed.

(** With a width of zero the cursor stays where it is: as long as the
    body falls through at the one window it asks for, the loop does not
    end. *)
Lemma window_loop_stands body upstream total_start_time fuel current :
  total_start_time ≤ current →
  (∀ acc, goes_on (body (upstream (Window current current)) acc) = true) →
  ∀ acc, window_loop body upstream 0 total_start_time fuel acc current current
         = None.
Proof.
  intros Hle Hgo.
  induction fuel as [|fuel IH]; intros acc; [reflexivity|].
  simpl. destruct (Z.leb_spec total_start_time current); [|lia].
  pose proof (Hgo acc) as Hnext.
  destruct (body _ acc); try discriminate.
  rewrite Z.sub_0_r, IH. reflexivity.
Qed.
End scripts_more.



Lemma tc_failed_query_skipped_witness :
  TestClient.get_sessions_time_sliced flaky 3 (minutes 60) 0 =
    Some (Run (Ok [PDict (session_of "AA:BB:CC:DD:EE:FF" "10.0.0.1")])
              [Window (minutes 30) (minutes 60); Window 0 (minutes 30)]).
Proof.
  refine (proj1 (tc_failed_query_skipped flaky 3 (minutes 60) 0 _)).
  vm_compute. lia.
Defined.

(** X6.  When the pass of the segment script returns, its result is the
    concatenation of what each queried window contributed, in the order
    of the queries (most recent window first); a window whose request
    raised a [RequestException] contributes nothing. *)
Theorem seg_pass_collects_in_window_order
    (WINDOW_MINUTES : Z) (upstream : window → response) (fuel : nat)
    (now total_start_time : Z) (r : run) (l : list pyval) :
  Segment.get_sessions_time_sliced WINDOW_MINUTES upstream fuel now
    total_start_time = Some r →
  outcome r = Ok l →
  l = concat ((seg_contribution ∘ upstream) <$> queried r) ∧
  ∀ w, request_raises (upstream w) = true → seg_contribution (upstream w) = [].
Proof.
  intros Hr Hl. split.
  - apply (window_loop_records Segment.loop_body upstream seg_contribution
             _ _ seg_body_appends _ _ _ _ _ _ Hr Hl).
  - intros w Hw. unfold seg_contribution.
    now rewrite request_raises_segment.
Qed.

Lemma seg_pass_collects_in_window_order_witness :
  [PDict (session_of "AA:BB:CC:DD:EE:FF" "10.0.0.1")] =
  concat ((seg_contribution ∘ flaky) <$>
          [Window (minutes 30) (minutes 60); Window 0 (minutes 30)]).
Proof.
  refine (proj1 (seg_pass_collects_in_window_order 30 flaky 3 (minutes 60) 0
                   (Run (Ok [PDict (session_of "AA:BB:CC:DD:EE:FF" "10.0.0.1")])
                        [Window (minutes 30) (minutes 60); Window 0 (minutes 30)])
                   _ _ _)); vm_compute; reflexivity.
Defined.

(** X7.  The loop of get-agni-sessions.py stops at the first window
    whose request raises a [RequestException]: that window is the last
    one queried, the older windows are never asked for, and the pass
    returns what the windows before it contributed. *)
Theorem sessions_pass_stops_at_first_failure
    (WINDOW_MINUTES : Z) (upstream : window → response) (fuel : nat)
    (now START_DATE : Z) (before after : list window) (w : window) :
  0 < WINDOW_MINUTES →
  (window_count (minutes WINDOW_MINUTES) START_DATE now < fuel)%nat →
  windows_back (window_count (minutes WINDOW_MINUTES) START_DATE now)
    (minutes WINDOW_MINUTES) now = before ++ w :: after →
  (∀ w', w' ∈ before → goes_on (Sessions.loop_body (upstream w') []) = true) →
  request_raises (upstream w) = true →
  Sessions.window_pass WINDOW_MINUTES upstream fuel now START_DATE =
  Some (Run (Ok (concat ((gs_contribution ∘ upstream) <$> before)))
            (before ++ [w])).
Proof.
  intros HWM Hfuel Hws Hbefore Hw.
  assert (0 < minutes WINDOW_MINUTES) as Hwidth by (unfold minutes; lia).
  assert (∀ acc, Sessions.loop_body (upstream w) acc = Break acc) as Hbreak.
  { intros acc. unfold Sessions.loop_body.
    now rewrite request_raises_sessions. }
  unfold Sessions.window_pass.
  rewrite (window_loop_stops Sessions.loop_body upstream gs_contribution
             (minutes WINDOW_MINUTES) START_DATE gs_body_appends
             before fuel [] now w after Hwidth Hfuel Hws).
  - rewrite Hbreak. reflexivity.
  - intros w' Hw' a. rewrite gs_goes_on. now apply Hbefore.
  - now rewrite Hbreak.
Qed.

Lemma sessions_pass_stops_at_first_failure_witness :
  Sessions.window_pass 30 flaky 3 (minutes 60) 0 =
  Some (Run (Ok []) [Window (minutes 30) (minutes 60)]).
Proof.
  apply (sessions_pass_stops_at_first_failure 30 flaky 3 (minutes 60) 0
           [] [Window 0 (minutes 30)] (Window (minutes 30) (minutes 60))).
  - lia.
  - vm_compute. lia.
  - vm_compute. reflexivity.
  - intros w' Hw'. inversion Hw'.
  - reflexivity.
Defined.

(** X8.  In the segment script a reply that passes the status check and
    decodes to something that is no mapping ends the pass with an
    [AttributeError]: the function raises, so the records of the windows
    before it are not returned, and the older windows are not queried.
    The test client skips the same reply. *)
Theorem seg_pass_aborts_on_wrong_shape
    (WINDOW_MINUTES : Z) (upstream : window → response) (fuel : nat)
    (now total_start_time : Z) (before after : list window) (w : window)
    (status_code : Z) (b : pyval) :
  0 < WINDOW_MINUTES →
  (window_count (minutes WINDOW_MINUTES) total_start_time now < fuel)%nat →
  windows_back (window_count (minutes WINDOW_MINUTES) total_start_time now)
    (minutes WINDOW_MINUTES) now = before ++ w :: after →
  (∀ w', w' ∈ before → goes_on (Segment.loop_body (upstream w') []) = true) →
  upstream w = Reply status_code (Some b) →
  ¬ (400 ≤ status_code < 600) → is_dict b = false →
  Segment.get_sessions_time_sliced WINDOW_MINUTES upstream fuel now
    total_start_time = Some (Run (Raise AttributeError) (before ++ [w])) ∧
  tc_contribution (upstream w) = [].
Proof.
  intros HWM Hfuel Hws Hbefore Hw Hstatus Hb.
  assert (0 < minutes WINDOW_MINUTES) as Hwidth by (unfold minutes; lia).
  assert (∀ acc, Segment.loop_body (upstream w) acc = Abort AttributeError)
    as Habort.
  { intros acc. rewrite Hw.
    unfold Segment.loop_body, Segment.fetch_window, raise_for_status.
    destruct ((400 <=? status_code) && (status_code <? 600)) eqn:E.
    - apply andb_prop in E as [E1 E2]. lia.
    - destruct b; try discriminate; reflexivity. }
  split.
  - unfold Segment.get_sessions_time_sliced.
    rewrite (window_loop_stops Segment.loop_body upstream seg_contribution
               (minutes WINDOW_MINUTES) total_start_time seg_body_appends
               before fuel [] now w after Hwidth Hfuel Hws).
    + rewrite Habort. reflexivity.
    + intros w' Hw' a. rewrite seg_goes_on. now apply Hbefore.
    + now rewrite Habort.
  - rewrite Hw. unfold tc_contribution, TestClient.fetch_window.
    destruct (status_code =? 200); [|reflexivity].
    destruct b; try discriminate; reflexivity.
Qed.

(** The service answers the oldest of two windows with a JSON array. *)
Lemma seg_pass_aborts_on_wrong_shape_witness :
  Segment.get_sessions_time_sliced 30
    (λ w, if decide (w = Window 0 (minutes 30))
          then Reply 200 (Some (PList [])) else moved_device w)
    3 (minutes 60) 0 =
  Some (Run (Raise AttributeError)
            [Window (minutes 30) (minutes 60); Window 0 (minutes 30)]).
Proof.
  refine (proj1 (seg_pass_aborts_on_wrong_shape 30
            (λ w, if decide (w = Window 0 (minutes 30))
                  then Reply 200 (Some (PList [])) else moved_device w)
            3 (minutes 60) 0 [Window (minutes 30) (minutes 60)] []
            (Window 0 (minutes 30)) 200 (PList []) _ _ _ _ _ _ _)).
  - lia.
  - vm_compute. lia.
  - vm_compute. reflexivity.
  - intros w' Hw'. apply list_elem_of_singleton in Hw' as ->. reflexivity.
  - reflexivity.
  - lia.
  - reflexivity.
Defined.

(** X9.  A window width of zero never lets the loops of the segment
    script and of get-agni-sessions.py end: the cursor does not move, so
    the one window from [now] to [now] is asked for again and again, and
    as long as the reply to it lets the body fall through, the loop is
    still running after any number of turns. *)
Theorem zero_width_never_ends
    (upstream : window → response) (fuel : nat) (now total_start_time : Z) :
  total_start_time ≤ now →
  (request_raises (upstream (Window now now)) = true ∨
   (∃ records, lists_records (upstream (Window now now)) records) →
   Segment.get_sessions_time_sliced 0 upstream fuel now total_start_time = None) ∧
  (no_error (upstream (Window now now)) →
   (∃ records, lists_records (upstream (Window now now)) records) →
   Sessions.window_pass 0 upstream fuel now total_start_time = None).
Proof.
  intros Hle. split.
  - intros Hseg. unfold Segment.get_sessions_time_sliced.
    change (minutes 0) with 0. rewrite Z.sub_0_r.
    apply window_loop_stands; [exact Hle|]. intros acc.
    destruct Hseg as [Hraise | [records Hrec]].
    + now rewrite (seg_request_raises _ acc Hraise).
    + now rewrite (seg_lists_records _ _ acc Hrec).
  - intros Hne [records Hrec]. unfold Sessions.window_pass.
    change (minutes 0) with 0. rewrite Z.sub_0_r.
    apply window_loop_stands; [exact Hle|]. intros acc.
    now rewrite (gs_lists_records _ _ acc Hrec Hne).
Qed.

Lemma zero_width_never_ends_witness :
  Segment.get_sessions_time_sliced 0 quiet 1000 (minutes 60) 0 = None ∧
  Sessions.window_pass 0 quiet 1000 (minutes 60) 0 = None.
Proof.
  assert (0 ≤ minutes 60) as Hle by (unfold minutes; lia).
  assert (∃ records,
            lists_records (quiet (Window (minutes 60) (minutes 60))) records)
    as Hrec.
  { exists []. now exists 200, [("data", PDict [("records", PList [])])],
                 [("records", PList [])]. }
  assert (no_error (quiet (Window (minutes 60) (minutes 60)))) as Hne.
  { intros status b e [= _ <-]. discriminate. }
  destruct (zero_width_never_ends quiet 1000 (minutes 60) 0 Hle) as [Hseg Hgs].
  split; [apply Hseg; now right | now apply Hgs].
Defined.

(* ===================================================================== *)
(** ** More on the Enrichment Merger *)
(* ===================================================================== *)

Section merge_more.
Implicit Types (rec comb base cd : record) (x k a : string) (v : pyval).

Lemma dict_keys_pop {V} (d : list (string * V)) k (dflt : V) :
  dict_keys (dict_pop k dflt d).2 `sublist_of` dict_keys d.
Proof.
  unfold dict_pop. destruct (dict_get k d); simpl; [|reflexivity].
  apply dict_keys_del.
Qed.

Lemma dict_del_gone {V} (d : list (string * V)) k :
  dict_wf d → k ∉ dict_keys (dict_del k d).
Proof.
  unfold dict_wf, dict_keys. induction d as [|[k0 v0] d IH].
  - intros _. apply not_elem_of_nil.
  - rewrite fmap_cons. intros [Hk0 Hd]%NoDup_cons. cbn [dict_del].
    destruct (decide (k = k0)) as [->|Hne]; [exact Hk0|].
    rewrite fmap_cons. apply not_elem_of_cons. split; [exact Hne | now apply IH].
Qed.

Lemma dict_pop_gone {V} (d : list (string * V)) k (dflt : V) :
  dict_wf d → k ∉ dict_keys (dict_pop k dflt d).2.
Proof.
  intros Hwf. unfold dict_pop. destruct (dict_get k d) eqn:Hk; simpl.
  - now apply dict_del_gone.
  - now apply dict_get_None.
Qed.

(** The merge loop leaves a present column alone unless it is the alias
    of one of the fields it merges. *)
Lemma merge_remaining_present cd : ∀ comb x,
  dict_mem x comb = true →
  (∀ k, k ∈ dict_keys cd → "client_" +:+ k ≠ x) →
  dict_get x (merge_remaining cd comb) = dict_get x comb.
Proof.
  unfold merge_remaining, dict_keys.
  induction cd as [|[k v] cd IH]; intros comb x Hmem Hal; [reflexivity|].
  change (foldl merge_field comb ((k, v) :: cd))
    with (foldl merge_field (merge_field comb (k, v)) cd).
  rewrite IH.
  - unfold merge_field, dict_mem in *.
    destruct (dict_get k comb) eqn:Hk; simpl.
    + apply dict_get_set_ne. intros ->. eapply Hal; [left | reflexivity].
    + apply dict_get_set_ne. intros ->. rewrite Hk in Hmem. discriminate.
  - now apply merge_field_mem.
  - intros k' Hk'. apply Hal. now right.
Qed.

(** It leaves an absent column absent unless a field of that name, or
    with that alias, is merged. *)
Lemma merge_remaining_absent cd : ∀ comb x,
  x ∉ dict_keys cd →
  (∀ k, k ∈ dict_keys cd → "client_" +:+ k ≠ x) →
  dict_get x (merge_remaining cd comb) = dict_get x comb.
Proof.
  unfold merge_remaining, dict_keys.
  induction cd as [|[k v] cd IH]; intros comb x Hx Hal; [reflexivity|].
  rewrite fmap_cons in Hx. apply not_elem_of_cons in Hx as [Hne Hx].
  change (foldl merge_field comb ((k, v) :: cd))
    with (foldl merge_field (merge_field comb (k, v)) cd).
  rewrite IH.
  - unfold merge_field.
    destruct (dict_mem k comb); simpl; apply dict_get_set_ne.
    + intros ->. eapply Hal; [left | reflexivity].
    + exact Hne.
  - exact Hx.
  - intros k' Hk'. apply Hal. now right.
Qed.

Lemma client_attr_inj a b : "client_attr_" +:+ a = "client_attr_" +:+ b → a = b.
Proof. intros H. cbn in H. now injection H. Qed.

(** Every attribute is written under [client_attr_<name>]. *)
Lemma flatten_attributes_sets attrs : ∀ comb a v,
  dict_wf attrs → dict_get a attrs = Some v →
  dict_get ("client_attr_" +:+ a)
    (foldl (λ rec '(k, v), dict_set ("client_attr_" +:+ k) v rec) comb attrs)
  = Some v.
Proof.
  unfold dict_wf, dict_keys.
  induction attrs as [|[k0 v0] attrs IH]; intros comb a v Hwf Hget;
    [discriminate|].
  rewrite fmap_cons in Hwf. apply NoDup_cons in Hwf as [Hk0 Hwf].
  simpl in Hget |- *. destruct (decide (a = k0)) as [->|Hne].
  - injection Hget as ->. clear IH.
    assert (∀ comb, dict_get ("client_attr_" +:+ k0) comb = Some v →
              dict_get ("client_attr_" +:+ k0)
                (foldl (λ rec '(k, v), dict_set ("client_attr_" +:+ k) v rec)
                       comb attrs) = Some v) as Hstay.
    { clear comb. induction attrs as [|[k1 v1] attrs IH]; intros comb Hc;
        [exact Hc|].
      rewrite fmap_cons in Hk0, Hwf.
      apply not_elem_of_cons in Hk0 as [Hne Hk0].
      apply NoDup_cons in Hwf as [_ Hwf].
      simpl. apply IH; [exact Hk0 | exact Hwf|].
      rewrite dict_get_set_ne; [exact Hc|].
      intros E%client_attr_inj. simpl in Hne. congruence. }
    apply Hstay, dict_get_set_eq.
  - now apply IH.
Qed.

Lemma client_attr_ne_cert a :
  "client_attr_" +:+ a ≠ "cert_expiry" ∧ "client_attr_" +:+ a ≠ "cert_subject"
  ∧ "client_attr_" +:+ a ≠ "cert_issuer".
Proof. repeat split; intros H; cbn in H; discriminate. Qed.

(** The shape of a merge that returned: the remaining fields are merged
    into the record left by the attributes and the certificate. *)
Lemma merge_client_data_inv cert_key cert_col cd comb rec :
  merge_client_data cert_key cert_col (PDict cd) comb = Ok rec →
  cd ≠ [] →
  let p1 := dict_pop "attributes" (PDict []) cd in
  let p2 := dict_pop "certificate" PNone p1.2 in
  ∃ comb1 comb2,
    (if truthy p1.1 then flatten_attributes p1.1 comb else Ok comb) = Ok comb1 ∧
    comb2 = (if truthy p2.1 && is_dict p2.1
             then dict_set "cert_expiry"
                    (default PNone (match p2.1 with
                                    | PDict c => dict_get "expiryDate" c
                                    | _ => None end))
                    (dict_set cert_col
                       (default PNone (match p2.1 with
                                       | PDict c => dict_get cert_key c
                                       | _ => None end)) comb1)
             else comb1) ∧
    rec = merge_remaining p2.2 comb2.
Proof.
  intros Hrec Hne. cbv zeta. unfold merge_client_data in Hrec.
  assert (truthy (PDict cd) = true) as Ht
    by (destruct cd; [now contradict Hne | reflexivity]).
  rewrite Ht in Hrec.
  destruct (dict_pop "attributes" (PDict []) cd) as [attrs cd1].
  cbn [fst snd].
  destruct (dict_pop "certificate" PNone cd1) as [cert cd2].
  cbn [fst snd].
  destruct (if truthy attrs then flatten_attributes attrs comb else Ok comb)
    as [comb1|e]; [|discriminate].
  exists comb1. eexists. split; [reflexivity|]. split; [reflexivity|].
  cbn [mbind result_bind] in Hrec.
  destruct (truthy cert && is_dict cert) eqn:Hc.
  - destruct cert; try (rewrite andb_false_r in Hc; discriminate).
    simpl in Hrec. now injection Hrec as <-.
  - simpl in Hrec. now injection Hrec as <-.
Qed.

(** The nested objects of the identity data leave no column of their
    own name. *)
Lemma merge_client_data_nested cert_key cert_col client_data comb rec x :
  merge_client_data cert_key cert_col client_data comb = Ok rec →
  (∀ cd, client_data = PDict cd → dict_wf cd) →
  x = "attributes" ∨ x = "certificate" →
  cert_col = "cert_subject" ∨ cert_col = "cert_issuer" →
  dict_get x rec = dict_get x comb.
Proof.
  intros Hrec Hwf Hx Hcol.
  destruct (truthy client_data) eqn:Ht.
  2:{ unfold merge_client_data in Hrec. rewrite Ht in Hrec.
      now injection Hrec as <-. }
  destruct client_data as [| | | | |cd];
    try (unfold merge_client_data in Hrec; rewrite Ht in Hrec; discriminate).
  specialize (Hwf cd eq_refl).
  assert (cd ≠ []) as Hne by (intros ->; discriminate).
  destruct (merge_client_data_inv _ _ _ _ _ Hrec Hne)
    as (comb1 & comb2 & H1 & -> & ->).
  pose proof (dict_pop_wf cd "attributes" (PDict []) Hwf) as Hwf1.
  pose proof (dict_pop_gone cd "attributes" (PDict []) Hwf) as Hg1.
  pose proof (dict_pop_gone _ "certificate" PNone Hwf1) as Hg2.
  pose proof (dict_keys_pop (dict_pop "attributes" (PDict []) cd).2
                "certificate" PNone) as Hsub.
  assert (String.prefix "client_" x = false) as Hpre
    by (destruct Hx as [-> | ->]; reflexivity).
  rewrite merge_remaining_absent.
  - assert (dict_get x comb1 = dict_get x comb) as <-.
    { destruct (truthy (dict_pop "attributes" (PDict []) cd).1).
      - eapply flatten_attributes_get; eassumption.
      - now injection H1 as <-. }
    destruct (truthy _ && is_dict _); [|reflexivity].
    rewrite !dict_get_set_ne; [reflexivity | |].
    + destruct Hx as [-> | ->], Hcol as [-> | ->]; discriminate.
    + destruct Hx as [-> | ->]; discriminate.
  - destruct Hx as [-> | ->]; [|exact Hg2].
    intros Hin. apply Hg1. eapply elem_of_sublist; eassumption.
  - intros k _. apply not_eq_sym. now apply not_prefixed_ne_alias.
Qed.
End merge_more.

Section merge_columns.
Implicit Types (rec comb base cd attrs cert : record) (x k a : string) (v : pyval).

Lemma merge_client_data_attr cert_key cert_col cd comb rec attrs a v :
  merge_client_data cert_key cert_col (PDict cd) comb = Ok rec →
  cert_col = "cert_subject" ∨ cert_col = "cert_issuer" →
  dict_wf cd → dict_get "attributes" cd = Some (PDict attrs) →
  dict_wf attrs → dict_get a attrs = Some v →
  "attr_" +:+ a ∉ dict_keys cd →
  dict_get ("client_attr_" +:+ a) rec = Some v.
Proof.
  intros Hrec Hcol Hwf Hattrs Hwfa Ha Hclash.
  assert (cd ≠ []) as Hne by (intros ->; discriminate).
  destruct (merge_client_data_inv _ _ _ _ _ Hrec Hne)
    as (comb1 & comb2 & H1 & Hcomb2 & ->).
  pose proof (dict_keys_pop cd "attributes" (PDict [])) as Hsub1.
  pose proof (dict_keys_pop (dict_pop "attributes" (PDict []) cd).2
                "certificate" PNone) as Hsub2.
  assert ((dict_pop "attributes" (PDict []) cd).1 = PDict attrs) as Hp1
    by (unfold dict_pop; now rewrite Hattrs).
  rewrite Hp1 in H1.
  assert (truthy (PDict attrs) = true) as Ht
    by (destruct attrs; [discriminate | reflexivity]).
  rewrite Ht in H1. simpl in H1. injection H1 as <-.
  pose proof (flatten_attributes_sets attrs comb a v Hwfa Ha) as Hset.
  destruct (client_attr_ne_cert a) as (He & Hs & Hi).
  assert (dict_get ("client_attr_" +:+ a) comb2 = Some v) as Hc2.
  { rewrite Hcomb2. destruct (truthy _ && is_dict _); [|exact Hset].
    rewrite !dict_get_set_ne; [exact Hset | | exact He].
    destruct Hcol as [-> | ->]; assumption. }
  rewrite merge_remaining_present; [exact Hc2 | |].
  - unfold dict_mem. now rewrite Hc2.
  - intros k Hk E. apply Hclash.
    change ("client_attr_" +:+ a) with ("client_" +:+ ("attr_" +:+ a)) in E.
    apply alias_inj in E. subst k.
    eapply elem_of_sublist; [|exact Hsub1].
    eapply elem_of_sublist; [exact Hk | exact Hsub2].
Qed.

Lemma merge_client_data_cert cert_key cert_col cd comb rec cert :
  merge_client_data cert_key cert_col (PDict cd) comb = Ok rec →
  cert_col = "cert_subject" ∨ cert_col = "cert_issuer" →
  dict_get "certificate" cd = Some (PDict cert) → cert ≠ [] →
  dict_get "cert_expiry" rec = Some (default PNone (dict_get "expiryDate" cert)) ∧
  dict_get cert_col rec = Some (default PNone (dict_get cert_key cert)).
Proof.
  intros Hrec Hcol Hcert Hnec.
  assert (cd ≠ []) as Hne by (intros ->; discriminate).
  destruct (merge_client_data_inv _ _ _ _ _ Hrec Hne)
    as (comb1 & comb2 & _ & Hcomb2 & ->).
  assert ((dict_pop "certificate" PNone
             (dict_pop "attributes" (PDict []) cd).2).1 = PDict cert) as Hp2.
  { unfold dict_pop at 1.
    rewrite (dict_pop_get cd "certificate" "attributes" (PDict [])), Hcert
      by discriminate. reflexivity. }
  rewrite Hp2 in Hcomb2.
  assert (truthy (PDict cert) && is_dict (PDict cert) = true) as Ht
    by (destruct cert; [now contradict Hnec | reflexivity]).
  rewrite Ht in Hcomb2.
  assert (cert_col ≠ "cert_expiry") as Hce
    by (destruct Hcol as [-> | ->]; discriminate).
  assert (String.prefix "client_" cert_col = false) as Hpre
    by (destruct Hcol as [-> | ->]; reflexivity).
  split.
  - rewrite merge_remaining_present.
    + rewrite Hcomb2. apply dict_get_set_eq.
    + rewrite Hcomb2. unfold dict_mem. now rewrite dict_get_set_eq.
    + intros k _. apply not_eq_sym. now apply not_prefixed_ne_alias.
  - rewrite merge_remaining_present.
    + rewrite Hcomb2, dict_get_set_ne by exact Hce. apply dict_get_set_eq.
    + rewrite Hcomb2. unfold dict_mem.
      now rewrite dict_get_set_ne, dict_get_set_eq by exact Hce.
    + intros k _. apply not_eq_sym. now apply not_prefixed_ne_alias.
Qed.

(** What a worker does to the cache: nothing, or one store under the
    key of its switch id, on top of what the others have stored since it
    missed that key. *)
Lemma enrich_device_worker_cache env cache cache' mac base rec :
  TestClient.enrich_device_worker env cache (mac, base) = Ok (rec, cache') →
  cache' = cache ∨
  ∃ (key : pykey) name,
    to_key (default PNone (dict_get "nadID" base)) = Ok key ∧
    cache !! key = None ∧
    dict_get "switch_name" rec = Some name ∧
    cache' = <[key:=name]> (TestClient.stores (TestClient.stored_meanwhile env) cache).
Proof.
  intros Hw.
  destruct (truthy (default PNone (dict_get "nadID" base))) eqn:Hnad.
  - apply enrich_device_worker_inv in Hw as (name & Hm & Hcall).
    destruct (Hcall Hnad) as (c & Hc & <- & <-).
    destruct (get_nad_name_cache _ _ _ _ _ Hc)
      as [Heq | (key & Hkey & Hnone & _ & Heq)]; [now left|].
    right. exists key, (TestClient.returned c).
    split; [exact Hkey|]. split; [exact Hnone|]. split; [|exact Heq].
    eapply merge_client_data_keeps; [exact Hm | reflexivity|].
    now apply with_switch_columns_name.
  - left. unfold TestClient.enrich_device_worker in Hw. rewrite Hnad in Hw.
    simpl in Hw. destruct (merge_client_data _ _ _ _); [|discriminate].
    simpl in Hw. now injection Hw as _ <-.
Qed.
End merge_columns.

(** X10.  The nested [attributes] and [certificate] objects of the
    identity data never become columns of their own: in the record the
    worker (and the loop of the segment script) returns, [attributes]
    and [certificate] read exactly as in the base record. *)
Theorem nested_identity_objects_leave_no_column
    (env : TestClient.lookups) (cache cache' : gmap pykey pyval)
    (client_api : pykey → response) (mac : pykey) (base rec rec' : record) :
  TestClient.enrich_device_worker env cache (mac, base) = Ok (rec, cache') →
  Segment.enrich client_api (mac, base) = Ok rec' →
  (∀ cd, get_client_details (TestClient.client_reply env) mac = PDict cd →
         dict_wf cd) →
  (∀ cd, get_client_details (client_api mac) mac = PDict cd → dict_wf cd) →
  dict_get "attributes" rec = dict_get "attributes" base ∧
  dict_get "certificate" rec = dict_get "certificate" base ∧
  dict_get "attributes" rec' = dict_get "attributes" base ∧
  dict_get "certificate" rec' = dict_get "certificate" base.
Proof.
  intros (name & Hm & _)%enrich_device_worker_inv Hseg Hwf Hwf'.
  unfold Segment.enrich in Hseg. unfold TestClient.get_client_info in Hm.
  repeat split.
  - rewrite (merge_client_data_nested _ _ _ _ _ "attributes" Hm); auto.
    now apply with_switch_columns_other.
  - rewrite (merge_client_data_nested _ _ _ _ _ "certificate" Hm); auto.
    now apply with_switch_columns_other.
  - apply (merge_client_data_nested _ _ _ _ _ "attributes" Hseg); eauto.
  - apply (merge_client_data_nested _ _ _ _ _ "certificate" Hseg); eauto.
Qed.

Lemma rich_worker :
  ∃ rec, TestClient.enrich_device_worker rich_env ∅
           (KStr "AA:BB:CC:DD:EE:FF", wired_session)
         = Ok (rec, <[KStr "n1" := PStr "sw-1"]> ∅).
Proof. eexists. vm_compute. reflexivity. Defined.

Lemma rich_identity_wf cd :
  get_client_details rich_reply (KStr "AA:BB:CC:DD:EE:FF") = PDict cd →
  dict_wf cd.
Proof. intros [= <-]. unfold dict_wf. compute_done. Defined.

Lemma nested_identity_objects_leave_no_column_witness :
  ∃ rec, TestClient.enrich_device_worker rich_env ∅
           (KStr "AA:BB:CC:DD:EE:FF", wired_session)
         = Ok (rec, <[KStr "n1" := PStr "sw-1"]> ∅) ∧
         dict_get "attributes" rec = None ∧ dict_get "certificate" rec = None.
Proof.
  destruct rich_worker as [rec Hrec].
  assert (∃ rec', Segment.enrich (λ _, rich_reply)
                    (KStr "AA:BB:CC:DD:EE:FF", wired_session) = Ok rec')
    as [rec' Hrec'] by (eexists; vm_compute; reflexivity).
  destruct (nested_identity_objects_leave_no_column rich_env ∅ _
              (λ _, rich_reply) _ wired_session rec rec' Hrec Hrec'
              rich_identity_wf rich_identity_wf) as (H1 & H2 & _).
  exists rec. split; [exact Hrec|]. split; [exact H1 | exact H2].
Defined.

(** X11.  Every entry of the [attributes] mapping of the identity data
    is a column of the enriched record, named [client_attr_<name>] and
    holding the attribute's value, unless the identity data also has a
    top-level field called [attr_<name>] (whose alias would be the same
    column). *)
Theorem attributes_become_client_attr_columns
    (env : TestClient.lookups) (cache cache' : gmap pykey pyval) (mac : pykey)
    (base rec cd attrs : record) (a : string) (v : pyval) :
  TestClient.enrich_device_worker env cache (mac, base) = Ok (rec, cache') →
  TestClient.get_client_info (TestClient.client_reply env) mac = PDict cd →
  dict_wf cd → dict_get "attributes" cd = Some (PDict attrs) →
  dict_wf attrs → dict_get a attrs = Some v →
  "attr_" +:+ a ∉ dict_keys cd →
  dict_get ("client_attr_" +:+ a) rec = Some v.
Proof.
  intros (name & Hm & _)%enrich_device_worker_inv Hcd Hwf Hattrs Hwfa Ha Hclash.
  rewrite Hcd in Hm.
  eapply merge_client_data_attr; eauto.
Qed.

Lemma attributes_become_client_attr_columns_witness :
  ∃ rec, TestClient.enrich_device_worker rich_env ∅
           (KStr "AA:BB:CC:DD:EE:FF", wired_session)
         = Ok (rec, <[KStr "n1" := PStr "sw-1"]> ∅) ∧
         dict_get "client_attr_vlan" rec = Some (PInt 30).
Proof.
  destruct rich_worker as [rec Hrec]. exists rec. split; [exact Hrec|].
  apply (attributes_become_client_attr_columns rich_env ∅ _
           (KStr "AA:BB:CC:DD:EE:FF") wired_session rec rich_identity
           [("vlan", PInt 30)] "vlan" (PInt 30) Hrec);
    try reflexivity; unfold dict_wf, dict_keys; compute_done.
Defined.

(** X12.  When the identity data has a [certificate] that is a non-empty
    mapping, the enriched record has the columns [cert_expiry] and
    [cert_subject], holding the certificate's [expiryDate] and [subject]
    -- or null when the certificate lacks that entry. *)
Theorem certificate_columns
    (env : TestClient.lookups) (cache cache' : gmap pykey pyval) (mac : pykey)
    (base rec cd cert : record) :
  TestClient.enrich_device_worker env cache (mac, base) = Ok (rec, cache') →
  TestClient.get_client_info (TestClient.client_reply env) mac = PDict cd →
  dict_get "certificate" cd = Some (PDict cert) → cert ≠ [] →
  dict_get "cert_expiry" rec = Some (default PNone (dict_get "expiryDate" cert)) ∧
  dict_get "cert_subject" rec = Some (default PNone (dict_get "subject" cert)).
Proof.
  intros (name & Hm & _)%enrich_device_worker_inv Hcd Hcert Hne.
  rewrite Hcd in Hm.
  eapply merge_client_data_cert; eauto.
Qed.

Lemma certificate_columns_witness :
  ∃ rec, TestClient.enrich_device_worker rich_env ∅
           (KStr "AA:BB:CC:DD:EE:FF", wired_session)
         = Ok (rec, <[KStr "n1" := PStr "sw-1"]> ∅) ∧
         dict_get "cert_expiry" rec = Some PNone ∧
         dict_get "cert_subject" rec = Some (PStr "CN=laptop").
Proof.
  destruct rich_worker as [rec Hrec]. exists rec. split; [exact Hrec|].
  apply (certificate_columns rich_env ∅ _ (KStr "AA:BB:CC:DD:EE:FF")
           wired_session rec rich_identity [("subject", PStr "CN=laptop")] Hrec);
    try reflexivity.
  discriminate.
Defined.

(** X13.  The switch columns hold what the lookups returned, whatever
    the identity data says: with a truthy [nadID] the column
    [switch_name] is the value [get_nad_name] returned, with a truthy
    [authReqID] the column [switch_interface] is the value
    [get_session_details] returned, and a field [switch_name] of the
    identity data is stored as [client_switch_name]. *)
Theorem switch_columns_hold_lookup_results
    (env : TestClient.lookups) (cache cache' : gmap pykey pyval) (mac : pykey)
    (base rec : record) :
  let nad_id := default PNone (dict_get "nadID" base) in
  let auth_req_id := default PNone (dict_get "authReqID" base) in
  TestClient.enrich_device_worker env cache (mac, base) = Ok (rec, cache') →
  (truthy nad_id = true →
   ∃ c, TestClient.get_nad_name (TestClient.nad_reply env)
          (TestClient.stored_meanwhile env) nad_id cache = Ok c ∧
        dict_get "switch_name" rec = Some (TestClient.returned c)) ∧
  (truthy auth_req_id = true →
   dict_get "switch_interface" rec =
   Some (TestClient.get_session_details (TestClient.details_reply env)
           auth_req_id)) ∧
  (∀ cd v, truthy nad_id = true →
     TestClient.get_client_info (TestClient.client_reply env) mac = PDict cd →
     dict_wf cd → dict_get "switch_name" cd = Some v →
     dict_get "client_switch_name" rec = Some v).
Proof.
  intros nad_id auth_req_id (name & Hm & Hnad)%enrich_device_worker_inv.
  split; [|split].
  - intros Ht. destruct (Hnad Ht) as (c & Hc & <- & _).
    exists c. split; [exact Hc|].
    eapply merge_client_data_keeps; [exact Hm | reflexivity|].
    now apply with_switch_columns_name.
  - intros Ht.
    eapply merge_client_data_keeps; [exact Hm | reflexivity|].
    now apply with_switch_columns_port.
  - intros cd v Ht Hcd Hwf Hv. rewrite Hcd in Hm.
    apply (merge_client_data_alias _ _ _ _ _ "switch_name" v Hm Hwf);
      try discriminate; [exact Hv|].
    unfold dict_mem. now rewrite with_switch_columns_name.
Qed.

Lemma switch_columns_hold_lookup_results_witness :
  ∃ rec, TestClient.enrich_device_worker rich_env ∅
           (KStr "AA:BB:CC:DD:EE:FF", wired_session)
         = Ok (rec, <[KStr "n1" := PStr "sw-1"]> ∅) ∧
         dict_get "switch_interface" rec = Some (PStr "") ∧
         dict_get "client_switch_name" rec = Some (PStr "from-identity").
Proof.
  destruct rich_worker as [rec Hrec]. exists rec. split; [exact Hrec|].
  destruct (switch_columns_hold_lookup_results rich_env ∅ _
              (KStr "AA:BB:CC:DD:EE:FF") wired_session rec Hrec)
    as (_ & Hport & Halias).
  split; [exact (Hport eq_refl)|].
  apply (Halias rich_identity); try reflexivity.
  unfold dict_wf. compute_done.
Defined.

(** X14.  What a worker does to the shared cache.  It removes nothing
    and stores at most once, under the key of its own device's switch
    id and after having missed that key: the cache right after its last
    access is the cache it found, or the cache as the other workers have
    left it in the meantime with the worker's entry on top, the value
    stored being the [switch_name] of the record it returns.  The store
    is made without a second test, so it replaces an entry another
    worker has stored for that key since the miss.  A worker that runs
    alone leaves a cache that contains the one it found. *)
Theorem worker_stores_only_its_own_key
    (env : TestClient.lookups) (cache cache' : gmap pykey pyval) (mac : pykey)
    (base rec : record) :
  TestClient.enrich_device_worker env cache (mac, base) = Ok (rec, cache') →
  (cache' = cache ∨
   ∃ k name,
     to_key (default PNone (dict_get "nadID" base)) = Ok k ∧
     cache !! k = None ∧
     dict_get "switch_name" rec = Some name ∧
     cache' = <[k:=name]>
                (TestClient.stores (TestClient.stored_meanwhile env) cache)) ∧
  (∀ k, is_Some (cache !! k) → is_Some (cache' !! k)) ∧
  (∀ k, to_key (default PNone (dict_get "nadID" base)) ≠ Ok k →
        cache' !! k = cache !! k ∨
        cache' !! k =
          TestClient.stores (TestClient.stored_meanwhile env) cache !! k) ∧
  (TestClient.stored_meanwhile env = [] → cache ⊆ cache').
Proof.
  intros Hw. pose proof (enrich_device_worker_cache _ _ _ _ _ _ Hw) as Hc.
  split; [exact Hc|].
  destruct Hc as [-> | (key & name & Hkey & Hnone & _ & ->)].
  - split; [trivial|]. split; [now left | reflexivity].
  - split; [|split].
    + intros k [v Hv]. destruct (decide (k = key)) as [->|Hne].
      * rewrite lookup_insert_eq. eauto.
      * rewrite lookup_insert_ne by congruence.
        destruct (stores_lookup (TestClient.stored_meanwhile env) cache k v Hv)
          as (v' & -> & _). eauto.
    + intros k Hk. right. apply lookup_insert_ne. congruence.
    + intros ->. now apply insert_subseteq.
Qed.

Lemma worker_stores_only_its_own_key_witness :
  ∃ rec cache',
    TestClient.enrich_device_worker
      (TestClient.Lookups (switch_named "sw-1") NetworkError NetworkError
         [(KStr "n1", PStr "sw-0"); (KStr "n2", PStr "sw-2")]) ∅
      (KStr "AA:BB:CC:DD:EE:FF", wired_session) = Ok (rec, cache') ∧
    (cache' = ∅ ∨
     ∃ k name,
       to_key (default PNone (dict_get "nadID" wired_session)) = Ok k ∧
       (∅ : gmap pykey pyval) !! k = None ∧
       dict_get "switch_name" rec = Some name ∧
       cache' = <[k:=name]>
                  (TestClient.stores
                     [(KStr "n1", PStr "sw-0"); (KStr "n2", PStr "sw-2")] ∅)).
Proof.
  assert (∃ r, TestClient.enrich_device_worker
                 (TestClient.Lookups (switch_named "sw-1") NetworkError NetworkError
                    [(KStr "n1", PStr "sw-0"); (KStr "n2", PStr "sw-2")]) ∅
                 (KStr "AA:BB:CC:DD:EE:FF", wired_session) = Ok r)
    as [[rec cache'] Hr] by (eexists; reflexivity).
  exists rec, cache'. split; [exact Hr|].
  exact (proj1 (worker_stores_only_its_own_key _ _ _ _ _ _ Hr)).
Defined.

(* ===================================================================== *)
(** ** More on the Export Projector *)
(* ===================================================================== *)

Section order_of_strings.

Lemma ascii_compare_refl a : Ascii.compare a a = Eq.
Proof. unfold Ascii.compare. apply N.compare_refl. Qed.

Lemma ascii_compare_trans a b c o :
  Ascii.compare a b = o → Ascii.compare b c = o → Ascii.compare a c = o.
Proof.
  unfold Ascii.compare. destruct o; intros H1 H2.
  - apply N.compare_eq in H1, H2. rewrite H1, H2. apply N.compare_refl.
  - rewrite N.compare_lt_iff in *. lia.
  - rewrite N.compare_gt_iff in *. lia.
Qed.

Lemma string_compare_le_trans s1 : ∀ s2 s3,
  String.compare s1 s2 ≠ Gt → String.compare s2 s3 ≠ Gt →
  String.compare s1 s3 ≠ Gt.
Proof.
  induction s1 as [|a1 s1 IH]; intros [|a2 s2] [|a3 s3]; simpl;
    try congruence.
  destruct (Ascii.compare a1 a2) eqn:E12; try congruence.
  - apply Ascii.compare_eq_iff in E12. subst a2.
    destruct (Ascii.compare a1 a3); try congruence. apply IH.
  - destruct (Ascii.compare a2 a3) eqn:E23; try congruence.
    + apply Ascii.compare_eq_iff in E23. subst a3. rewrite E12. congruence.
    + rewrite (ascii_compare_trans _ _ _ Lt E12 E23). congruence.
Qed.

Global Instance str_le_trans : Transitive str_le.
Proof.
  intros s1 s2 s3. unfold str_le, String.leb. intros H1 H2.
  pose proof (string_compare_le_trans s1 s2 s3) as Ht.
  destruct (String.compare s1 s2); try discriminate;
    destruct (String.compare s2 s3); try discriminate;
    destruct (String.compare s1 s3); try reflexivity;
    exfalso; apply Ht; congruence.
Qed.

Global Instance str_le_antisym : AntiSymm (=) str_le.
Proof. intros s1 s2. apply String.leb_antisym. Qed.

Global Instance str_le_total : Total str_le.
Proof. intros s1 s2. apply String.leb_total. Qed.

(** Sorting does not depend on the order the keys come in. *)
Lemma py_sorted_unique keys keys' :
  keys ≡ₚ keys' → py_sorted keys = py_sorted keys'.
Proof.
  intros Hp. unfold py_sorted. apply (Sorted_unique str_le).
  - apply Sorted_merge_sort, _.
  - apply Sorted_merge_sort, _.
  - now rewrite !merge_sort_Permutation.
Qed.
End order_of_strings.

Section export_more.
Implicit Types (l keys priority : list string) (c col : string).

Lemma list_remove_Permutation c l : c ∈ l → c :: list_remove c l ≡ₚ l.
Proof.
  induction l as [|x l IH]; [intros H; inversion H|].
  simpl. destruct (decide (c = x)) as [->|Hne]; [reflexivity|].
  intros [?|Hin]%elem_of_cons; [contradiction|].
  rewrite Permutation_swap. now rewrite IH.
Qed.

Lemma promote_Permutation l c : promote l c ≡ₚ l.
Proof.
  unfold promote. case_bool_decide; [|reflexivity].
  now apply list_remove_Permutation.
Qed.

Lemma sorted_keys_perm priority keys : sorted_keys priority keys ≡ₚ keys.
Proof.
  induction priority as [|c priority IH]; [reflexivity|].
  now rewrite sorted_keys_cons, promote_Permutation.
Qed.

(** The first priority column, when it occurs, heads the list. *)
Lemma sorted_keys_head c priority keys :
  c ∈ keys → ∃ rest, sorted_keys (c :: priority) keys = c :: rest.
Proof.
  intros Hc. rewrite sorted_keys_cons. unfold promote.
  rewrite bool_decide_eq_true_2 by (now rewrite sorted_keys_perm). eauto.
Qed.

Lemma key_set_elem all_records : ∀ s c,
  Sessions.key_set all_records = Ok s →
  c ∈ s ↔ ∃ d, PDict d ∈ all_records ∧ c ∈ dict_keys d.
Proof.
  induction all_records as [|rec rest IH]; intros s c; simpl.
  - intros [= <-]. split; [intros H; now apply not_elem_of_empty in H|].
    intros (d & Hd & _). inversion Hd.
  - destruct rec as [| | | | |d0]; try discriminate. simpl.
    destruct (Sessions.key_set rest) as [s0|e]; [|discriminate]. simpl.
    intros [= <-]. rewrite elem_of_union, elem_of_list_to_set, (IH s0 c eq_refl).
    split.
    + intros [Hc | (d & Hd & Hc)].
      * exists d0. split; [left | exact Hc].
      * exists d. split; [now right | exact Hc].
    + intros (d & [Heq|Hd]%elem_of_cons & Hc).
      * injection Heq as ->. now left.
      * right. eauto.
Qed.
End export_more.

(** X15.  Whatever the priority list (even with repeated or absent
    names) and whatever the list of keys, the reordering loop returns a
    permutation of the keys: it never drops, adds or repeats a
    column. *)
Theorem sorted_keys_is_a_permutation (priority keys : list string) :
  sorted_keys priority keys ≡ₚ keys.
Proof. apply sorted_keys_perm. Qed.

(** X16.  Whenever there is at least one device, the first column of the
    export is [mac], in both scripts and with enrichment on or off:
    every exported record comes from the dictionary of devices and so
    has a [mac], and [mac] is the first priority column. *)
Theorem first_column_is_mac
    (raw : list pyval) (ud : list (pykey * record))
    (enrichment : bool) (sched : TestClient.schedule)
    (client_api : pykey → response) (pooled looped : list record)
    (keys keys' : list string) :
  unique_devices raw = Ok ud → ud ≠ [] →
  TestClient.final_records enrichment sched ud = Ok pooled →
  Segment.final_records enrichment client_api ud = Ok looped →
  enumerates keys (all_keys pooled) →
  enumerates keys' (all_keys looped) →
  (∃ rest, sorted_keys TestClient.priority keys = "mac" :: rest) ∧
  (∃ rest, sorted_keys Segment.priority_cols keys' = "mac" :: rest).
Proof.
  intros Hud Hne Hpool Hloop Hk Hk'. unfold unique_devices in Hud.
  destruct ud as [|[k base] ud]; [now contradict Hne|].
  assert (dict_mem "mac" base = true) as Hmac.
  { assert (natural_key (PDict base) = Some k) as Hnk
      by (eapply (dedup_from_entries raw [] _ Hud); [intros ? ? H; inversion H | left]).
    destruct (natural_key_has_mac base k Hnk) as [v Hv].
    unfold dict_mem. now rewrite Hv. }
  split.
  - apply sorted_keys_head, (enumerates_elem _ _ _ Hk), elem_of_all_keys.
    unfold TestClient.final_records in Hpool.
    destruct enrichment; cbn [andb] in Hpool.
    + apply executor_map_lookup in Hpool as [_ Hpos].
      destruct (Hpos O (k, base) eq_refl) as (rec & Hrec & Hw).
      destruct (TestClient.enrich_device_worker _ _ _) as [[rec0 c0]|e] eqn:Hwk;
        [|discriminate].
      simpl in Hw. injection Hw as ->.
      exists rec. split; [eapply list_elem_of_lookup_2, Hrec|].
      apply dict_mem_true. eapply worker_keeps_keys; eassumption.
    + injection Hpool as <-. exists base. split; [left|].
      now apply dict_mem_true.
  - apply sorted_keys_head, (enumerates_elem _ _ _ Hk'), elem_of_all_keys.
    unfold Segment.final_records in Hloop.
    destruct enrichment; cbn [andb] in Hloop.
    + apply mapM_lookup in Hloop as [_ Hpos].
      destruct (Hpos O (k, base) eq_refl) as (rec & Hrec & Hw).
      exists rec. split; [eapply list_elem_of_lookup_2, Hrec|].
      apply dict_mem_true.
      now apply (seg_base_fields_survive_enrichment _ _ _ _ Hw).
    + injection Hloop as <-. exists base. split; [left|].
      now apply dict_mem_true.
Qed.

(** One order Python may enumerate the set of keys in: first
    appearance, last occurrence kept. *)
Lemma enumerates_keys_of (final_records : list record) :
  enumerates (remove_dups (mjoin (dict_keys <$> final_records)))
    (all_keys final_records).
Proof.
  apply NoDup_Permutation.
  - apply NoDup_remove_dups.
  - apply NoDup_elements.
  - intros c. rewrite elem_of_remove_dups, elem_of_elements, elem_of_all_keys.
    rewrite list_elem_of_join. split.
    + intros (l & Hc & (r & -> & Hr)%list_elem_of_fmap). eauto.
    + intros (r & Hr & Hc). exists (dict_keys r). split; [exact Hc|].
      apply list_elem_of_fmap. eauto.
Qed.

Lemma first_column_is_mac_witness :
  ∃ rest,
    sorted_keys TestClient.priority
      (remove_dups (mjoin (dict_keys <$>
         [wired_session; session_of "11:22:33:44:55:66" "10.0.0.5"])))
    = "mac" :: rest.
Proof.
  refine (proj1 (first_column_is_mac two_devices
            [(KStr "AA:BB:CC:DD:EE:FF", wired_session);
             (KStr "11:22:33:44:55:66",
              session_of "11:22:33:44:55:66" "10.0.0.5")]
            false (λ _, (all_down, ∅)) (λ _, NetworkError)
            [wired_session; session_of "11:22:33:44:55:66" "10.0.0.5"]
            [wired_session; session_of "11:22:33:44:55:66" "10.0.0.5"]
            _ _ _ _ _ _ (enumerates_keys_of _) (enumerates_keys_of _)));
    try (vm_compute; reflexivity).
  discriminate.
Defined.

(** X17.  The header of get-agni-sessions.py: when every record is a
    mapping, the columns are the keys of the records, each once, in
    ascending order, and the header does not depend on the order in
    which Python enumerates the set of keys. *)
Theorem sessions_header_is_sorted_union
    (all_records : list pyval) (s : gset string) (keys : list string) :
  Sessions.key_set all_records = Ok s →
  enumerates keys s →
  StronglySorted str_le (Sessions.all_keys keys) ∧
  NoDup (Sessions.all_keys keys) ∧
  (∀ c, c ∈ Sessions.all_keys keys ↔
        ∃ d, PDict d ∈ all_records ∧ c ∈ dict_keys d) ∧
  (∀ keys', enumerates keys' s → Sessions.all_keys keys' = Sessions.all_keys keys).
Proof.
  intros Hs Hk. unfold Sessions.all_keys, py_sorted.
  split; [apply StronglySorted_merge_sort; apply _|].
  split; [rewrite merge_sort_Permutation; eapply enumerates_NoDup, Hk|].
  split.
  - intros c. rewrite merge_sort_Permutation, (enumerates_elem _ _ c Hk).
    now apply key_set_elem.
  - intros keys' Hk'. apply py_sorted_unique.
    unfold enumerates in *. now rewrite Hk, Hk'.
Qed.

Lemma sessions_header_is_sorted_union_witness :
  Sessions.all_keys ["mac"; "ip"; "zone"] = ["ip"; "mac"; "zone"] ∧
  Sessions.all_keys ["zone"; "mac"; "ip"] = Sessions.all_keys ["mac"; "ip"; "zone"].
Proof.
  assert (Sessions.key_set [PDict (session_of "AA" "10.0.0.1");
                            PDict [("zone", PInt 1)]]
          = Ok (list_to_set ["mac"; "ip"] ∪ (list_to_set ["zone"] ∪ ∅))) as Hs
    by reflexivity.
  assert (∀ l, l ≡ₚ ["mac"; "ip"; "zone"] →
               enumerates l (list_to_set ["mac"; "ip"] ∪ (list_to_set ["zone"] ∪ ∅)))
    as He.
  { intros l Hl. unfold enumerates. rewrite Hl. apply NoDup_Permutation.
    - compute_done.
    - apply NoDup_elements.
    - intros x. rewrite elem_of_elements, !elem_of_union, !elem_of_list_to_set,
        !elem_of_cons, !elem_of_nil, elem_of_empty. tauto. }
  destruct (sessions_header_is_sorted_union _ _ ["mac"; "ip"; "zone"] Hs
              (He _ ltac:(reflexivity))) as (_ & _ & _ & Hind).
  split; [vm_compute; reflexivity|].
  apply Hind, He.
  change (["zone"; "mac"; "ip"]) with (["zone"] ++ ["mac"; "ip"]).
  change (["mac"; "ip"; "zone"]) with (["mac"; "ip"] ++ ["zone"]).
  apply Permutation_app_comm.
Defined.

(** X18.  The header of get-agni-stats.py is a permutation of the
    column names met.  When [dateTime] is among them it comes first and
    the other columns follow in the order Python enumerated them (they
    are not sorted); only when there is no [dateTime] is the header in
    ascending order, and then independent of the enumeration. *)
Theorem stats_header_order (keys : list string) :
  NoDup keys →
  Stats.sorted_keys keys ≡ₚ keys ∧
  ("dateTime" ∈ keys →
   Stats.sorted_keys keys = "dateTime" :: filter (λ c, c ≠ "dateTime") keys) ∧
  ("dateTime" ∉ keys →
   StronglySorted str_le (Stats.sorted_keys keys) ∧
   ∀ keys', keys' ≡ₚ keys → Stats.sorted_keys keys' = Stats.sorted_keys keys).
Proof.
  intros Hnd. unfold Stats.sorted_keys. split; [|split].
  - case_bool_decide as Hd.
    + now apply list_remove_Permutation.
    + apply merge_sort_Permutation.
  - intros Hd. rewrite bool_decide_eq_true_2 by assumption.
    now rewrite list_remove_NoDup.
  - intros Hd. rewrite bool_decide_eq_false_2 by assumption. split.
    + apply StronglySorted_merge_sort; apply _.
    + intros keys' Hp. rewrite bool_decide_eq_false_2 by (now rewrite Hp).
      now apply py_sorted_unique.
Qed.

Lemma stats_header_order_witness :
  Stats.sorted_keys ["zeta"; "dateTime"; "alpha"] = ["dateTime"; "zeta"; "alpha"].
Proof.
  assert (NoDup ["zeta"; "dateTime"; "alpha"]) as Hnd by compute_done.
  destruct (stats_header_order ["zeta"; "dateTime"; "alpha"] Hnd)
    as (_ & Hdate & _).
  rewrite Hdate by compute_done. reflexivity.
Defined.

(* ===================================================================== *)
(** ** The segment lookup *)
(* ===================================================================== *)

Section segment_facts.
Implicit Types (resp : response) (segment_name : string).

Lemma py_eq_str_ne (o : option pyval) segment_name :
  o ≠ Some (PStr segment_name) →
  py_eq_str (default PNone o) segment_name = false.
Proof.
  destruct o as [[| | |s| |]|]; simpl; try reflexivity.
  intros Hne. apply bool_decide_eq_false_2. congruence.
Qed.

Lemma find_segment_skips segment_name before rest :
  Forall (other_segment segment_name) before →
  find_segment segment_name (before ++ rest) = find_segment segment_name rest.
Proof.
  induction 1 as [|x before (r & -> & Hr) _ IH]; simpl; [reflexivity|].
  now rewrite py_eq_str_ne.
Qed.

Lemma segment_request_lists resp records segment_name :
  lists_segments resp records →
  segment_request resp segment_name = find_segment segment_name records.
Proof.
  intros (st & b & data & -> & Hr & Hd & HR). simpl in Hr |- *.
  rewrite orb_false_r in Hr. unfold raise_for_status. rewrite Hr. simpl.
  rewrite Hd. simpl. rewrite HR. reflexivity.
Qed.

Lemma segment_list_lists records : lists_segments (segment_list records) records.
Proof. now exists 200, [("data", PDict [("Records", PList records)])],
         [("Records", PList records)]. Qed.

End segment_facts.

(** X19.  [get_segment_id] returns the [id] of the first listed segment
    whose name equals the one asked for ([None] when that entry has no
    [id]); what the list holds after that entry plays no part. *)
Theorem segment_lookup_first_match
    (resp : response) (segment_name : string)
    (before after : list pyval) (rec : record) :
  lists_segments resp (before ++ PDict rec :: after) →
  Forall (other_segment segment_name) before →
  dict_get "name" rec = Some (PStr segment_name) →
  get_segment_id resp segment_name = default PNone (dict_get "id" rec).
Proof.
  intros Hl Hb Hn. unfold get_segment_id.
  rewrite (segment_request_lists _ _ _ Hl), find_segment_skips by assumption.
  simpl. rewrite Hn. simpl. now rewrite bool_decide_eq_true_2.
Qed.

Lemma segment_lookup_first_match_witness :
  get_segment_id
    (segment_list [segment_named "guest" 4; segment_named "corp" 7;
                   PInt 0; segment_named "corp" 9]) "corp"
  = PInt 7.
Proof.
  apply (segment_lookup_first_match _ "corp" [segment_named "guest" 4]
           [PInt 0; segment_named "corp" 9] [("name", PStr "corp"); ("id", PInt 7)]).
  - apply segment_list_lists.
  - repeat constructor. eexists. split; [reflexivity|]. discriminate.
  - reflexivity.
Defined.

(** X20.  An entry of the segment list that is not a mapping, met before
    any entry of the wanted name, ends the lookup: [get_segment_id]
    returns [None] even when the wanted segment is listed after it. *)
Theorem malformed_segment_hides_later_ones
    (resp : response) (segment_name : string)
    (before after : list pyval) (x : pyval) :
  lists_segments resp (before ++ x :: after) →
  Forall (other_segment segment_name) before →
  is_dict x = false →
  get_segment_id resp segment_name = PNone.
Proof.
  intros Hl Hb Hx. unfold get_segment_id.
  rewrite (segment_request_lists _ _ _ Hl), find_segment_skips by assumption.
  destruct x; try discriminate; reflexivity.
Qed.

Lemma malformed_segment_hides_later_ones_witness :
  get_segment_id
    (segment_list [segment_named "guest" 4; PNone; segment_named "corp" 7]) "corp"
  = PNone.
Proof.
  apply (malformed_segment_hides_later_ones _ "corp" [segment_named "guest" 4]
           [segment_named "corp" 7] PNone).
  - apply segment_list_lists.
  - repeat constructor. eexists. split; [reflexivity|]. discriminate.
  - reflexivity.
Defined.

(* ===================================================================== *)
(** ** get-agni-stats.py: flattening *)
(* ===================================================================== *)

Section stats_facts.
Variable json_dumps : pyval → string.

Lemma keys_dict_set (d : record) k v :
  list_to_set (dict_keys (dict_set k v d)) =@{gset string}
  {[k]} ∪ list_to_set (dict_keys d).
Proof.
  apply set_eq. intros x. rewrite dict_keys_set.
  destruct (dict_mem k d) eqn:M.
  - apply dict_mem_true in M.
    rewrite elem_of_union, elem_of_singleton, !elem_of_list_to_set.
    split; [now right|]. intros [->|H]; assumption.
  - rewrite elem_of_union, elem_of_singleton, !elem_of_list_to_set,
      elem_of_app, list_elem_of_singleton. tauto.
Qed.

Lemma add_stat_get (items : record) : ∀ (st : Stats.row_state) k,
  dict_wf items →
  dict_get k (foldl (Stats.add_stat json_dumps) st items).1 =
  match dict_get k items with
  | Some v => Some (if Stats.is_nested v then PStr (json_dumps v) else v)
  | None => dict_get k st.1
  end.
Proof.
  induction items as [|[k0 v0] items IH]; intros [d ks] k Hwf; [reflexivity|].
  apply NoDup_cons in Hwf as [Hk0 Hwf]. simpl in Hk0. cbn [foldl dict_get].
  rewrite IH by assumption. cbn [Stats.add_stat fst].
  destruct (decide (k = k0)) as [->|Hne].
  - apply dict_get_None in Hk0. rewrite Hk0. apply dict_get_set_eq.
  - now rewrite dict_get_set_ne.
Qed.

Lemma add_root_get (items : record) : ∀ (st : Stats.row_state) k,
  dict_wf items →
  dict_get k (foldl Stats.add_root st items).1 =
  if bool_decide (k ∉ ["stats"; "dateTime"]) then
    match dict_get k items with
    | Some v => Some v
    | None => dict_get k st.1
    end
  else dict_get k st.1.
Proof.
  induction items as [|[k0 v0] items IH]; intros [d ks] k Hwf.
  - simpl. now destruct (bool_decide _).
  - apply NoDup_cons in Hwf as [Hk0 Hwf]. simpl in Hk0. cbn [foldl dict_get].
    rewrite IH by assumption. cbn [Stats.add_root].
    destruct (bool_decide (k ∉ ["stats"; "dateTime"])) eqn:Hk.
    + destruct (decide (k = k0)) as [->|Hne].
      * apply dict_get_None in Hk0. rewrite Hk0, Hk. apply dict_get_set_eq.
      * destruct (bool_decide (k0 ∉ _)); cbn [fst];
          [now rewrite dict_get_set_ne|reflexivity].
    + destruct (bool_decide (k0 ∉ _)) eqn:Hk0'; cbn [fst]; [|reflexivity].
      rewrite dict_get_set_ne; [reflexivity|]. intros ->. congruence.
Qed.

(** The set of column names grows by the keys written to the row. *)
Lemma add_stat_keys (items : record) : ∀ (st : Stats.row_state) ks,
  st.2 = ks ∪ list_to_set (dict_keys st.1) →
  (foldl (Stats.add_stat json_dumps) st items).2 =
  ks ∪ list_to_set (dict_keys (foldl (Stats.add_stat json_dumps) st items).1).
Proof.
  induction items as [|[k0 v0] items IH]; intros [d s] ks Hst; [assumption|].
  cbn [foldl]. apply IH. cbn [Stats.add_stat fst snd] in *.
  rewrite keys_dict_set, Hst. apply set_eq. intros x.
  rewrite !elem_of_union. tauto.
Qed.

Lemma add_root_keys (items : record) : ∀ (st : Stats.row_state) ks,
  st.2 = ks ∪ list_to_set (dict_keys st.1) →
  (foldl Stats.add_root st items).2 =
  ks ∪ list_to_set (dict_keys (foldl Stats.add_root st items).1).
Proof.
  induction items as [|[k0 v0] items IH]; intros [d s] ks Hst; [assumption|].
  cbn [foldl]. apply IH. cbn [Stats.add_root].
  destruct (bool_decide _); cbn [fst snd] in *; [|assumption].
  rewrite keys_dict_set, Hst. apply set_eq. intros x.
  rewrite !elem_of_union. tauto.
Qed.

End stats_facts.

Section stats_rows.
Variable json_dumps : pyval → string.

(** The loop body on a record that is a mapping. *)
Lemma flatten_record_dict (r : record) ks :
  Stats.flatten_record json_dumps (PDict r) ks =
  let st0 : Stats.row_state :=
    match dict_get "dateTime" r with
    | Some d => ([("dateTime", d)], {["dateTime"]} ∪ ks)
    | None => ([], ks)
    end in
  match default (PDict []) (dict_get "stats" r) with
  | PDict st =>
      Ok (foldl Stats.add_root (foldl (Stats.add_stat json_dumps) st0 st) r)
  | sv => if truthy sv then Raise AttributeError
          else Ok (foldl Stats.add_root st0 r)
  end.
Proof.
  unfold Stats.flatten_record. simpl. unfold dict_mem.
  destruct (dict_get "dateTime" r) as [d|]; simpl;
    (destruct (dict_get "stats" r) as [[|b|n|s|l|[|kv st]]|]; simpl;
     try reflexivity;
     [destruct b | destruct (n =? 0) | destruct s | destruct l];
     reflexivity).
Qed.

Lemma flatten_record_get (r : record) ks flat ks' k :
  dict_wf r →
  (∀ st, dict_get "stats" r = Some (PDict st) → dict_wf st) →
  Stats.flatten_record json_dumps (PDict r) ks = Ok (flat, ks') →
  dict_get k flat =
  match (if bool_decide (k ∉ ["stats"; "dateTime"]) then dict_get k r else None) with
  | Some v => Some v
  | None =>
      match (match dict_get "stats" r with
             | Some (PDict st) => dict_get k st
             | _ => None
             end) with
      | Some v => Some (if Stats.is_nested v then PStr (json_dumps v) else v)
      | None => if decide (k = "dateTime") then dict_get "dateTime" r else None
      end
  end.
Proof.
  intros Hwf Hst. rewrite flatten_record_dict. cbv zeta.
  assert (∀ (st : Stats.row_state), Ok st = Ok (flat, ks') → flat = st.1) as Hfst
    by (now intros st [= ->]).
  set (st0 := match dict_get "dateTime" r with Some _ => _ | None => _ end).
  assert (dict_get k st0.1 =
          (if decide (k = "dateTime") then dict_get "dateTime" r else None)) as H0.
  { subst st0. destruct (dict_get "dateTime" r); simpl;
      destruct (decide _); reflexivity. }
  clearbody st0.
  destruct (dict_get "stats" r) as [sv|] eqn:Hs; simpl.
  - destruct sv as [|b|n|s|l|st];
      [|destruct b|destruct (n =? 0)|destruct s|destruct l|];
      try discriminate;
      intros ->%Hfst; rewrite add_root_get, ?add_stat_get by auto;
      rewrite ?H0; destruct (bool_decide _); try destruct (dict_get k r);
      try destruct (dict_get k st); reflexivity.
  - intros ->%Hfst. rewrite add_root_get by assumption.
    rewrite H0. destruct (bool_decide _); try destruct (dict_get k r);
      reflexivity.
Qed.

Lemma flatten_record_not_dict (rec : pyval) ks :
  is_dict rec = false →
  ∃ e, Stats.flatten_record json_dumps rec ks = Raise e.
Proof.
  unfold Stats.flatten_record.
  destruct rec as [|b|n|s|l|r]; try discriminate; intros _; simpl;
    try (eexists; reflexivity).
  - destruct (String.index 0 "dateTime" s); simpl; eexists; reflexivity.
  - destruct (existsb _ l); simpl; eexists; reflexivity.
Qed.

Lemma flatten_record_bad_stats (r : record) sv ks :
  dict_get "stats" r = Some sv → truthy sv = true → is_dict sv = false →
  Stats.flatten_record json_dumps (PDict r) ks = Raise AttributeError.
Proof.
  intros Hs Ht Hd. rewrite flatten_record_dict. cbv zeta. rewrite Hs. simpl.
  destruct sv; try discriminate; simpl in Ht |- *; now rewrite ?Ht.
Qed.

Lemma flatten_record_keys (rec : pyval) ks flat ks' :
  Stats.flatten_record json_dumps rec ks = Ok (flat, ks') →
  ks' = ks ∪ list_to_set (dict_keys flat).
Proof.
  destruct (is_dict rec) eqn:Hrec.
  2: { destruct (flatten_record_not_dict rec ks Hrec) as [e ->]. discriminate. }
  destruct rec as [| | | | |r]; try discriminate.
  rewrite flatten_record_dict. cbv zeta.
  assert (∀ st : Stats.row_state,
            st.2 = ks ∪ list_to_set (dict_keys st.1) →
            Ok st = Ok (flat, ks') → ks' = ks ∪ list_to_set (dict_keys flat)) as Hfin.
  { intros [f s] Hinv [= -> ->]. exact Hinv. }
  set (st0 := match dict_get "dateTime" r with Some _ => _ | None => _ end).
  assert (st0.2 = ks ∪ list_to_set (dict_keys st0.1)) as H0.
  { subst st0. destruct (dict_get "dateTime" r); simpl; apply set_eq; intros x;
      rewrite ?elem_of_union, ?elem_of_list_to_set, ?list_elem_of_singleton,
        ?elem_of_singleton, ?elem_of_nil, ?elem_of_empty; tauto. }
  clearbody st0.
  destruct (default (PDict []) (dict_get "stats" r)) as [|b|n|s|l|st];
    simpl;
    [|destruct b|destruct (n =? 0)|destruct s|destruct l|];
    simpl; try discriminate;
    apply Hfin; apply add_root_keys; try assumption.
  now apply add_stat_keys.
Qed.

Lemma all_keys_cons (r : record) (rs : list record) :
  all_keys (r :: rs) = list_to_set (dict_keys r) ∪ all_keys rs.
Proof. reflexivity. Qed.

Lemma flatten_from_spec (records : list pyval) : ∀ acc ks rows ks',
  Stats.flatten_from json_dumps acc ks records = Ok (rows, ks') →
  ∃ new, rows = acc ++ new ∧ length new = length records ∧
         ks' = ks ∪ all_keys new.
Proof.
  induction records as [|rec rest IH]; intros acc ks rows ks'; simpl.
  - intros [= <- <-]. exists []. rewrite app_nil_r. repeat split.
    unfold all_keys. simpl. now rewrite union_empty_r_L.
  - destruct (Stats.flatten_record json_dumps rec ks) as [[flat ks1]|e] eqn:Hr;
      simpl; [|discriminate].
    intros (new & -> & Hlen & ->)%IH. exists (flat :: new).
    rewrite <- app_assoc. split; [reflexivity|]. split; [simpl; lia|].
    apply flatten_record_keys in Hr as ->.
    now rewrite all_keys_cons, union_assoc_L.
Qed.

Lemma flatten_from_app (l1 l2 : list pyval) : ∀ acc ks,
  Stats.flatten_from json_dumps acc ks (l1 ++ l2) =
  match Stats.flatten_from json_dumps acc ks l1 with
  | Ok (rows, ks') => Stats.flatten_from json_dumps rows ks' l2
  | Raise e => Raise e
  end.
Proof.
  induction l1 as [|rec l1 IH]; intros acc ks; simpl; [reflexivity|].
  destruct (Stats.flatten_record json_dumps rec ks) as [[flat ks1]|e]; simpl;
    [apply IH|reflexivity].
Qed.

Lemma add_root_del_stats (r : record) : ∀ st : Stats.row_state,
  foldl Stats.add_root st (dict_del "stats" r) = foldl Stats.add_root st r.
Proof.
  induction r as [|[k0 v0] r IH]; intros st; [reflexivity|]. simpl.
  destruct (decide ("stats" = k0)) as [<-|Hne].
  - destruct st. reflexivity.
  - simpl. apply IH.
Qed.

End stats_rows.

Lemma stats_sorted_keys_Permutation (keys : list string) :
  NoDup keys → Stats.sorted_keys keys ≡ₚ keys.
Proof.
  intros Hnd. unfold Stats.sorted_keys. case_bool_decide as Hd.
  - now apply list_remove_Permutation.
  - apply merge_sort_Permutation.
Qed.

(** X21.  A flattened statistics row: a root-level field other than
    [stats] and [dateTime] keeps its value, nested or not, and wins over
    a [stats] entry of the same name; a [stats] entry not so replaced
    appears under its own name, as [json.dumps] text when it is a list
    or a mapping; [dateTime] is the root one unless [stats] holds a
    [dateTime] of its own. *)
Theorem stats_row_fields
    (json_dumps : pyval → string) (r flat : record) (ks ks' : gset string) :
  dict_wf r →
  (∀ st, dict_get "stats" r = Some (PDict st) → dict_wf st) →
  Stats.flatten_record json_dumps (PDict r) ks = Ok (flat, ks') →
  (∀ k v, dict_get k r = Some v → k ≠ "stats" → k ≠ "dateTime" →
          dict_get k flat = Some v) ∧
  (∀ st k v, dict_get "stats" r = Some (PDict st) → dict_get k st = Some v →
             k = "stats" ∨ k = "dateTime" ∨ dict_get k r = None →
             dict_get k flat =
             Some (if Stats.is_nested v then PStr (json_dumps v) else v)) ∧
  ((∀ st, dict_get "stats" r = Some (PDict st) → dict_get "dateTime" st = None) →
   dict_get "dateTime" flat = dict_get "dateTime" r).
Proof.
  intros Hwf Hst Hf.
  pose proof (λ k, flatten_record_get json_dumps r ks flat ks' k Hwf Hst Hf) as Hget.
  split; [|split].
  - intros k v Hk Hs Hd. rewrite Hget, bool_decide_eq_true_2, Hk; [reflexivity|].
    rewrite !not_elem_of_cons. auto using not_elem_of_nil.
  - intros st k v Hs Hk Hor. rewrite Hget, Hs, Hk.
    destruct Hor as [->|[->|Hr]]; [reflexivity..|].
    rewrite Hr. now destruct (bool_decide _).
  - intros Hno. rewrite Hget. simpl.
    destruct (dict_get "stats" r) as [[| | | | |st]|] eqn:Hs; try reflexivity.
    now rewrite (Hno st).
Qed.

Lemma stats_row_fields_witness :
  ∃ flat ks',
    Stats.flatten_record sample_dumps (PDict stats_record) ∅ = Ok (flat, ks') ∧
    dict_get "site" flat = Some (PStr "outer") ∧
    dict_get "tags" flat = Some (PList [PStr "x"]) ∧
    dict_get "top" flat = Some (PStr "<json>") ∧
    dict_get "dateTime" flat = Some (PStr "2024-01-01T00:00:00Z").
Proof.
  assert (∃ st, Stats.flatten_record sample_dumps (PDict stats_record) ∅ = Ok st)
    as [[flat ks'] Hf] by (eexists; reflexivity).
  assert (dict_wf stats_record) as Hwf by compute_done.
  assert (∀ st, dict_get "stats" stats_record = Some (PDict st) → dict_wf st) as Hst.
  { intros st [= <-]. compute_done. }
  destruct (stats_row_fields sample_dumps stats_record flat ∅ ks' Hwf Hst Hf)
    as (Hroot & Hstat & Hdate).
  exists flat, ks'. split; [exact Hf|]. repeat split.
  - now apply Hroot.
  - now apply Hroot.
  - apply (Hstat _ "top" (PList [PStr "a"]) eq_refl); [reflexivity|].
    right. now right.
  - apply Hdate. now intros st [= <-].
Defined.

(** X22.  The flattening of get-agni-stats.py gives one row per record,
    and the set of column names it collects is exactly the union of the
    keys of the rows; so the header built from any enumeration of that
    set lists a column if and only if some row has it. *)
Theorem stats_header_covers_rows
    (json_dumps : pyval → string) (records : list pyval)
    (rows : list record) (ks : gset string) :
  Stats.flatten json_dumps records = Ok (rows, ks) →
  length rows = length records ∧
  ks = all_keys rows ∧
  ∀ keys, enumerates keys ks →
    ∀ c, c ∈ Stats.sorted_keys keys ↔ ∃ row, row ∈ rows ∧ c ∈ dict_keys row.
Proof.
  intros (new & Hrows & Hlen & Hks)%flatten_from_spec. simpl in Hrows.
  subst rows. rewrite union_empty_l_L in Hks. subst ks.
  split; [assumption|]. split; [reflexivity|].
  intros keys Hk c.
  rewrite (stats_sorted_keys_Permutation keys) by (eapply enumerates_NoDup, Hk).
  rewrite (enumerates_elem _ _ c Hk). apply elem_of_all_keys.
Qed.

Lemma stats_header_covers_rows_witness :
  ∃ rows ks,
    Stats.flatten sample_dumps [PDict stats_record; PDict [("extra", PInt 1)]]
      = Ok (rows, ks) ∧
    length rows = 2%nat ∧ ks = all_keys rows.
Proof.
  assert (∃ st, Stats.flatten sample_dumps
                  [PDict stats_record; PDict [("extra", PInt 1)]] = Ok st)
    as [[rows ks] Hf] by (eexists; reflexivity).
  destruct (stats_header_covers_rows sample_dumps _ rows ks Hf) as (Hlen & Hks & _).
  exists rows, ks. split; [exact Hf|]. split; assumption.
Defined.

(** X23.  A [stats] field that is falsy ([None], [False], 0, an empty
    string, list or mapping) is passed over: the record is flattened
    exactly as if it had no [stats] field. *)
Theorem falsy_stats_is_ignored
    (json_dumps : pyval → string) (r : record) (sv : pyval) (ks : gset string) :
  dict_wf r →
  dict_get "stats" r = Some sv →
  truthy sv = false →
  Stats.flatten_record json_dumps (PDict r) ks =
  Stats.flatten_record json_dumps (PDict (dict_del "stats" r)) ks.
Proof.
  intros Hwf Hs Ht. rewrite !flatten_record_dict. cbv zeta.
  rewrite (dict_get_del_ne r "dateTime" "stats") by (intros [=]).
  assert (dict_get "stats" (dict_del "stats" r) = None) as ->
    by (apply dict_get_None; now apply dict_del_gone).
  rewrite Hs. simpl.
  destruct sv as [|b|n|s|l|[|kv st]]; simpl in Ht |- *;
    try discriminate; rewrite ?Ht, !add_root_del_stats; reflexivity.
Qed.

Lemma falsy_stats_is_ignored_witness :
  Stats.flatten_record sample_dumps
    (PDict [("dateTime", PStr "t0"); ("stats", PNone); ("site", PStr "hq")]) ∅ =
  Stats.flatten_record sample_dumps
    (PDict [("dateTime", PStr "t0"); ("site", PStr "hq")]) ∅.
Proof.
  apply (falsy_stats_is_ignored sample_dumps
           [("dateTime", PStr "t0"); ("stats", PNone); ("site", PStr "hq")] PNone ∅).
  - compute_done.
  - reflexivity.
  - reflexivity.
Defined.

(** X24.  One record that is not a mapping, or whose [stats] is a truthy
    value other than a mapping (a number, a non-empty string or list),
    makes the whole flattening raise: no row of that statistics type is
    produced, whatever the other records hold. *)
Theorem bad_record_fails_flatten
    (json_dumps : pyval → string) (before after : list pyval) (rec : pyval) :
  (is_dict rec = false ∨
   ∃ r sv, rec = PDict r ∧ dict_get "stats" r = Some sv ∧
           truthy sv = true ∧ is_dict sv = false) →
  ∃ e, Stats.flatten json_dumps (before ++ rec :: after) = Raise e.
Proof.
  intros Hbad. unfold Stats.flatten. rewrite flatten_from_app.
  destruct (Stats.flatten_from json_dumps [] ∅ before) as [[rows ks]|e];
    [|now exists e].
  simpl.
  assert (∃ e, Stats.flatten_record json_dumps rec ks = Raise e) as [e ->].
  { destruct Hbad as [Hd|(r & sv & -> & Hs & Ht & Hd)].
    - now apply flatten_record_not_dict.
    - exists AttributeError. now apply (flatten_record_bad_stats _ r sv). }
  now exists e.
Qed.

Lemma bad_record_fails_flatten_witness :
  ∃ e, Stats.flatten sample_dumps
         ([PDict stats_record] ++ PDict [("stats", PInt 5)] :: [PDict stats_record])
       = Raise e.
Proof.
  apply (bad_record_fails_flatten sample_dumps [PDict stats_record]
           [PDict stats_record] (PDict [("stats", PInt 5)])).
  right. exists [("stats", PInt 5)], (PInt 5). repeat split.
Defined.
